(** * Multiparent MFEA-II over SL-GEP programs: the driver, the primitive set
      and the environments

    A shallow embedding of [src/slgep_lib/function_set.py], of
    [src/gym_evaluate/mfeaii_mgp.py] and of the two double-pole environments
    of [src/mtsoo/custom_gym/custom_gym/envs], with the properties of the
    engine and of the environments stated and proved over it.

    - [FunctionSet] embeds the guarded primitives.  Values are IEEE binary64
      numbers in the executable specification [spec_float] of the Standard
      Library, so that the NaN value and the operations on it are the real
      ones.
    - [Mfeaii] embeds the generational driver.  The population class
      [Slgep_pop] is not part of the sources at hand, so its methods are the
      fields of an interface record; the driver itself is embedded statement
      by statement in a state-and-exception monad.
    - [Gym], [doublepole_710_v1] and [doublepole_710] embed the environments
      over Python's numbers taken as an interface; the arrays that the
      integrator writes in place live in a store. *)

From Stdlib Require Import ZArith List String Bool Lia.
From Stdlib Require Import DecimalString DecimalNat.
From Stdlib Require QArith.
From Stdlib Require Import Floats.SpecFloat.
From Stdlib Require Import Reals Lra.
From stdpp Require Import base list.

Set Default Proof Using "Type".

(** ** Python outcomes *)

(** The exceptions that the embedded code can meet. *)
Inductive exn : Type :=
| FloatingPointError   (* numpy, under [np.seterr(all='raise')] *)
| IndexError           (* list or array index out of range *)
| ValueError           (* [np.max] of an empty array *)
| TypeError            (* a call with the wrong number of arguments *)
| KeyError.            (* a dictionary without the key *)

(** What a Python call does for its caller: it returns a value or it raises. *)
Inductive outcome (A : Type) : Type :=
| Return (a : A)
| Raise (e : exn).
Arguments Return {A} a.
Arguments Raise {A} e.

Definition returns {A} (o : outcome A) : Prop := exists a, o = Return a.

(** [try: body  except: return d] followed by returning the body's value. *)
Definition try_except {A} (body : outcome A) (d : A) : outcome A :=
  match body with
  | Return a => Return a
  | Raise _ => Return d
  end.

Module FunctionSet.

(** *** Numbers *)

Definition float64 : Type := spec_float.
Definition prec : Z := 53.
Definition emax : Z := 1024.

(** [np.nan] *)
Definition nan : float64 := S754_nan.
Definition zero : float64 := S754_zero false.
(** The literal [88]: 11 * 2^3, written with its 53-bit mantissa. *)
Definition f88 : float64 := S754_finite false 6192449487634432 (-46).

(** [x == 0] and [x >= 88] on floats: comparisons with NaN are false. *)
Definition eq0 (x : float64) : bool := SFeqb x zero.
Definition ge88 (x : float64) : bool := SFleb f88 x.

(** *** numpy under [np.seterr(all='raise')]

    The module starts with [np.seterr(all='raise')]: a ufunc whose evaluation
    sets a floating-point status flag raises [FloatingPointError] instead of
    returning.  Which operands set a flag is the platform's business, so it
    is left open ([*_flag]); the value returned otherwise is the IEEE one for
    the four arithmetic operations, and libm's for the other four. *)
Record numpy : Type := {
  add_flag : float64 -> float64 -> bool;
  subtract_flag : float64 -> float64 -> bool;
  multiply_flag : float64 -> float64 -> bool;
  divide_flag : float64 -> float64 -> bool;
  np_sin : float64 -> outcome float64;
  np_cos : float64 -> outcome float64;
  np_exp : float64 -> outcome float64;
  np_log : float64 -> outcome float64
}.

(** A quiet NaN argument of a libm function comes back as NaN, unless the
    call raises. *)
Definition nan_in_nan_out (f : float64 -> outcome float64) : Prop :=
  f nan = Return nan \/ exists e, f nan = Raise e.

Record ieee_libm (np : numpy) : Prop := {
  sin_nan : nan_in_nan_out (np_sin np);
  cos_nan : nan_in_nan_out (np_cos np);
  exp_nan : nan_in_nan_out (np_exp np);
  log_nan : nan_in_nan_out (np_log np)
}.

Definition ufunc2 (flag : float64 -> float64 -> bool)
    (op : float64 -> float64 -> float64) (a b : float64) : outcome float64 :=
  if flag a b then Raise FloatingPointError else Return (op a b).

Section Primitives.

Variable np : numpy.

Definition np_add := ufunc2 (add_flag np) (SFadd prec emax).
Definition np_subtract := ufunc2 (subtract_flag np) (SFsub prec emax).
Definition np_multiply := ufunc2 (multiply_flag np) (SFmul prec emax).
Definition np_divide := ufunc2 (divide_flag np) (SFdiv prec emax).
(** [np.abs] moves the sign bit only and sets no flag. *)
Definition np_abs (a : float64) : float64 := SFabs a.

Definition add (a b : float64) : outcome float64 :=
  try_except (np_add a b) nan.

Definition subtract (a b : float64) : outcome float64 :=
  try_except (np_subtract a b) nan.

Definition multiply (a b : float64) : outcome float64 :=
  try_except (np_multiply a b) nan.

Definition divide (a b : float64) : outcome float64 :=
  if eq0 b then Return nan
  else try_except (np_divide a b) nan.

Definition log (a : float64) : outcome float64 :=
  if eq0 a then Return nan
  else try_except (np_log np a) nan.

Definition take_sin (a : float64) : outcome float64 :=
  try_except (np_sin np a) nan.

Definition take_cos (a : float64) : outcome float64 :=
  try_except (np_cos np a) nan.

Definition exp (a : float64) : outcome float64 :=
  if ge88 a then Return nan
  else try_except (np_exp np a) nan.

(** *** The function table *)

(** The ['func'] entry of a table row is a lambda of one or of two
    parameters; calling it with another number of arguments is a
    [TypeError]. *)
Inductive lambda : Type :=
| Lambda1 (f : float64 -> outcome float64)
| Lambda2 (f : float64 -> float64 -> outcome float64).

Record primitive : Type := {
  name : string;
  func : lambda;
  arity : nat
}.

Definition call (f : lambda) (args : list float64) : outcome float64 :=
  match f, args with
  | Lambda1 f, [a] => f a
  | Lambda2 f, [a; b] => f a b
  | _, _ => Raise TypeError
  end.

Definition FUNCTION_SET : list primitive :=
  [ {| name := "+"; func := Lambda2 (fun a b => add a b); arity := 2 |};
    {| name := "-"; func := Lambda2 (fun a b => subtract a b); arity := 2 |};
    {| name := "*"; func := Lambda2 (fun a b => multiply a b); arity := 2 |};
    {| name := "/"; func := Lambda2 (fun a b => divide a b); arity := 2 |};
    {| name := "sin"; func := Lambda1 (fun a => take_sin a); arity := 1 |};
    {| name := "cos"; func := Lambda1 (fun a => take_cos a); arity := 1 |};
    {| name := "e^x"; func := Lambda1 (fun a => exp a); arity := 1 |};
    {| name := "ln|x|"; func := Lambda1 (fun a => log (np_abs a)); arity := 1 |} ].

Definition create_function_set : list primitive := FUNCTION_SET.

End Primitives.

(** A numpy for the examples: no operation sets a flag except a division
    by zero, and the libm functions are replaced by the identity. *)
Definition quiet_numpy : numpy := {|
  add_flag := fun _ _ => false;
  subtract_flag := fun _ _ => false;
  multiply_flag := fun _ _ => false;
  divide_flag := fun _ b => eq0 b;
  np_sin := fun a => Return a;
  np_cos := fun a => Return a;
  np_exp := fun a => Return a;
  np_log := fun a => if eq0 a then Raise FloatingPointError else Return a
|}.

Definition one : float64 := S754_finite false 4503599627370496 (-52).
Definition f100 : float64 := S754_finite false 7036874417766400 (-46).

End FunctionSet.

(** ** The outcome monad *)

Global Instance outcome_ret : MRet outcome := fun _ a => Return a.
Global Instance outcome_bind : MBind outcome := fun _ _ f o =>
  match o with
  | Return a => f a
  | Raise e => Raise e
  end.

(** [l[i]] on a Python list or a one-dimensional array. *)
Definition index {A} (l : list A) (i : nat) : outcome A :=
  match l !! i with
  | Some a => Return a
  | None => Raise IndexError
  end.

(** [l[i] = a] *)
Definition assign {A} (l : list A) (i : nat) (a : A) : outcome (list A) :=
  if decide (i < length l) then Return (<[i:=a]> l) else Raise IndexError.

(** A [for] loop that threads the variables it updates. *)
Fixpoint for_fold {A B} (f : B -> A -> outcome B) (l : list A) (b : B)
    : outcome B :=
  match l with
  | [] => Return b
  | a :: l' => b' ← f b a; for_fold f l' b'
  end.

(** A list comprehension whose element expression can raise. *)
Fixpoint comprehension {A B} (f : A -> outcome B) (l : list A)
    : outcome (list B) :=
  match l with
  | [] => Return []
  | a :: l' => b ← f a; bs ← comprehension f l'; Return (b :: bs)
  end.

(** [range(n)], [range(a, b)] and [range(0, n, step)]; a zero step is a
    [ValueError]. *)
Definition range (n : nat) : list nat := seq 0 n.
Definition range2 (a b : nat) : list nat := seq a (b - a).
Definition range_step (n step : nat) : outcome (list nat) :=
  match step with
  | O => Raise ValueError
  | _ => Return (map (fun q => q * step) (seq 0 ((n + step - 1) / step)))
  end.

Module Mfeaii.

(** *** numpy on real numbers

    A float of the driver is taken as the real number it stands for.  The
    operations kept exact here are those that are exact on floats: an
    index, a maximum, a comparison, a product by 1.  Arrays are lists,
    matrices are lists of rows. *)

Definition matrix : Type := list (list R).

Definition mat_get (m : matrix) (i j : nat) : outcome R :=
  row ← index m i; index row j.

(** [m[i][j] *= x] *)
Definition mat_imul (m : matrix) (i j : nat) (x : R) : outcome matrix :=
  row ← index m i;
  old ← index row j;
  row' ← assign row j (old * x)%R;
  assign m i row'.

Definition np_ones (rows cols : nat) : matrix :=
  replicate rows (replicate cols 1%R).

Definition np_zeros (rows cols : nat) : matrix :=
  replicate rows (replicate cols 0%R).

(** [np.max] of a one-dimensional array: a [ValueError] on an empty one.
    It is used on floats and on integers. *)
Definition np_max_by {A} (mx : A -> A -> A) (xs : list A) : outcome A :=
  match xs with
  | [] => Raise ValueError
  | x :: xs' => Return (fold_left mx xs' x)
  end.

Definition np_max : list R -> outcome R := np_max_by Rmax.
Definition np_max_int : list nat -> outcome nat := np_max_by Nat.max.

(** [np.array] of a list of rows: the rows must have one length. *)
Definition np_array (rows : list (list R)) : outcome matrix :=
  match rows with
  | [] => Return []
  | r :: _ =>
      if forallb (fun r' => Nat.eqb (length r') (length r)) rows
      then Return rows else Raise ValueError
  end.

(** *** numpy's statistics and scipy's density

    [np.mean(a, axis=0)], [np.std(a, axis=0)] and [scipy.stats.norm.pdf]
    compute in binary64: which number they answer, and whether they return
    or raise, is the platform's business and is left open.  The driver's own
    test [std[j] == 0] is made on the number that [np.std] answered. *)
Record statistics : Type := {
  np_mean0 : matrix -> outcome (list R);
  np_std0 : matrix -> outcome (list R);
  norm_pdf : R -> R -> R -> outcome R   (* [norm.pdf(x, loc=, scale=)] *)
}.

(** Python's [round(x, 1)], half to even. *)
Definition round1 (x : R) : R :=
  let y := (x * 10)%R in
  let f := Int_part y in
  let d := frac_part y in
  let n := if Rlt_dec d (1 / 2) then f
           else if Rlt_dec (1 / 2) d then (f + 1)%Z
           else if Z.even f then f else (f + 1)%Z in
  (IZR n / 10)%R.

(** *** Data *)

(** A chromosome, with the attributes the driver reads or writes ([gene],
    [sf], [D]) and its cached fitness. *)
Record chromosome : Type := {
  gene : list R;
  sf : nat;
  D : nat;
  fitness : R
}.

(** [c.sf = s] *)
Definition set_sf (s : nat) (c : chromosome) : chromosome :=
  {| gene := gene c; sf := s; D := D c; fitness := fitness c |}.

(** A task environment, as far as the driver looks at it at setup:
    [action_space.n] and [reset().shape[0]]. *)
Record env : Type := {
  action_space_n : nat;
  reset_shape0 : nat
}.

(** The configuration dictionary, by its recognised keys. *)
Record config : Type := {
  pop_size : nat;
  num_iter : nat;
  num_par : nat;
  mutation_rate : R;
  sbxdi : R;
  pmdi : R;
  pswap : R;
  max_arity : nat;
  h_main : nat;
  h_adf : nat
}.

(** The configuration dictionary as the caller builds it: each recognised
    key is bound to a value or absent. *)
Record config_dict : Type := {
  key_pop_size : option nat;
  key_num_iter : option nat;
  key_num_par : option nat;
  key_mutation_rate : option R;
  key_sbxdi : option R;
  key_pmdi : option R;
  key_pswap : option R;
  key_max_arity : option nat;
  key_h_main : option nat;
  key_h_adf : option nat
}.

(** [config[key]] *)
Definition getitem {A} (v : option A) : outcome A :=
  match v with
  | Some a => Return a
  | None => Raise KeyError
  end.

(** Lines 12-24: the options are read key by key, before anything else is
    done. *)
Definition read_config (d : config_dict) : outcome config :=
  pop_size ← getitem (key_pop_size d);
  num_iter ← getitem (key_num_iter d);
  num_par ← getitem (key_num_par d);
  mutation_rate ← getitem (key_mutation_rate d);
  sbxdi ← getitem (key_sbxdi d);
  pmdi ← getitem (key_pmdi d);
  pswap ← getitem (key_pswap d);
  max_arity ← getitem (key_max_arity d);
  h_main ← getitem (key_h_main d);
  h_adf ← getitem (key_h_adf d);
  Return {| pop_size := pop_size; num_iter := num_iter; num_par := num_par;
            mutation_rate := mutation_rate; sbxdi := sbxdi; pmdi := pmdi;
            pswap := pswap; max_arity := max_arity; h_main := h_main;
            h_adf := h_adf |}.

(** The arguments of the [Slgep_pop] constructor. *)
Record pop_args : Type := {
  no_adf : nat;
  no_terminal : nat;
  no_main : nat;
  arg_h_main : nat;
  arg_max_arity : nat;
  arg_h_adf : nat;
  no_pop : nat;
  no_task : nat
}.

Record message : Type := {
  algorithm : string;
  rmp : R
}.

(** *** The collaborators

    [rand] is the state of numpy's global random generator and [result] the
    type of an optimisation result.  The record of numpy holds the draws
    from the generator and the statistics of the platform.  A method of the population reads the
    population and draws random numbers; the genetic operators return new
    chromosomes and leave the population's slots alone, whereas [evaluate],
    [sort] and [permute] rewrite the population. *)
Record np_random (rand : Type) : Type := {
  random_normal : R -> R -> nat -> nat -> rand -> matrix * rand;
  random_rand : rand -> R * rand;
  random_randint : nat -> rand -> nat * rand;
  numerics : statistics
}.
Arguments random_normal {rand}.
Arguments random_rand {rand}.
Arguments random_randint {rand}.
Arguments numerics {rand}.

Record Slgep_pop (rand result : Type) : Type := {
  new_pop : pop_args -> rand -> outcome (list chromosome) * rand;
  evaluate : list env -> list chromosome -> rand -> list chromosome * rand;
  sort : list chromosome -> list chromosome;
  permute : list chromosome -> rand -> list chromosome * rand;
  get_subpops : list chromosome -> list (list chromosome);
  learn_rmp : list chromosome -> list (list chromosome) -> rand
              -> matrix * rand;
  crossover_mul : list chromosome -> list chromosome -> matrix -> rand
                  -> list chromosome * rand;
  crossover_mul_second : list chromosome -> list chromosome -> matrix
                         -> matrix -> rand -> list chromosome * rand;
  mutate : list chromosome -> chromosome -> R -> option R -> rand
           -> chromosome * rand;
  find_relative : list chromosome -> nat -> rand -> chromosome * rand;
  get_optimization_results : list chromosome -> nat -> message -> list result
}.
Arguments new_pop {rand result}.
Arguments evaluate {rand result}.
Arguments sort {rand result}.
Arguments permute {rand result}.
Arguments get_subpops {rand result}.
Arguments learn_rmp {rand result}.
Arguments crossover_mul {rand result}.
Arguments crossover_mul_second {rand result}.
Arguments mutate {rand result}.
Arguments find_relative {rand result}.
Arguments get_optimization_results {rand result}.

(** *** Setup (lines 11-31) *)

Definition setup_args (envs : list env) (cfg : config) : outcome pop_args :=
  let K := length envs in
  let N := pop_size cfg * K in
  e0 ← index envs 0;
  let no_main := action_space_n e0 in
  let no_adf := no_main * 2 in
  dims ← comprehension (fun i => e ← index envs i; Return (reset_shape0 e))
                       (range K);
  no_terminal ← np_max_int dims;
  Return {| no_adf := no_adf; no_terminal := no_terminal;
            no_main := no_main; arg_h_main := h_main cfg;
            arg_max_arity := max_arity cfg; arg_h_adf := h_adf cfg;
            no_pop := 2 * N; no_task := K |}.

(** *** The beta matrix of the likelihood mode (lines 66-77) *)

Definition beta_likelihood (st : statistics) (parents : list chromosome)
    (subpops : list (list chromosome)) (no_p D : nat) : outcome matrix :=
  for_fold (fun bl i =>
      p ← index parents i;
      sub ← index subpops (sf p);
      concatenate_gene ← np_array (map gene sub);
      mean ← np_mean0 st concatenate_gene;
      std ← np_std0 st concatenate_gene;
      for_fold (fun bl j =>
          s ← index std j;
          if Req_dec_T s 0 then mat_imul bl i j 1
          else
            g ← index (gene p) j;
            m ← index mean j;
            d ← norm_pdf st g m s;
            mat_imul bl i j d)
        (range D) bl)
    (range no_p) (np_ones no_p D).

(** *** The driver's state and monad *)

Section Driver.

Context {rand result : Type}.

(** The population's array, numpy's random state, and the calls made to the
    reporting callback so far. *)
Record state : Type := {
  pop : list chromosome;
  seed : rand;
  reported : list (list result)
}.

Definition M (A : Type) : Type := state -> outcome A * state.

Definition ret {A} (a : A) : M A := fun s => (Return a, s).

Definition bind {A B} (m : M A) (f : A -> M B) : M B := fun s =>
  match m s with
  | (Return a, s') => f a s'
  | (Raise e, s') => (Raise e, s')
  end.

(** A computation that touches neither the population nor the generator. *)
Definition lift {A} (o : outcome A) : M A := fun s => (o, s).

(** A draw from the generator, or a method that reads the population and
    draws. *)
Definition draw {A} (f : rand -> A * rand) : M A := fun s =>
  let (a, r) := f (seed s) in
  (Return a, {| pop := pop s; seed := r; reported := reported s |}).

Definition method {A} (f : list chromosome -> rand -> A * rand) : M A :=
  fun s => draw (f (pop s)) s.

(** A method that rewrites the population. *)
Definition rewrite_pop (f : list chromosome -> rand -> list chromosome * rand)
    : M unit := fun s =>
  let (p, r) := f (pop s) (seed s) in
  (Return tt, {| pop := p; seed := r; reported := reported s |}).

(** [population.pop[i]] and [population.pop[i] = c] *)
Definition pop_get (i : nat) : M chromosome := fun s => lift (index (pop s) i) s.

Definition pop_set (i : nat) (c : chromosome) : M unit := fun s =>
  match assign (pop s) i c with
  | Return p => (Return tt, {| pop := p; seed := seed s; reported := reported s |})
  | Raise e => (Raise e, s)
  end.

Definition report (results : list result) : M unit := fun s =>
  (Return tt, {| pop := pop s; seed := seed s;
                 reported := reported s ++ [results] |}).

End Driver.

Arguments state : clear implicits.
Arguments M : clear implicits.

Declare Scope driver_scope.
Delimit Scope driver_scope with driver.
Notation "x <- m ;; k" := (bind m (fun x => k))
  (at level 100, m at next level, right associativity) : driver_scope.
Notation "m ;; k" := (bind m (fun _ => k))
  (at level 100, right associativity) : driver_scope.

Section Loops.

Context {rand result : Type}.
Local Open Scope driver_scope.

(** [for x in l: body] *)
Fixpoint for_each {A} (l : list A) (body : A -> M rand result unit)
    : M rand result unit :=
  match l with
  | [] => ret tt
  | a :: l' => body a ;; for_each l' body
  end.

(** A [for] loop that also threads local variables. *)
Fixpoint for_foldM {A B} (f : B -> A -> M rand result B) (l : list A) (b : B)
    : M rand result B :=
  match l with
  | [] => ret b
  | a :: l' => b' <- f b a ;; for_foldM f l' b'
  end.

Fixpoint comprehensionM {A B} (f : A -> M rand result B) (l : list A)
    : M rand result (list B) :=
  match l with
  | [] => ret []
  | a :: l' => b <- f a ;; bs <- comprehensionM f l' ;; ret (b :: bs)
  end.

End Loops.

(** *** The driver (lines 9-142) *)

Section Engine.

Context {rand result : Type}.
Variable npr : np_random rand.
Variable population : Slgep_pop rand result.

Local Open Scope driver_scope.

(** [np.random.choice(a)]: the element at a random index. *)
Definition random_choice {A} (a : list A) : M rand result A :=
  match a with
  | [] => lift (Raise ValueError)
  | _ => i <- draw (random_randint npr (length a)) ;; lift (index a i)
  end.

Section Generation.

Variables (N no_par D : nat) (mr pmdi : R) (normal_beta : bool).
Variables (rmp_matrix : matrix) (subpops : list (list chromosome)).

(** Lines 87-90. *)
Definition same_skill_factor (parents : list chromosome) (no_p : nat)
    : outcome bool :=
  for_fold (fun same_sf i =>
      p ← index parents i;
      q ← index parents (i + 1);
      Return (if decide (sf p ≠ sf q) then false else same_sf))
    (range (no_p - 1)) true.

(** [cl[i] = population.mutate(cl[i], mr, ...)] *)
Definition mutate_child (cl : list chromosome) (i : nat) (pm : option R)
    : M rand result (list chromosome) :=
  c <- lift (index cl i) ;;
  c' <- method (fun pop => mutate population pop c mr pm) ;;
  lift (assign cl i c').

(** [cl[i].sf = s] *)
Definition assign_sf (cl : list chromosome) (i s : nat)
    : outcome (list chromosome) :=
  c ← index cl i; assign cl i (set_sf s c).

(** Lines 96-100: the children of parents of one skill factor. *)
Definition same_sf_children (parents : list chromosome) (bl : matrix)
    (no_p : nat) : M rand result (list chromosome) :=
  cl <- method (fun pop => crossover_mul population pop parents bl) ;;
  for_foldM (fun cl i =>
      cl <- mutate_child cl i (Some pmdi) ;;
      p0 <- lift (index parents 0) ;;
      lift (assign_sf cl i (sf p0)))
    (range no_p) cl.

(** Lines 106-113: the children of a cross-task crossover. *)
Definition cross_task_children (parents : list chromosome) (bl : matrix)
    (no_p : nat) : M rand result (list chromosome) :=
  cl <- method (fun pop =>
          crossover_mul_second population pop parents bl rmp_matrix) ;;
  for_foldM (fun cl i =>
      cl <- mutate_child cl i None ;;
      let sf_assign := map sf parents in
      s <- random_choice sf_assign ;;
      lift (assign_sf cl i s))
    (range no_p) cl.

(** Lines 116-122: the children of parent 0 and relatives of its task. *)
Definition relatives_children (parents : list chromosome) (bl : matrix)
    (no_p : nat) : M rand result (list chromosome) :=
  parents <- for_foldM (fun parents i =>
      p0 <- lift (index parents 0) ;;
      r <- method (fun pop => find_relative population pop (sf p0)) ;;
      lift (assign parents i r))
    (range2 1 no_p) parents ;;
  cl <- method (fun pop => crossover_mul population pop parents bl) ;;
  for_foldM (fun cl i =>
      cl <- mutate_child cl i None ;;
      p0 <- lift (index parents 0) ;;
      lift (assign_sf cl i (sf p0)))
    (range no_p) cl.

(** Lines 125-126. *)
Definition replace_with_children (k no_p : nat) (cl : list chromosome)
    : M rand result unit :=
  for_each (range no_p) (fun i =>
    c <- lift (index cl i) ;; pop_set (N + k + i) c).

(** The body of the pairing loop for the group that starts at [k]
    (lines 55-126).  In the branch of one skill factor the [for] loop over
    the children has no [break], so its [else] clause always runs and its
    [continue] ends the iteration: the children are not written back. *)
Definition pair_group (k : nat) : M rand result unit :=
  let no_p := Nat.min (N - k) no_par in
  parents <- comprehensionM (fun i => pop_get (k + i)) (range no_p) ;;
  bl <- (if normal_beta
         then draw (random_normal npr (7 / 10) (1 / 10) no_p D)
         else lift (beta_likelihood (numerics npr) parents subpops no_p D)) ;;
  rmps <- lift (comprehension (fun i =>
                    p0 ← index parents 0;
                    p ← index parents i;
                    mat_get rmp_matrix (sf p0) (sf p))
                  (range2 1 no_p)) ;;
  max_rmp <- lift (np_max rmps) ;;
  same_sf <- lift (same_skill_factor parents no_p) ;;
  if (same_sf : bool) then
    cl <- same_sf_children parents bl no_p ;;
    ret tt
  else
    u <- draw (random_rand npr) ;;
    cl <- (if Rlt_dec u max_rmp
           then cross_task_children parents bl no_p
           else relatives_children parents bl no_p) ;;
    replace_with_children k no_p cl.

(** Lines 54-126. *)
Definition pairing_loop : M rand result unit :=
  ks <- lift (range_step N no_par) ;;
  for_each ks pair_group.

End Generation.

(** One generation (lines 47-138).  The progress bar is left out. *)
Definition generation (envs : list env) (N no_par D : nat) (mr pmdi : R)
    (callback normal_beta : bool) (t : nat) : M rand result unit :=
  rewrite_pop (permute population) ;;
  subpops <- (fun s => ret (get_subpops population (pop s)) s) ;;
  rmp_matrix <- method (fun pop => learn_rmp population pop subpops) ;;
  pairing_loop N no_par D mr pmdi normal_beta rmp_matrix subpops ;;
  rewrite_pop (evaluate population envs) ;;
  rewrite_pop (fun pop r => (sort population pop, r)) ;;
  r01 <- lift (mat_get rmp_matrix 0 1) ;;
  let message := {| algorithm := "mfeaii_mp"; rmp := round1 r01 |} in
  results <- (fun s =>
      ret (get_optimization_results population (pop s) t message) s) ;;
  if callback then report results else ret tt.

(** [population = Slgep_pop(...)] *)
Definition construct (args : pop_args) : M rand result unit := fun s =>
  match new_pop population args (seed s) with
  | (Return p, r) =>
      (Return tt, {| pop := p; seed := r; reported := reported s |})
  | (Raise e, r) =>
      (Raise e, {| pop := pop s; seed := r; reported := reported s |})
  end.

Definition mfeaii_mgp (envs : list env) (cfg : config)
    (callback normal_beta : bool) : M rand result unit :=
  let K := length envs in
  let N := pop_size cfg * K in
  let T := num_iter cfg in
  let no_par := num_par cfg in
  let rmp_matrix := np_zeros K K in
  let mr := mutation_rate cfg in
  let sbxdi := sbxdi cfg in
  let pmdi := pmdi cfg in
  let pswap := pswap cfg in
  args <- lift (setup_args envs cfg) ;;
  construct args ;;
  p0 <- pop_get 0 ;;
  let D := D p0 in
  rewrite_pop (evaluate population envs) ;;
  rewrite_pop (fun pop r => (sort population pop, r)) ;;
  for_each (range T)
    (generation envs N no_par D mr pmdi callback normal_beta).

(** The call [mfeaii_mgp(envs, config, callback, normal_beta)] on a
    dictionary: a key that is absent raises [KeyError] at its line. *)
Definition mfeaii_mgp_on (envs : list env) (config : config_dict)
    (callback normal_beta : bool) : M rand result unit :=
  cfg <- lift (read_config config) ;;
  mfeaii_mgp envs cfg callback normal_beta.

End Engine.

End Mfeaii.

(** ** Specifications of driver computations *)

Section Specifications.

Import Mfeaii.
Context {rand result : Type}.

(** [yields m Q]: every value that [m] returns is in [Q]. *)
Definition yields {A} (m : M rand result A) (Q : A -> Prop) : Prop :=
  forall s a, fst (m s) = Return a -> Q a.

(** [total m Q]: [m] returns, from every state, a value in [Q]. *)
Definition total {A} (m : M rand result A) (Q : A -> Prop) : Prop :=
  forall s, exists a, fst (m s) = Return a /\ Q a.

(** [keeps R m]: whatever its outcome, [m] moves the state along [R]. *)
Definition keeps {A} (R : state rand result -> state rand result -> Prop)
    (m : M rand result A) : Prop :=
  forall s, R s (snd (m s)).

(** The population's slots outside [lo, hi) are the same, and there are as
    many slots. *)
Definition frame (lo hi : nat) (s s' : state rand result) : Prop :=
  length (pop s') = length (pop s) /\
  forall i, ~ (lo <= i < hi) -> pop s' !! i = pop s !! i.

Definition same_pop (s s' : state rand result) : Prop := pop s' = pop s.

(** The relations used with [keeps] are preorders that do not look at the
    random generator. *)
Record seed_blind (R : state rand result -> state rand result -> Prop)
    : Prop := {
  blind_refl : forall s, R s s;
  blind_trans : forall s1 s2 s3, R s1 s2 -> R s2 s3 -> R s1 s3;
  blind_seed : forall s r,
    R s {| pop := pop s; seed := r; reported := reported s |}
}.

(** [fails_keeping R m]: [m] always raises, having moved the state along
    [R]. *)
Definition fails_keeping {A} (R : state rand result -> state rand result -> Prop)
    (m : M rand result A) : Prop :=
  forall s, (exists e, fst (m s) = Raise e) /\ R s (snd (m s)).

Definition same_reported (s s' : state rand result) : Prop :=
  reported s' = reported s.

End Specifications.

(** ** Contracts of the collaborators *)

Section Contracts.

Import Mfeaii.
Context {rand result : Type}.

(** [np.random.randint]-style draws stay below their bound. *)
Definition randint_in_range (npr : np_random rand) : Prop :=
  forall n r, 0 < n -> fst (random_randint npr n r) < n.

(** A crossover gives as many children as it is given parents. *)
Definition crossover_second_keeps_count (population : Slgep_pop rand result)
    : Prop :=
  forall pop parents bl rmp r,
    length (fst (crossover_mul_second population pop parents bl rmp r))
    = length parents.

(** [learn_rmp] answers a K-by-K matrix. *)
Definition square (K : nat) (m : matrix) : Prop :=
  length m = K /\ Forall (fun row => length row = K) m.

(** The configuration with other values of [sbxdi] and [pswap]. *)
Definition with_sbxdi_pswap (x y : R) (c : config) : config := {|
  pop_size := pop_size c; num_iter := num_iter c; num_par := num_par c;
  mutation_rate := mutation_rate c; sbxdi := x; pmdi := pmdi c; pswap := y;
  max_arity := max_arity c; h_main := h_main c; h_adf := h_adf c
|}.

(** The dictionary in which every recognised key is bound, to the values of
    a configuration. *)
Definition dict_of (c : config) : config_dict := {|
  key_pop_size := Some (pop_size c); key_num_iter := Some (num_iter c);
  key_num_par := Some (num_par c);
  key_mutation_rate := Some (mutation_rate c); key_sbxdi := Some (sbxdi c);
  key_pmdi := Some (pmdi c); key_pswap := Some (pswap c);
  key_max_arity := Some (max_arity c); key_h_main := Some (h_main c);
  key_h_adf := Some (h_adf c)
|}.

(** The dictionary with [sbxdi] and [pswap] bound to other values. *)
Definition rebind_sbxdi_pswap (x y : R) (d : config_dict) : config_dict := {|
  key_pop_size := key_pop_size d; key_num_iter := key_num_iter d;
  key_num_par := key_num_par d; key_mutation_rate := key_mutation_rate d;
  key_sbxdi := Some x;
  key_pmdi := key_pmdi d;
  key_pswap := Some y;
  key_max_arity := key_max_arity d; key_h_main := key_h_main d;
  key_h_adf := key_h_adf d
|}.

Definition learn_rmp_square (population : Slgep_pop rand result) (K : nat)
    : Prop :=
  forall pop subpops r, square K (fst (learn_rmp population pop subpops r)).

(** The statistics of an array that has a row are answered, one entry per
    column. *)
Definition columnwise (st : statistics) : Prop :=
  forall (r : list R) (a : matrix),
    Forall (fun r' => length r' = length r) a ->
    (exists m, np_mean0 st (r :: a) = Return m /\ length m = length r) /\
    (exists d, np_std0 st (r :: a) = Return d /\ length d = length r).

(** [norm.pdf] answers where the scale is not zero. *)
Definition pdf_defined (st : statistics) : Prop :=
  forall x loc scale, scale <> 0%R -> exists d, norm_pdf st x loc scale = Return d.

(** The likelihood at position [j] of a parent: 1 where the standard
    deviation that numpy answered is 0, and otherwise what [norm.pdf]
    answers for the gene, the mean and the standard deviation. *)
Definition likelihood_at (st : statistics) (p : chromosome)
    (mean std : list R) (j : nat) (x : R) : Prop :=
  exists m d g,
    mean !! j = Some m /\ std !! j = Some d /\ gene p !! j = Some g /\
    (d = 0%R -> x = 1%R) /\
    (d <> 0%R -> norm_pdf st g m d = Return x).

(** Two platforms with the same means and standard deviations, and the same
    densities where the scale is not zero. *)
Definition agree_off_zero_scale (st st' : statistics) : Prop :=
  (forall a, np_mean0 st' a = np_mean0 st a) /\
  (forall a, np_std0 st' a = np_std0 st a) /\
  (forall x loc scale, scale <> 0%R ->
     norm_pdf st' x loc scale = norm_pdf st x loc scale).

End Contracts.

(** ** Configurations and environments of the examples *)

Module Examples.

Import Mfeaii.

(** The two environments of the repository: [doublepole_710] observes six
    numbers, [doublepole_710_v1] three; both have two actions. *)
Definition doublepole_710 : env := {| action_space_n := 2; reset_shape0 := 6 |}.
Definition doublepole_710_v1 : env := {| action_space_n := 2; reset_shape0 := 3 |}.

Definition cfg (pop_size num_iter num_par : nat) (sbxdi pswap : R) : config := {|
  pop_size := pop_size; num_iter := num_iter; num_par := num_par;
  mutation_rate := (1 / 10)%R; sbxdi := sbxdi; pmdi := 5%R; pswap := pswap;
  max_arity := 2; h_main := 4; h_adf := 3
|}.

Definition chrom (task : nat) (x : R) : chromosome :=
  {| gene := [x; 0%R]; sf := task; D := 2; fitness := 0%R |}.

(** Statistics in exact real arithmetic: an idealised platform, on which
    the standard deviation of equal numbers is 0.  numpy's binary64
    statistics need not agree with it. *)
Definition Rsum (xs : list R) : R := fold_right Rplus 0%R xs.

Definition column (a : matrix) (j : nat) : list R :=
  map (fun r => nth j r 0%R) a.

Definition mean_of (xs : list R) : R := (Rsum xs / INR (length xs))%R.

Definition std_of (xs : list R) : R :=
  sqrt (mean_of (map (fun x => Rsqr (x - mean_of xs)) xs)).

Definition normal_density (x loc scale : R) : R :=
  (Rtrigo_def.exp (- Rsqr ((x - loc) / scale) / 2) / sqrt (2 * PI) / scale)%R.

Definition exact_statistics : statistics := {|
  np_mean0 := fun a =>
    match a with
    | [] => Raise FloatingPointError
    | r :: _ => Return (map (fun j => mean_of (column a j)) (range (length r)))
    end;
  np_std0 := fun a =>
    match a with
    | [] => Raise FloatingPointError
    | r :: _ => Return (map (fun j => std_of (column a j)) (range (length r)))
    end;
  norm_pdf := fun x loc scale =>
    if Req_dec_T scale 0 then Raise FloatingPointError
    else Return (normal_density x loc scale)
|}.

(** A generator that always draws 0, and a population whose operators copy:
    crossover returns the parents, mutation the child it is given. *)
Definition fixed_random : np_random unit := {|
  random_normal := fun _ _ rows cols r =>
    (replicate rows (replicate cols (7 / 10)%R), r);
  random_rand := fun r => (0%R, r);
  random_randint := fun _ r => (0, r);
  numerics := exact_statistics
|}.

Definition copying_pop (K : nat) : Slgep_pop unit R := {|
  new_pop := fun args r =>
    (Return (map (fun i => chrom (i mod K) 0%R) (seq 0 (no_pop args))), r);
  evaluate := fun _ pop r => (pop, r);
  sort := fun pop => pop;
  permute := fun pop r => (pop, r);
  get_subpops := fun pop =>
    map (fun t => filter (fun c => sf c = t) pop) (seq 0 K);
  learn_rmp := fun _ _ r => (replicate K (replicate K 1%R), r);
  crossover_mul := fun _ parents _ r => (parents, r);
  crossover_mul_second := fun _ parents _ _ r => (parents, r);
  mutate := fun _ c _ _ r => (c, r);
  find_relative := fun _ t r => (chrom t 0%R, r);
  get_optimization_results := fun pop _ _ => map fitness (take K pop)
|}.

Definition start (pop : list chromosome) : state unit R :=
  {| pop := pop; seed := tt; reported := [] |}.

(** K = 2 and pop_size = 2: four current individuals, four offspring slots.
    The first group of two shares task 0. *)
Definition pop8 : list chromosome :=
  [chrom 0 1; chrom 0 2; chrom 1 3; chrom 1 4;
   chrom 0 0; chrom 0 0; chrom 1 0; chrom 1 0]%R.

(** K = 3 and pop_size = 1: with num_par = 2 the last group has one parent. *)
Definition pop6 : list chromosome :=
  [chrom 0 1; chrom 1 2; chrom 2 3; chrom 0 0; chrom 1 0; chrom 2 0]%R.

(** Two parents of different tasks. *)
Definition mixed4 : list chromosome :=
  [chrom 0 1; chrom 1 2; chrom 0 0; chrom 1 0]%R.

Definition ones (K : nat) : matrix := replicate K (replicate K 1%R).

End Examples.

(** ** A population that keeps a journal

    A population class that notes, in the state that stands for the random
    generator, the arguments of its constructor and of its operators.  Its
    individuals all belong to task 0. *)

Module Probes.

Import Mfeaii.

Inductive note : Type :=
| Constructed (args : pop_args)
| Permuted
| Crossed (parents : nat)
| Mutated (mr : R) (pm : option R).

Definition blank : chromosome :=
  {| gene := [0%R]; sf := 0; D := 1; fitness := 0%R |}.

Definition quiet_random : np_random (list note) := {|
  random_normal := fun _ _ rows cols r =>
    (replicate rows (replicate cols 1%R), r);
  random_rand := fun r => (0%R, r);
  random_randint := fun _ r => (0, r);
  numerics := Examples.exact_statistics
|}.

Definition noting_pop : Slgep_pop (list note) unit := {|
  new_pop := fun args r =>
    (Return (replicate (no_pop args) blank), r ++ [Constructed args]);
  evaluate := fun _ pop r => (pop, r);
  sort := fun pop => pop;
  permute := fun pop r => (pop, r ++ [Permuted]);
  get_subpops := fun pop => [pop; []];
  learn_rmp := fun _ _ r => (replicate 2 (replicate 2 1%R), r);
  crossover_mul := fun _ parents _ r => (parents, r ++ [Crossed (length parents)]);
  crossover_mul_second := fun _ parents _ _ r =>
    (parents, r ++ [Crossed (length parents)]);
  mutate := fun _ c mr pm r => (c, r ++ [Mutated mr pm]);
  find_relative := fun _ _ r => (blank, r);
  get_optimization_results := fun _ _ _ => []
|}.

(** A configuration by its options other than [sbxdi] and [pswap]. *)
Definition options (pop_size num_iter num_par : nat) (mr pmdi : R)
    (max_arity h_main h_adf : nat) : config := {|
  pop_size := pop_size; num_iter := num_iter; num_par := num_par;
  mutation_rate := mr; sbxdi := 2%R; pmdi := pmdi; pswap := (1 / 2)%R;
  max_arity := max_arity; h_main := h_main; h_adf := h_adf
|}.

(** The journal of a run on the repository's two environments, from an
    empty journal and no population. *)
Definition journal (c : config) : list note :=
  seed (snd (mfeaii_mgp_on quiet_random noting_pop
               [Examples.doublepole_710; Examples.doublepole_710_v1]
               (dict_of c) false true
               {| pop := []; seed := []; reported := [] |})).

End Probes.

(** ** The symbol tables of [function_set.py] (lines 95-104)

    Beside the table of primitives the module builds three tables of names:
    the ADFs, the formal parameters of an ADF, and the terminals.  Their rows
    are dictionaries of the same three keys; the ['func'] entry is no
    callable there. *)

Module SymbolTables.

(** The ['func'] entry of a row that is not a primitive: [None] for an ADF,
    the integer [0] for a parameter or a terminal. *)
Inductive placeholder : Type :=
| PyNone
| PyInt (z : Z).

Record symbol : Type := {
  name : string;
  func : placeholder;
  arity : nat
}.

(** ['%d' % i] for the [i] of a [range]: the decimal digits of [i]. *)
Definition format_d (i : nat) : string :=
  NilEmpty.string_of_uint (Nat.to_uint i).

Definition create_adfs_set (no_adf max_arity : nat) : list symbol :=
  map (fun i => {| name := String.append "ADF" (format_d i); func := PyNone;
                   arity := max_arity |})
      (range no_adf).

Definition create_adfs_terminal_set (max_arity : nat) : list symbol :=
  map (fun i => {| name := String.append "a" (format_d i); func := PyInt 0;
                   arity := 0 |})
      (range max_arity).

Definition create_terminal_set (no_terminal : nat) : list symbol :=
  map (fun i => {| name := String.append "x" (format_d i); func := PyInt 0;
                   arity := 0 |})
      (range no_terminal).

End SymbolTables.

(** ** Further specifications and contracts *)

Section Accounting.

Import Mfeaii.
Context {rand result : Type}.

(** [ensures m Q]: when [m] returns [a] from the state [s] and leaves the
    state [s'], then [Q s a s'] holds. *)
Definition ensures {A} (m : M rand result A)
    (Q : state rand result -> A -> state rand result -> Prop) : Prop :=
  forall s a s', m s = (Return a, s') -> Q s a s'.

(** [reports n m]: whatever its outcome, [m] keeps the reports made so far
    and adds at most [n] of them; exactly [n] when it returns. *)
Definition reports {A} (n : nat) (m : M rand result A) : Prop :=
  forall s, exists rs,
    reported (snd (m s)) = reported s ++ rs /\
    length rs <= n /\
    (forall a, fst (m s) = Return a -> length rs = n).

(** [crossover_mul] gives as many children as it is given parents. *)
Definition crossover_keeps_count (population : Slgep_pop rand result) : Prop :=
  forall pop parents bl r,
    length (fst (crossover_mul population pop parents bl r)) = length parents.

End Accounting.

(** ** Further examples *)

Module Scenarios.

(** A numpy that differs from [FunctionSet.quiet_numpy] only where the
    primitives never call it: it divides by zero without a flag, refuses
    [np.exp] from 88 on and refuses [np.log] below zero instead of at
    zero. *)
Definition strict_numpy : FunctionSet.numpy := {|
  FunctionSet.add_flag := fun _ _ => false;
  FunctionSet.subtract_flag := fun _ _ => false;
  FunctionSet.multiply_flag := fun _ _ => false;
  FunctionSet.divide_flag := fun _ _ => false;
  FunctionSet.np_sin := fun a => Return a;
  FunctionSet.np_cos := fun a => Return a;
  FunctionSet.np_exp := fun a =>
    if FunctionSet.ge88 a then Raise FloatingPointError else Return a;
  FunctionSet.np_log := fun a =>
    if SFltb a FunctionSet.zero then Raise FloatingPointError else Return a
|}.

End Scenarios.

(** ** The environments of [custom_gym/envs]

    The two double-pole environments, as far as their own code goes: the
    constructor's attributes, [reset], [step] and, for the second one,
    [_cal_acc].  [render], [close] and the observation space (a [Box] made
    for gym) are left out.

    A number is whatever Python computes with: an [int], a [float] or a
    numpy [float64].  The operators are Python's, which dispatch on the
    operands; whether an operation returns or raises (numpy under
    [np.seterr(all='raise')], [math.cos] of an infinity) is the platform's
    business and is left open. *)

Module Gym.

Import QArith.
Local Close Scope Q_scope.

(** An exception of the environment's code: a failed [assert], an exception
    of the interpreter's own operations on lists, tuples and calls, or an
    exception raised inside an arithmetic operation or a library function
    on numbers. *)
Inductive raised : Type :=
| AssertionError
| Builtin (e : exn)
| Numeric (e : exn).

Inductive answer (A : Type) : Type :=
| Ok (a : A)
| Err (e : raised).
Arguments Ok {A} a.
Arguments Err {A} e.

Global Instance answer_ret : MRet answer := fun _ a => Ok a.
Global Instance answer_bind : MBind answer := fun _ _ f o =>
  match o with
  | Ok a => f a
  | Err e => Err e
  end.

Definition builtin {A} (o : outcome A) : answer A :=
  match o with
  | Return a => Ok a
  | Raise e => Err (Builtin e)
  end.

Definition numeric {A} (o : outcome A) : answer A :=
  match o with
  | Return a => Ok a
  | Raise e => Err (Numeric e)
  end.

(** Python's arithmetic and the functions of [math] and numpy that the
    environments call. *)
Class arith (num : Type) : Type := {
  py_float : Q -> num;                 (* a float literal *)
  py_int : Z -> num;                   (* an int *)
  float64 : num -> num;                (* the entry of an array made of it *)
  math_pi : num;
  add : num -> num -> outcome num;
  sub : num -> num -> outcome num;
  mul : num -> num -> outcome num;
  truediv : num -> num -> outcome num;
  pow : num -> num -> outcome num;
  neg : num -> outcome num;
  lt : num -> num -> outcome bool;
  gt : num -> num -> outcome bool;
  math_cos : num -> outcome num;
  math_sin : num -> outcome num;
  np_sign : num -> outcome num;
  np_abs : list num -> outcome (list num);
  np_sum : list num -> outcome num;
  ndarray_add : list num -> list num -> outcome (list num);
  ndarray_rmul : num -> list num -> outcome (list num)
}.
(** numpy's arithmetic on arrays is elementwise: the sum of two arrays of one
    shape and the product of an array by a scalar have that shape. *)
Record elementwise (num : Type) `{arith num} : Prop := {
  ndarray_add_shape : forall a b c : list num,
    length a = length b -> ndarray_add a b = Return c -> length c = length a;
  ndarray_rmul_shape : forall (x : num) (a c : list num),
    ndarray_rmul x a = Return c -> length c = length a
}.

(** [self.np_random.uniform(low, high, size=(n,))] *)
Record generator (rand num : Type) : Type := {
  uniform : num -> num -> nat -> rand -> list num * rand
}.
Arguments uniform {rand num}.

(** It answers an array of the shape it is asked for. *)
Definition uniform_shape {rand num} (gen : generator rand num) : Prop :=
  forall low high n r, length (fst (uniform gen low high n r)) = n.

Section Python.

Context {num : Type} `{arith num}.

(** [np.array] of a list or a tuple of numbers, and [np.zeros((n,))]. *)
Definition np_array (l : list num) : list num := map float64 l.
Definition np_zeros (n : nat) : list num :=
  replicate n (float64 (py_float 0%Q)).

(** Expressions: the operands of an operator are evaluated from left to
    right. *)
Definition binop (op : num -> num -> outcome num) (a b : answer num)
    : answer num :=
  x ← a; y ← b; numeric (op x y).

Definition lit (q : Q) : answer num := Ok (py_float q).
Definition int (z : Z) : answer num := Ok (py_int z).
Definition var (x : num) : answer num := Ok x.
Definition uminus (a : answer num) : answer num := x ← a; numeric (neg x).

(** [a < b], [a > b], and [p or q] on their truth values. *)
Definition less (a b : answer num) : answer bool :=
  x ← a; y ← b; numeric (lt x y).
Definition greater (a b : answer num) : answer bool :=
  x ← a; y ← b; numeric (gt x y).
Definition or_else (p q : answer bool) : answer bool :=
  b ← p; if (b : bool) then Ok true else q.

(** [a, b, c = t] and its like: [None] is not iterable, and the number of
    values must be the number of targets. *)
Definition unpack3 (t : list num) : answer (num * num * num) :=
  match t with
  | [a; b; c] => Ok (a, b, c)
  | _ => Err (Builtin ValueError)
  end.

Definition unpack6 (t : list num)
    : answer (num * num * num * num * num * num) :=
  match t with
  | [a; b; c; d; e; f] => Ok (a, b, c, d, e, f)
  | _ => Err (Builtin ValueError)
  end.

Definition iterable (t : option (list num)) : answer (list num) :=
  match t with
  | Some l => Ok l
  | None => Err (Builtin TypeError)
  end.

(** [spaces.Discrete(n).contains(action)] for an [int]. *)
Definition contains (n : nat) (action : Z) : bool :=
  (0 <=? action)%Z && (action <? Z.of_nat n)%Z.

(** [l.pop(0)] *)
Definition pop0 {A} (l : list A) : answer (list A) :=
  match l with
  | [] => Err (Builtin IndexError)
  | _ :: l' => Ok l'
  end.

(** A [for] loop in the environment's code. *)
Fixpoint for_loop {A B} (f : B -> A -> answer B) (l : list A) (b : B)
    : answer B :=
  match l with
  | [] => Ok b
  | a :: l' => b' ← f b a; for_loop f l' b'
  end.

(** *** Arrays that are assigned to in place

    An array that the code writes into lives in a store and is known by its
    address, so that two names of one array see each other's writes. *)
Definition St (A : Type) : Type :=
  list (list num) -> answer (A * list (list num)).

Definition st_ret {A} (a : A) : St A := fun h => Ok (a, h).
Definition st_bind {A B} (m : St A) (f : A -> St B) : St B := fun h =>
  match m h with
  | Ok (a, h') => f a h'
  | Err e => Err e
  end.
Definition pure {A} (a : answer A) : St A := fun h =>
  match a with
  | Ok x => Ok (x, h)
  | Err e => Err e
  end.

(** A new array, the value of an array, and [k[i] = v], which stores [v] as
    an entry of the array. *)
Definition alloc (a : list num) : St nat := fun h => Ok (length h, h ++ [a]).
Definition load (k : nat) : St (list num) := fun h =>
  match h !! k with
  | Some a => Ok (a, h)
  | None => Err (Builtin IndexError)
  end.
Definition setitem (k i : nat) (v : num) : St unit := fun h =>
  match h !! k with
  | Some a =>
      if decide (i < length a) then Ok (tt, <[k := <[i := float64 v]> a]> h)
      else Err (Builtin IndexError)
  | None => Err (Builtin IndexError)
  end.

(** An answer that is not the [IndexError] of an index out of range. *)
Definition in_range {A} (o : answer A) : Prop :=
  o <> Err (Builtin IndexError).

(** What a block that starts with no array of its own returns. *)
Definition run {A} (m : St A) : answer A :=
  match m [] with
  | Ok (a, _) => Ok a
  | Err e => Err e
  end.

(** *** Methods

    What a method does for its caller, and the object after it: an
    exception leaves the assignments made before it. *)
Definition method (S A : Type) : Type := S -> answer A * S.

Definition andthen {S A B} (a : answer A) (self : S)
    (k : A -> answer B * S) : answer B * S :=
  match a with
  | Ok x => k x
  | Err e => (Err e, self)
  end.

(** Calls of [step] one after the other, whatever each one does, with
    what each call did for its caller. *)
Fixpoint episode {S A} (step : Z -> method S A) (actions : list Z) (self : S)
    : list (answer A) * S :=
  match actions with
  | [] => ([], self)
  | a :: actions' =>
      let '(r, self) := step a self in
      let '(rs, self) := episode step actions' self in
      (r :: rs, self)
  end.

(** The calls that returned [done = True]. *)
Definition said_done {O} (r : answer (O * num * bool)) : bool :=
  match r with
  | Ok (_, _, done) => done
  | Err _ => false
  end.

Definition dones {O} (rs : list (answer (O * num * bool))) : nat :=
  length (List.filter said_done rs).

End Python.

Declare Scope py_scope.
Delimit Scope py_scope with py.
Notation "a + b" := (binop add a b) : py_scope.
Notation "a - b" := (binop sub a b) : py_scope.
Notation "a * b" := (binop mul a b) : py_scope.
Notation "a / b" := (binop truediv a b) : py_scope.
Notation "a ** b" := (binop pow a b)
  (at level 30, right associativity) : py_scope.
Notation "x <- m ;; k" := (st_bind m (fun x => k))
  (at level 100, m at next level, right associativity) : py_scope.
Notation "m ;; k" := (st_bind m (fun _ => k))
  (at level 100, right associativity) : py_scope.

End Gym.

(** *** [doublepole_710_v1.py] *)

Module doublepole_710_v1.

Import QArith.
Local Close Scope Q_scope.
Import Gym.

Section Env.

Context {num rand : Type} `{arith num}.
Variable gen : generator rand num.

(** The attributes of a [DoublePole710v1]. *)
Record DoublePole710v1 : Type := {
  gravity : num;
  masscart : num;
  length_1 : num;
  masspole_1 : num;
  length_2 : num;
  masspole_2 : num;
  force_mag : num;
  tau : num;
  fric : num;
  cart_fric : num;
  kinematics_integrator : string;
  T : nat;
  cart_v : num;
  pole1_v : num;
  pole2_v : num;
  past_result : list (list num);
  theta_threshold_radians : num;
  x_threshold : num;
  action_space : nat;                  (* the [n] of [spaces.Discrete(n)] *)
  np_random : rand;
  state : option (list num);
  steps_beyond_done : option nat
}.

(** Assignments to the attributes that [reset] and [step] assign. *)
Definition set_T (v : nat) (self : DoublePole710v1) : DoublePole710v1 := {|
  gravity := gravity self; masscart := masscart self;
  length_1 := length_1 self; masspole_1 := masspole_1 self;
  length_2 := length_2 self; masspole_2 := masspole_2 self;
  force_mag := force_mag self; tau := tau self; fric := fric self;
  cart_fric := cart_fric self;
  kinematics_integrator := kinematics_integrator self;
  T := v;
  cart_v := cart_v self; pole1_v := pole1_v self; pole2_v := pole2_v self;
  past_result := past_result self;
  theta_threshold_radians := theta_threshold_radians self;
  x_threshold := x_threshold self; action_space := action_space self;
  np_random := np_random self; state := state self;
  steps_beyond_done := steps_beyond_done self
|}.

Definition set_velocities (cv p1 p2 : num) (self : DoublePole710v1)
    : DoublePole710v1 := {|
  gravity := gravity self; masscart := masscart self;
  length_1 := length_1 self; masspole_1 := masspole_1 self;
  length_2 := length_2 self; masspole_2 := masspole_2 self;
  force_mag := force_mag self; tau := tau self; fric := fric self;
  cart_fric := cart_fric self;
  kinematics_integrator := kinematics_integrator self;
  T := T self;
  cart_v := cv; pole1_v := p1; pole2_v := p2;
  past_result := past_result self;
  theta_threshold_radians := theta_threshold_radians self;
  x_threshold := x_threshold self; action_space := action_space self;
  np_random := np_random self; state := state self;
  steps_beyond_done := steps_beyond_done self
|}.

Definition set_past_result (v : list (list num)) (self : DoublePole710v1)
    : DoublePole710v1 := {|
  gravity := gravity self; masscart := masscart self;
  length_1 := length_1 self; masspole_1 := masspole_1 self;
  length_2 := length_2 self; masspole_2 := masspole_2 self;
  force_mag := force_mag self; tau := tau self; fric := fric self;
  cart_fric := cart_fric self;
  kinematics_integrator := kinematics_integrator self;
  T := T self;
  cart_v := cart_v self; pole1_v := pole1_v self; pole2_v := pole2_v self;
  past_result := v;
  theta_threshold_radians := theta_threshold_radians self;
  x_threshold := x_threshold self; action_space := action_space self;
  np_random := np_random self; state := state self;
  steps_beyond_done := steps_beyond_done self
|}.

Definition set_np_random (v : rand) (self : DoublePole710v1)
    : DoublePole710v1 := {|
  gravity := gravity self; masscart := masscart self;
  length_1 := length_1 self; masspole_1 := masspole_1 self;
  length_2 := length_2 self; masspole_2 := masspole_2 self;
  force_mag := force_mag self; tau := tau self; fric := fric self;
  cart_fric := cart_fric self;
  kinematics_integrator := kinematics_integrator self;
  T := T self;
  cart_v := cart_v self; pole1_v := pole1_v self; pole2_v := pole2_v self;
  past_result := past_result self;
  theta_threshold_radians := theta_threshold_radians self;
  x_threshold := x_threshold self; action_space := action_space self;
  np_random := v; state := state self;
  steps_beyond_done := steps_beyond_done self
|}.

Definition set_state (v : option (list num)) (self : DoublePole710v1)
    : DoublePole710v1 := {|
  gravity := gravity self; masscart := masscart self;
  length_1 := length_1 self; masspole_1 := masspole_1 self;
  length_2 := length_2 self; masspole_2 := masspole_2 self;
  force_mag := force_mag self; tau := tau self; fric := fric self;
  cart_fric := cart_fric self;
  kinematics_integrator := kinematics_integrator self;
  T := T self;
  cart_v := cart_v self; pole1_v := pole1_v self; pole2_v := pole2_v self;
  past_result := past_result self;
  theta_threshold_radians := theta_threshold_radians self;
  x_threshold := x_threshold self; action_space := action_space self;
  np_random := np_random self; state := v;
  steps_beyond_done := steps_beyond_done self
|}.

Definition set_steps_beyond_done (v : option nat) (self : DoublePole710v1)
    : DoublePole710v1 := {|
  gravity := gravity self; masscart := masscart self;
  length_1 := length_1 self; masspole_1 := masspole_1 self;
  length_2 := length_2 self; masspole_2 := masspole_2 self;
  force_mag := force_mag self; tau := tau self; fric := fric self;
  cart_fric := cart_fric self;
  kinematics_integrator := kinematics_integrator self;
  T := T self;
  cart_v := cart_v self; pole1_v := pole1_v self; pole2_v := pole2_v self;
  past_result := past_result self;
  theta_threshold_radians := theta_threshold_radians self;
  x_threshold := x_threshold self; action_space := action_space self;
  np_random := np_random self; state := state self;
  steps_beyond_done := v
|}.

Local Open Scope py_scope.

(** [__init__] (lines 55-105).  [self.seed()] installs a generator, here the
    one the constructor is given. *)
Definition __init__ (seed : rand) : answer DoublePole710v1 :=
  threshold ← int 12 * int 2 * var math_pi / int 360;
  Ok {| gravity := py_float 9.8%Q;
        masscart := py_float 1.0%Q;
        length_1 := py_int 1;
        masspole_1 := py_float 0.1%Q;
        length_2 := py_float 0.7%Q;
        masspole_2 := py_float 0.05%Q;
        force_mag := py_float 10.0%Q;
        tau := py_float 0.01%Q;
        fric := py_int 0;
        cart_fric := py_int 0;
        kinematics_integrator := "RK4";
        T := 0;
        cart_v := py_int 0;
        pole1_v := py_int 0;
        pole2_v := py_int 0;
        past_result := [];
        theta_threshold_radians := threshold;
        x_threshold := py_float 2.4%Q;
        action_space := 2;
        np_random := seed;
        state := None;
        steps_beyond_done := None |}.

(** [_cal_acc] (lines 111-145) *)
Definition _cal_acc (self : DoublePole710v1) (force : num) (state : list num)
    : answer (list num) :=
  '(x, xd, theta1, theta1d, theta2, theta2d) ← unpack6 state;
  costheta_1 ← numeric (math_cos theta1);
  sintheta_1 ← numeric (math_sin theta1);
  polemass_length_1 ← var (length_1 self) * var (masspole_1 self);
  costheta_2 ← numeric (math_cos theta2);
  sintheta_2 ← numeric (math_sin theta2);
  polemass_length_2 ← var (length_2 self) * var (masspole_2 self);
  fric1 ← (var (fric self) * var theta1) / var polemass_length_1;
  fric2 ← (var (fric self) * var theta2) / var polemass_length_2;
  f1 ← var polemass_length_1 * (var theta1d ** int 2) * var sintheta_1
       + lit 0.75%Q * var (masspole_1 self) * var costheta_1
         * (var fric1 + var (gravity self) * var sintheta_1);
  f2 ← var polemass_length_2 * var theta2d ** int 2 * var sintheta_2
       + lit 0.75%Q * var (masspole_2 self) * var costheta_2
         * (var fric2 + var (gravity self) * var sintheta_2);
  em1 ← var (masspole_1 self) * (int 1 - lit 0.75%Q * var costheta_1 ** int 2);
  em2 ← var (masspole_2 self) * (int 1 - lit 0.75%Q * var costheta_2 ** int 2);
  F ← var force + var f1 + var f2
      - var (cart_fric self) * numeric (np_sign xd);
  total_mass ← var (masscart self) + var em1 + var em2;
  ca ← var F / var total_mass;
  pa1 ← lit (-0.75)%Q
        * (var ca * var costheta_1 + var (gravity self) * var sintheta_1)
        / var (length_1 self);
  pa2 ← lit (-0.75)%Q
        * (var ca * var costheta_2 + var (gravity self) * var sintheta_2)
        / var (length_2 self);
  Ok [ca; pa1; pa2].

(** One stage of lines 177-198 on the array [k] and the state [y]:
    [k[1], k[3], k[5] = self._cal_acc(force, y)], then [k[0] = y[1]],
    [k[2] = y[3]] and [k[4] = y[5]]. *)
Definition stage (self : DoublePole710v1) (force : num) (k : nat)
    (y : list num) : St unit :=
  acc <- pure (_cal_acc self force y) ;;
  abc <- pure (unpack3 acc) ;;
  let '(a, b, c) := abc in
  setitem k 1 a ;;
  setitem k 3 b ;;
  setitem k 5 c ;;
  v <- pure (builtin (index y 1)) ;;
  setitem k 0 v ;;
  v <- pure (builtin (index y 3)) ;;
  setitem k 2 v ;;
  v <- pure (builtin (index y 5)) ;;
  setitem k 4 v.

(** Lines 176-200, with the arrays known as [k1], [k2], [k3] and [k4]. *)
Definition stages (self : DoublePole710v1) (force : num) (k1 k2 k3 k4 : nat)
    (h h2 h6 : num) (s : list num) : St (list num) :=
  stage self force k1 s ;;
  a <- load k1 ;;
  t <- pure (numeric (ndarray_rmul h2 a)) ;;
  ns <- pure (numeric (ndarray_add s t)) ;;
  stage self force k2 ns ;;
  a <- load k2 ;;
  t <- pure (numeric (ndarray_rmul h2 a)) ;;
  nns <- pure (numeric (ndarray_add s t)) ;;
  stage self force k3 nns ;;
  a <- load k3 ;;
  t <- pure (numeric (ndarray_rmul h a)) ;;
  nnns <- pure (numeric (ndarray_add s t)) ;;
  stage self force k4 nnns ;;
  a1 <- load k1 ;;
  a2 <- load k2 ;;
  a3 <- load k3 ;;
  t <- pure (numeric (ndarray_add a2 a3)) ;;
  t <- pure (numeric (ndarray_rmul (py_int 2) t)) ;;
  t <- pure (numeric (ndarray_add a1 t)) ;;
  a4 <- load k4 ;;
  t <- pure (numeric (ndarray_add t a4)) ;;
  t <- pure (numeric (ndarray_rmul h6 t)) ;;
  pure (numeric (ndarray_add s t)).

(** Lines 171-173: [h], [h2] and [h6]. *)
Definition step_sizes : answer (num * num * num) :=
  h ← lit 0.01%Q;
  h2 ← var h / int 2;
  h6 ← var h / int 6;
  Ok (h, h2, h6).

(** The [else] branch of lines 170-202: [k1 = k2 = k3 = k4 = np.zeros((6, ))]
    gives one array four names. *)
Definition integrate (self : DoublePole710v1) (force : num)
    (x xd theta1 theta1d theta2 theta2d : num) : answer (list num) :=
  '(h, h2, h6) ← step_sizes;
  run (k <- alloc (np_zeros 6) ;;
       let k1 := k in
       let k2 := k in
       let k3 := k in
       let k4 := k in
       let s := np_array [x; xd; theta1; theta1d; theta2; theta2d] in
       stages self force k1 k2 k3 k4 h h2 h6 s).

(** The same statements with an array of its own for each name, as
    [k1, k2, k3, k4 = np.zeros((4, 6))] would give: not the source's
    program, for comparison with it. *)
Definition integrate_with_four_arrays (self : DoublePole710v1) (force : num)
    (x xd theta1 theta1d theta2 theta2d : num) : answer (list num) :=
  '(h, h2, h6) ← step_sizes;
  run (k1 <- alloc (np_zeros 6) ;;
       k2 <- alloc (np_zeros 6) ;;
       k3 <- alloc (np_zeros 6) ;;
       k4 <- alloc (np_zeros 6) ;;
       let s := np_array [x; xd; theta1; theta1d; theta2; theta2d] in
       stages self force k1 k2 k3 k4 h h2 h6 s).

(** What a stage leaves in its array: the slope at [y]. *)
Definition slope (self : DoublePole710v1) (force : num) (y : list num)
    : answer (list num) :=
  acc ← _cal_acc self force y;
  '(a, b, c) ← unpack3 acc;
  v1 ← builtin (index y 1);
  v3 ← builtin (index y 3);
  v5 ← builtin (index y 5);
  Ok [float64 v1; float64 a; float64 v3; float64 b; float64 v5; float64 c].

(** The slopes that the four stages compute one after the other, and the
    expression of line 200 on four arrays, as functions of values. *)
Definition slopes (self : DoublePole710v1) (force h h2 : num) (s : list num)
    : answer (list num * list num * list num * list num) :=
  K1 ← slope self force s;
  t ← numeric (ndarray_rmul h2 K1);
  ns ← numeric (ndarray_add s t);
  K2 ← slope self force ns;
  t ← numeric (ndarray_rmul h2 K2);
  nns ← numeric (ndarray_add s t);
  K3 ← slope self force nns;
  t ← numeric (ndarray_rmul h K3);
  nnns ← numeric (ndarray_add s t);
  K4 ← slope self force nnns;
  Ok (K1, K2, K3, K4).

Definition combination (h6 : num) (s a1 a2 a3 a4 : list num)
    : answer (list num) :=
  t ← numeric (ndarray_add a2 a3);
  t ← numeric (ndarray_rmul (py_int 2) t);
  t ← numeric (ndarray_add a1 t);
  t ← numeric (ndarray_add t a4);
  t ← numeric (ndarray_rmul h6 t);
  numeric (ndarray_add s t).

(** Lines 209-216: [f2] and the list that [self.past_result] is after
    them. *)
Definition window (self : DoublePole710v1) : answer (num * list (list num)) :=
  let f2 := py_int 0 in
  if 100 <=? T self then
    let vp := py_int 0 in
    vp ← for_loop (fun vp i =>
             row ← builtin (index (past_result self) i);
             a ← numeric (np_abs row);
             var vp + numeric (np_sum a))
           (range 100) vp;
    f2 ← lit 0.75%Q / var vp;
    rest ← pop0 (past_result self);
    Ok (f2, rest)
  else Ok (f2, past_result self).

(** Lines 218-225 *)
Definition fallen (self : DoublePole710v1) (new_x new_theta_1 new_theta_2 : num)
    : answer bool :=
  or_else (less (var new_x) (uminus (var (x_threshold self))))
  (or_else (greater (var new_x) (var (x_threshold self)))
  (or_else (less (var new_theta_1) (uminus (var (theta_threshold_radians self))))
  (or_else (greater (var new_theta_1) (var (theta_threshold_radians self)))
  (or_else (less (var new_theta_2) (uminus (var (theta_threshold_radians self))))
           (greater (var new_theta_2) (var (theta_threshold_radians self))))))).

(** Lines 227-242: the reward and the attribute [steps_beyond_done] after
    them.  The warning of the logger is not modelled. *)
Definition reward_of (self : DoublePole710v1) (done : bool) (f1 f2 : num)
    : answer (num * option nat) :=
  if negb done then
    reward ← lit 0.1%Q * var f1 + lit 0.9%Q * var f2;
    Ok (reward, steps_beyond_done self)
  else
    match steps_beyond_done self with
    | None => Ok (py_float 1.0%Q, Some 0)
    | Some n => Ok (py_float 0.0%Q, Some (S n))
    end.

(** [step] (lines 147-244).  The empty [info] dictionary of the result is
    left out. *)
Definition step (action : Z)
    : method DoublePole710v1 (list num * num * bool) := fun self =>
  let self := set_T (S (T self)) self in
  if negb (contains (action_space self) action)
  then (Err AssertionError, self) else
  andthen (t ← iterable (state self); unpack3 t) self (fun '(x, theta1, theta2) =>
  let xd := cart_v self in
  let theta1d := pole1_v self in
  let theta2d := pole2_v self in
  let self :=
    set_past_result (past_result self ++ [[x; xd; theta1; theta1d]]) self in
  andthen (if (action =? 1)%Z then var (force_mag self)
       else uminus (var (force_mag self))) self (fun force =>
  andthen (if String.eqb (kinematics_integrator self) "euler"
       then
         let s := np_array [x; xd; theta1; theta1d; theta2; theta2d] in
         Err (Builtin TypeError)
       else
         next_state ← integrate self force x xd theta1 theta1d theta2 theta2d;
         unpack6 next_state) self
      (fun '(new_x, new_x_dot, new_theta_1, new_theta_1_dot,
             new_theta_2, new_theta_2_dot) =>
  let self := set_velocities new_x_dot new_theta_1_dot new_theta_2_dot self in
  let self := set_state (Some [new_x; new_theta_1; new_theta_2]) self in
  andthen (int (Z.of_nat (T self)) / int 1000) self (fun f1 =>
  andthen (window self) self (fun '(f2, rest) =>
  let self := set_past_result rest self in
  andthen (fallen self new_x new_theta_1 new_theta_2) self (fun done =>
  andthen (reward_of self done f1 f2) self (fun '(reward, beyond) =>
  let self := set_steps_beyond_done beyond self in
  (Ok (np_array [new_x; new_theta_1; new_theta_2], reward, done),
   self)))))))).

(** Between two calls of [step] after a [reset]: the state is a triple and
    [past_result] has an entry per step and one of [reset], up to the
    window of 100. *)
Definition between_steps (self : DoublePole710v1) : Prop :=
  (exists a b c, state self = Some [a; b; c]) /\
  (T self < 100 -> length (past_result self) = S (T self)) /\
  (100 <= T self -> 100 <= length (past_result self)).

(** [reset] (lines 246-256) *)
Definition reset : method DoublePole710v1 (list num) := fun self =>
  let '(a, r) := uniform gen (py_float (-0.05)%Q) (py_float 0.05%Q) 3
                   (np_random self) in
  let self := set_state (Some a) (set_np_random r self) in
  let self := set_T 0 self in
  let '(b, r) := uniform gen (py_float (-0.05)%Q) (py_float 0.05%Q) 3
                   (np_random self) in
  let self := set_np_random r self in
  andthen (unpack3 b) self (fun '(cv, p1, p2) =>
  let self := set_velocities cv p1 p2 self in
  andthen (s0 ← builtin (index a 0); s1 ← builtin (index a 1); Ok (s0, s1)) self
      (fun '(s0, s1) =>
  let self :=
    set_past_result [[s0; cart_v self; s1; pole1_v self]] self in
  let self := set_steps_beyond_done None self in
  (Ok (np_array a), self))).

(** What [mfeaii_mgp] reads of the environment at setup:
    [action_space.n] and [reset().shape[0]]. *)
Definition observed (self : DoublePole710v1) : answer Mfeaii.env :=
  obs ← fst (reset self);
  Ok {| Mfeaii.action_space_n := action_space self;
        Mfeaii.reset_shape0 := length obs |}.

End Env.

End doublepole_710_v1.

(** *** [doublepole_710.py] *)

Module doublepole_710.

Import QArith.
Local Close Scope Q_scope.
Import Gym.

Section Env.

Context {num rand : Type} `{arith num}.
Variable gen : generator rand num.

Local Open Scope py_scope.

(** [runge_kutta4] (lines 8-27), as [step] calls it: on a number [y], a
    function [fy] of the module and a number [h]. *)
Definition runge_kutta4 (y : num) (fy : num -> answer num) (h : num)
    : answer num :=
  k1 ← fy y;
  y1 ← var y + var k1 * var h / int 2;
  k2 ← fy y1;
  y2 ← var y + var k2 * var h / int 2;
  k3 ← fy y2;
  y3 ← var y + var k3 * var h;
  k4 ← fy y3;
  var y + (var k1 + int 2 * var k2 + int 2 * var k3 + var k4) * var h / int 6.

(** The attributes of a [DoublePole710] that its methods read or assign. *)
Record DoublePole710 : Type := {
  gravity : num;
  masscart : num;
  length_1 : num;
  masspole_1 : num;
  length_2 : num;
  masspole_2 : num;
  force_mag : num;
  tau : num;
  time : num;
  xacc : num;
  theta_threshold_radians : num;
  x_threshold : num;
  action_space : nat;                   (* [spaces.Discrete(n)] *)
  np_random : rand;
  state : option (list num);            (* [None], a tuple or an array *)
  steps_beyond_done : option nat
}.

Definition set_time (v : num) (self : DoublePole710) : DoublePole710 := {|
  gravity := gravity self; masscart := masscart self;
  length_1 := length_1 self; masspole_1 := masspole_1 self;
  length_2 := length_2 self; masspole_2 := masspole_2 self;
  force_mag := force_mag self; tau := tau self;
  time := v;
  xacc := xacc self;
  theta_threshold_radians := theta_threshold_radians self;
  x_threshold := x_threshold self;
  action_space := action_space self; np_random := np_random self;
  state := state self; steps_beyond_done := steps_beyond_done self
|}.

Definition set_xacc (v : num) (self : DoublePole710) : DoublePole710 := {|
  gravity := gravity self; masscart := masscart self;
  length_1 := length_1 self; masspole_1 := masspole_1 self;
  length_2 := length_2 self; masspole_2 := masspole_2 self;
  force_mag := force_mag self; tau := tau self;
  time := time self;
  xacc := v;
  theta_threshold_radians := theta_threshold_radians self;
  x_threshold := x_threshold self;
  action_space := action_space self; np_random := np_random self;
  state := state self; steps_beyond_done := steps_beyond_done self
|}.

Definition set_np_random (v : rand) (self : DoublePole710) : DoublePole710 := {|
  gravity := gravity self; masscart := masscart self;
  length_1 := length_1 self; masspole_1 := masspole_1 self;
  length_2 := length_2 self; masspole_2 := masspole_2 self;
  force_mag := force_mag self; tau := tau self;
  time := time self; xacc := xacc self;
  theta_threshold_radians := theta_threshold_radians self;
  x_threshold := x_threshold self;
  action_space := action_space self;
  np_random := v;
  state := state self; steps_beyond_done := steps_beyond_done self
|}.

Definition set_state (v : option (list num)) (self : DoublePole710)
    : DoublePole710 := {|
  gravity := gravity self; masscart := masscart self;
  length_1 := length_1 self; masspole_1 := masspole_1 self;
  length_2 := length_2 self; masspole_2 := masspole_2 self;
  force_mag := force_mag self; tau := tau self;
  time := time self; xacc := xacc self;
  theta_threshold_radians := theta_threshold_radians self;
  x_threshold := x_threshold self;
  action_space := action_space self; np_random := np_random self;
  state := v;
  steps_beyond_done := steps_beyond_done self
|}.

Definition set_steps_beyond_done (v : option nat) (self : DoublePole710)
    : DoublePole710 := {|
  gravity := gravity self; masscart := masscart self;
  length_1 := length_1 self; masspole_1 := masspole_1 self;
  length_2 := length_2 self; masspole_2 := masspole_2 self;
  force_mag := force_mag self; tau := tau self;
  time := time self; xacc := xacc self;
  theta_threshold_radians := theta_threshold_radians self;
  x_threshold := x_threshold self;
  action_space := action_space self; np_random := np_random self;
  state := state self;
  steps_beyond_done := v
|}.

(** [__init__] (lines 77-126).  [self.seed()] installs a generator, here the
    one the constructor is given. *)
Definition __init__ (seed : rand) : answer DoublePole710 :=
  threshold ← int 12 * int 2 * var math_pi / int 360;
  Ok {| gravity := py_float 9.8%Q;
        masscart := py_float 1.0%Q;
        length_1 := py_float 0.35%Q;
        masspole_1 := py_float 0.1%Q;
        length_2 := py_float 0.5%Q;
        masspole_2 := py_float 0.1%Q;
        force_mag := py_float 10.0%Q;
        tau := py_float 0.02%Q;
        time := py_int 0;
        xacc := py_int 0;
        theta_threshold_radians := threshold;
        x_threshold := py_float 2.4%Q;
        action_space := 2;
        np_random := seed;
        state := None;
        steps_beyond_done := None |}.

(** The locals of [step] that its three inner functions read. *)
Record locals : Type := {
  force : num;
  theta_1_dot : num;
  theta_2_dot : num;
  costheta_1 : num;
  sintheta_1 : num;
  polemass_length_1 : num;
  costheta_2 : num;
  sintheta_2 : num;
  polemass_length_2 : num;
  xdd : num
}.

(** [cart_acc] (lines 149-165), [pole_acc_1] (167-170) and [pole_acc_2]
    (172-175): closures of [step] over [self] and its locals. *)
Definition cart_acc (self : DoublePole710) (l : locals) (vc : num)
    : answer num :=
  f1 ← var (polemass_length_1 l) * var (theta_1_dot l) ** int 2
         * var (sintheta_1 l)
       + (int 3 / int 4) * var (masspole_1 self) * var (costheta_1 l)
         * (var (gravity self) * numeric (math_sin (theta_1_dot l)));
  f2 ← var (polemass_length_2 l) * var (theta_2_dot l) ** int 2
         * var (sintheta_2 l)
       + (int 3 / int 4) * var (masspole_2 self) * var (costheta_2 l)
         * (var (gravity self) * numeric (math_sin (theta_2_dot l)));
  em1 ← var (masspole_1 self)
        * (int 1 - lit 0.75%Q * var (costheta_1 l) ** int 2);
  em2 ← var (masspole_2 self)
        * (int 1 - lit 0.75%Q * var (costheta_2 l) ** int 2);
  F ← var (force l) + var f1 + var f2;
  total_mass ← var (masscart self) + var em1 + var em2;
  var F / var total_mass.

Definition pole_acc_1 (self : DoublePole710) (l : locals) (vp1 : num)
    : answer num :=
  (uminus (int 3) / int 4) * (int 1 / var (length_1 self))
  * (var (xdd l) * var (costheta_1 l)
     + var (gravity self) * var (sintheta_1 l)).

Definition pole_acc_2 (self : DoublePole710) (l : locals) (vp2 : num)
    : answer num :=
  (uminus (int 3) / int 4) * (int 1 / var (length_2 self))
  * (var (xdd l) * var (costheta_2 l)
     + var (gravity self) * var (sintheta_2 l)).

(** Lines 138-147: the locals, from the state and the action's force. *)
Definition prepare (self : DoublePole710) (force theta_1 theta_1_dot
    theta_2 theta_2_dot : num) : answer locals :=
  costheta_1 ← numeric (math_cos theta_1);
  sintheta_1 ← numeric (math_sin theta_1);
  polemass_length_1 ← var (length_1 self) * var (masspole_1 self);
  costheta_2 ← numeric (math_cos theta_2);
  sintheta_2 ← numeric (math_sin theta_2);
  polemass_length_2 ← var (length_1 self) * var (masspole_1 self);
  Ok {| force := force; theta_1_dot := theta_1_dot;
        theta_2_dot := theta_2_dot;
        costheta_1 := costheta_1; sintheta_1 := sintheta_1;
        polemass_length_1 := polemass_length_1;
        costheta_2 := costheta_2; sintheta_2 := sintheta_2;
        polemass_length_2 := polemass_length_2;
        xdd := xacc self |}.

(** Lines 177-186: the six entries of the new state and the new
    [self.xacc]. *)
Definition advance (self : DoublePole710) (l : locals)
    (x x_dot theta_1 theta_2 : num)
    : answer (num * num * num * num * num * num * num) :=
  new_x_dot ← runge_kutta4 x_dot (cart_acc self l) (time self);
  new_x ← var x + var (tau self) * var x_dot;
  new_theta_1_dot ←
    runge_kutta4 (theta_1_dot l) (pole_acc_1 self l) (time self);
  new_theta_1 ← var theta_1 + var (tau self) * var (theta_1_dot l);
  new_theta_2_dot ←
    runge_kutta4 (theta_2_dot l) (pole_acc_2 self l) (time self);
  new_theta_2 ← var theta_2 + var (tau self) * var (theta_2_dot l);
  acc ← cart_acc self l new_x_dot;
  Ok (new_x, new_x_dot, new_theta_1, new_theta_1_dot,
      new_theta_2, new_theta_2_dot, acc).

(** Lines 191-198 *)
Definition fallen (self : DoublePole710) (new_x new_theta_1 new_theta_2 : num)
    : answer bool :=
  or_else (less (var new_x) (uminus (var (x_threshold self))))
  (or_else (greater (var new_x) (var (x_threshold self)))
  (or_else (less (var new_theta_1) (uminus (var (theta_threshold_radians self))))
  (or_else (greater (var new_theta_1) (var (theta_threshold_radians self)))
  (or_else (less (var new_theta_2) (uminus (var (theta_threshold_radians self))))
           (greater (var new_theta_2) (var (theta_threshold_radians self))))))).

(** Lines 200-215: the reward and the attribute [steps_beyond_done] after
    them.  The warning of the logger is not modelled. *)
Definition reward_of (self : DoublePole710) (done : bool)
    : num * option nat :=
  if negb done then (py_float 1.0%Q, steps_beyond_done self)
  else
    match steps_beyond_done self with
    | None => (py_float 1.0%Q, Some 0)
    | Some n => (py_float 0.0%Q, Some (S n))
    end.

(** [step] (lines 132-217).  The empty [info] dictionary of the result is
    left out. *)
Definition step (action : Z)
    : method DoublePole710 (list num * num * bool) := fun self =>
  andthen (var (time self) + var (tau self)) self (fun t =>
  let self := set_time t self in
  if negb (contains (action_space self) action)
  then (Err AssertionError, self) else
  andthen (t ← iterable (state self); unpack6 t) self
      (fun '(x, x_dot, theta_1, theta_1_dot, theta_2, theta_2_dot) =>
  andthen (force ← (if (action =? 1)%Z then var (force_mag self)
                    else uminus (var (force_mag self)));
           l ← prepare self force theta_1 theta_1_dot theta_2 theta_2_dot;
           advance self l x x_dot theta_1 theta_2) self
      (fun '(new_x, new_x_dot, new_theta_1, new_theta_1_dot,
             new_theta_2, new_theta_2_dot, acc) =>
  let self := set_xacc acc self in
  let self :=
    set_state (Some [new_x; new_x_dot; new_theta_1; new_theta_1_dot;
                     new_theta_2; new_theta_2_dot]) self in
  andthen (fallen self new_x new_theta_1 new_theta_2) self (fun done =>
  let '(reward, beyond) := reward_of self done in
  let self := set_steps_beyond_done beyond self in
  (Ok (np_array [new_x; new_x_dot; new_theta_1; new_theta_1_dot;
                 new_theta_2; new_theta_2_dot], reward, done),
   self))))).

(** [reset] (lines 219-224) *)
Definition reset : method DoublePole710 (list num) := fun self =>
  let '(a, r) := uniform gen (py_float (-0.05)%Q) (py_float 0.05%Q) 6
                   (np_random self) in
  let self := set_state (Some a) (set_np_random r self) in
  let self := set_xacc (py_int 0) self in
  let self := set_time (py_int 0) self in
  let self := set_steps_beyond_done None self in
  (Ok (np_array a), self).

(** Between two calls of [step] after a [reset]: the state has six
    entries. *)
Definition between_steps (self : DoublePole710) : Prop :=
  exists t, state self = Some t /\ length t = 6.

(** What [mfeaii_mgp] reads of the environment at setup:
    [action_space.n] and [reset().shape[0]]. *)
Definition observed (self : DoublePole710) : answer Mfeaii.env :=
  obs ← fst (reset self);
  Ok {| Mfeaii.action_space_n := action_space self;
        Mfeaii.reset_shape0 := length obs |}.

(** The environment with another half-length of the second pole. *)
Definition with_length_2 (v : num) (self : DoublePole710) : DoublePole710 := {|
  gravity := gravity self; masscart := masscart self;
  length_1 := length_1 self; masspole_1 := masspole_1 self;
  length_2 := v;
  masspole_2 := masspole_2 self;
  force_mag := force_mag self; tau := tau self;
  time := time self; xacc := xacc self;
  theta_threshold_radians := theta_threshold_radians self;
  x_threshold := x_threshold self;
  action_space := action_space self; np_random := np_random self;
  state := state self; steps_beyond_done := steps_beyond_done self
|}.

End Env.

End doublepole_710.

(** *** A platform for the environments

    Numbers as exact rationals, on which nothing overflows and only a
    division by zero raises (as numpy's does under
    [np.seterr(all='raise')]); [math.cos] and [math.sin] by their
    small-angle values; and a generator that answers the middle of the
    interval. *)

Module PoleScenarios.

Import QArith.
Local Close Scope Q_scope.
Import Gym.

Global Instance rational : arith Q := {|
  py_float := fun q => q;
  py_int := inject_Z;
  float64 := fun x => x;
  math_pi := 3.14159%Q;
  add := fun x y => Return (Qred (x + y));
  sub := fun x y => Return (Qred (x - y));
  mul := fun x y => Return (Qred (x * y));
  truediv := fun x y =>
    if Qeq_bool y 0 then Raise FloatingPointError else Return (Qred (x / y));
  pow := fun x y => Return (Qred (Qpower x (Qnum y)));
  neg := fun x => Return (Qopp x);
  lt := fun x y => Return (negb (Qle_bool y x));
  gt := fun x y => Return (negb (Qle_bool x y));
  math_cos := fun _ => Return 1%Q;
  math_sin := fun x => Return x;
  np_sign := fun x => Return (inject_Z (Z.sgn (Qnum x)));
  np_abs := fun a =>
    Return (map (fun x => if Qle_bool 0 x then x else Qopp x) a);
  np_sum := fun a => Return (fold_left Qplus a 0%Q);
  ndarray_add := fun a b =>
    if length a =? length b then Return (zip_with Qplus a b)
    else Raise ValueError;
  ndarray_rmul := fun x a => Return (map (Qmult x) a)
|}.

Definition midpoint : generator unit Q := {|
  uniform := fun low high n r => (replicate n ((low + high) / 2)%Q, r)
|}.

End PoleScenarios.

(** * Properties of the primitive set *)

Section PrimitiveFacts.

Import FunctionSet.

Variable np : numpy.

Lemma try_except_returns {A} (body : outcome A) (d : A) :
  returns (try_except body d).
Proof. destruct body; simpl; eexists; reflexivity. Qed.

Lemma try_except_raise {A} (body : outcome A) (d : A) (e : exn) :
  body = Raise e -> try_except body d = Return d.
Proof. intros ->. reflexivity. Qed.

Lemma ufunc2_nan_l flag op b :
  (forall y, op nan y = nan) -> try_except (ufunc2 flag op nan b) nan = Return nan.
Proof.
  intros Hop. unfold ufunc2. destruct (flag nan b); simpl; [reflexivity|].
  now rewrite Hop.
Qed.

Lemma ufunc2_nan_r flag op a :
  (forall x, op x nan = nan) -> try_except (ufunc2 flag op a nan) nan = Return nan.
Proof.
  intros Hop. unfold ufunc2. destruct (flag a nan); simpl; [reflexivity|].
  now rewrite Hop.
Qed.

Lemma SFadd_nan_r x : SFadd prec emax x nan = nan.
Proof. destruct x; reflexivity. Qed.
Lemma SFsub_nan_r x : SFsub prec emax x nan = nan.
Proof. destruct x; reflexivity. Qed.
Lemma SFmul_nan_r x : SFmul prec emax x nan = nan.
Proof. destruct x; reflexivity. Qed.
Lemma SFdiv_nan_r x : SFdiv prec emax x nan = nan.
Proof. destruct x; reflexivity. Qed.

Lemma libm_nan f : nan_in_nan_out f -> try_except (f nan) nan = Return nan.
Proof. intros [-> | [e ->]]; reflexivity. Qed.

Lemma binary_returns (a b : float64) :
  returns (add np a b) /\ returns (subtract np a b) /\
  returns (multiply np a b) /\ returns (divide np a b).
Proof.
  repeat split; try apply try_except_returns.
  unfold divide. destruct (eq0 b); [eexists; reflexivity|].
  apply try_except_returns.
Qed.

Lemma unary_returns (a : float64) :
  returns (take_sin np a) /\ returns (take_cos np a) /\
  returns (exp np a) /\ returns (log np a).
Proof.
  repeat split; try apply try_except_returns.
  - unfold exp. destruct (ge88 a); [eexists; reflexivity|].
    apply try_except_returns.
  - unfold log. destruct (eq0 a); [eexists; reflexivity|].
    apply try_except_returns.
Qed.

End PrimitiveFacts.

(** C4.  No primitive raises: for every behaviour of numpy and every pair of
    floats, [add], [subtract], [multiply], [divide], [take_sin], [take_cos],
    [exp] and [log] return; so does every row of the function table called
    with as many arguments as its arity.  [divide a b] is NaN when [b == 0],
    [log a] is NaN when [a == 0], [exp a] is NaN when [a >= 88], and whenever
    the numpy operation inside a primitive raises, the primitive returns
    NaN. *)
Theorem primitives_total_nan_on_domain_error (np : FunctionSet.numpy)
    (a b : FunctionSet.float64) :
  let nan := FunctionSet.nan in
  (returns (FunctionSet.add np a b) /\ returns (FunctionSet.subtract np a b) /\
   returns (FunctionSet.multiply np a b) /\ returns (FunctionSet.divide np a b) /\
   returns (FunctionSet.take_sin np a) /\ returns (FunctionSet.take_cos np a) /\
   returns (FunctionSet.exp np a) /\ returns (FunctionSet.log np a)) /\
  (forall p args, p ∈ FunctionSet.FUNCTION_SET np ->
     length args = FunctionSet.arity p ->
     returns (FunctionSet.call (FunctionSet.func p) args)) /\
  (FunctionSet.eq0 b = true -> FunctionSet.divide np a b = Return nan) /\
  (FunctionSet.eq0 a = true -> FunctionSet.log np a = Return nan) /\
  (FunctionSet.ge88 a = true -> FunctionSet.exp np a = Return nan) /\
  (forall e,
     (FunctionSet.np_add np a b = Raise e -> FunctionSet.add np a b = Return nan) /\
     (FunctionSet.np_subtract np a b = Raise e ->
        FunctionSet.subtract np a b = Return nan) /\
     (FunctionSet.np_multiply np a b = Raise e ->
        FunctionSet.multiply np a b = Return nan) /\
     (FunctionSet.np_divide np a b = Raise e ->
        FunctionSet.divide np a b = Return nan) /\
     (FunctionSet.np_sin np a = Raise e -> FunctionSet.take_sin np a = Return nan) /\
     (FunctionSet.np_cos np a = Raise e -> FunctionSet.take_cos np a = Return nan) /\
     (FunctionSet.np_exp np a = Raise e -> FunctionSet.exp np a = Return nan) /\
     (FunctionSet.np_log np a = Raise e -> FunctionSet.log np a = Return nan)).
Proof.
  intros nan.
  destruct (binary_returns np a b) as (Ha & Hs & Hm & Hd).
  destruct (unary_returns np a) as (Hsin & Hcos & Hexp & Hlog).
  split; [tauto|]. split; [|split; [|split; [|split]]].
  - intros p args Hp Hlen. unfold FunctionSet.FUNCTION_SET in Hp.
    repeat (apply elem_of_cons in Hp as [-> | Hp]); simpl in Hlen;
      try (destruct args as [|x [|y [|z args]]]; try discriminate Hlen; simpl;
           first [ apply (binary_returns np x y) | apply (unary_returns np x)
                 | apply (unary_returns np (FunctionSet.np_abs x)) ]).
    inversion Hp.
  - intros Hb. unfold FunctionSet.divide. now rewrite Hb.
  - intros Hz. unfold FunctionSet.log. now rewrite Hz.
  - intros Hge. unfold FunctionSet.exp. now rewrite Hge.
  - intros e. repeat split; intros Hr.
    + unfold FunctionSet.add. now rewrite Hr.
    + unfold FunctionSet.subtract. now rewrite Hr.
    + unfold FunctionSet.multiply. now rewrite Hr.
    + unfold FunctionSet.divide. destruct (FunctionSet.eq0 b); [reflexivity|].
      now rewrite Hr.
    + unfold FunctionSet.take_sin. now rewrite Hr.
    + unfold FunctionSet.take_cos. now rewrite Hr.
    + unfold FunctionSet.exp. destruct (FunctionSet.ge88 a); [reflexivity|].
      now rewrite Hr.
    + unfold FunctionSet.log. destruct (FunctionSet.eq0 a); [reflexivity|].
      now rewrite Hr.
Qed.

(** The guards of C4 at concrete floats: 1/0, ln 0, e^100 and ln(-0). *)
Lemma primitives_total_nan_on_domain_error_witness :
  FunctionSet.divide FunctionSet.quiet_numpy FunctionSet.one FunctionSet.zero
    = Return FunctionSet.nan /\
  FunctionSet.log FunctionSet.quiet_numpy FunctionSet.zero = Return FunctionSet.nan /\
  FunctionSet.exp FunctionSet.quiet_numpy FunctionSet.f100 = Return FunctionSet.nan /\
  FunctionSet.log FunctionSet.quiet_numpy (S754_zero true) = Return FunctionSet.nan.
Proof.
  pose proof (primitives_total_nan_on_domain_error FunctionSet.quiet_numpy
                FunctionSet.one FunctionSet.zero) as H1.
  pose proof (primitives_total_nan_on_domain_error FunctionSet.quiet_numpy
                FunctionSet.zero FunctionSet.zero) as H2.
  pose proof (primitives_total_nan_on_domain_error FunctionSet.quiet_numpy
                FunctionSet.f100 FunctionSet.zero) as H3.
  pose proof (primitives_total_nan_on_domain_error FunctionSet.quiet_numpy
                (S754_zero true) FunctionSet.zero) as H4.
  cbv zeta in H1, H2, H3, H4.
  destruct H1 as (_ & _ & H1 & _).
  destruct H2 as (_ & _ & _ & H2 & _).
  destruct H3 as (_ & _ & _ & _ & H3 & _).
  destruct H4 as (_ & _ & _ & H4 & _).
  split; [|split; [|split]].
  - apply H1. reflexivity.
  - apply H2. reflexivity.
  - apply H3. reflexivity.
  - apply H4. reflexivity.
Defined.

(** C5.  NaN propagates through every row of the function table: when numpy's
    libm functions answer NaN on NaN (or raise), a primitive called with as
    many arguments as its arity, one of which is NaN, returns NaN. *)
Theorem nan_propagates (np : FunctionSet.numpy) (p : FunctionSet.primitive)
    (args : list FunctionSet.float64) :
  FunctionSet.ieee_libm np ->
  p ∈ FunctionSet.FUNCTION_SET np ->
  length args = FunctionSet.arity p ->
  FunctionSet.nan ∈ args ->
  FunctionSet.call (FunctionSet.func p) args = Return FunctionSet.nan.
Proof.
  intros [Hsin Hcos Hexp Hlog] Hp Hlen Hnan.
  unfold FunctionSet.FUNCTION_SET in Hp.
  repeat (apply elem_of_cons in Hp as [-> | Hp]); [.. | inversion Hp];
    simpl in Hlen;
    try (destruct args as [|x [|y [|z args]]]; try discriminate Hlen; simpl).
  all: try (apply elem_of_cons in Hnan as [<- | Hnan];
            [| apply elem_of_cons in Hnan as [<- | Hnan]; [| inversion Hnan]]).
  all: try (apply list_elem_of_singleton in Hnan as <-).
  - apply ufunc2_nan_l. reflexivity.
  - apply ufunc2_nan_r, SFadd_nan_r.
  - apply ufunc2_nan_l. reflexivity.
  - apply ufunc2_nan_r, SFsub_nan_r.
  - apply ufunc2_nan_l. reflexivity.
  - apply ufunc2_nan_r, SFmul_nan_r.
  - unfold FunctionSet.divide. destruct (FunctionSet.eq0 y); [reflexivity|].
    apply ufunc2_nan_l. reflexivity.
  - unfold FunctionSet.divide. simpl. apply ufunc2_nan_r, SFdiv_nan_r.
  - now apply libm_nan.
  - now apply libm_nan.
  - unfold FunctionSet.exp. simpl. now apply libm_nan.
  - unfold FunctionSet.log. simpl. now apply libm_nan.
Qed.

Lemma quiet_numpy_ieee : FunctionSet.ieee_libm FunctionSet.quiet_numpy.
Proof. split; left; reflexivity. Qed.

(** C5 at concrete arguments: [NaN / 1] and [ln|NaN|]. *)
Lemma nan_propagates_witness :
  FunctionSet.divide FunctionSet.quiet_numpy FunctionSet.nan FunctionSet.one
    = Return FunctionSet.nan /\
  FunctionSet.log FunctionSet.quiet_numpy (FunctionSet.np_abs FunctionSet.nan)
    = Return FunctionSet.nan.
Proof.
  split.
  - apply (nan_propagates FunctionSet.quiet_numpy
             {| FunctionSet.name := "/";
                FunctionSet.func := FunctionSet.Lambda2
                  (fun a b => FunctionSet.divide FunctionSet.quiet_numpy a b);
                FunctionSet.arity := 2 |}
             [FunctionSet.nan; FunctionSet.one]).
    + exact quiet_numpy_ieee.
    + unfold FunctionSet.FUNCTION_SET. do 3 apply list_elem_of_further.
      apply list_elem_of_here.
    + reflexivity.
    + apply list_elem_of_here.
  - apply (nan_propagates FunctionSet.quiet_numpy
             {| FunctionSet.name := "ln|x|";
                FunctionSet.func := FunctionSet.Lambda1
                  (fun a => FunctionSet.log FunctionSet.quiet_numpy
                              (FunctionSet.np_abs a));
                FunctionSet.arity := 1 |}
             [FunctionSet.nan]).
    + exact quiet_numpy_ieee.
    + unfold FunctionSet.FUNCTION_SET. do 7 apply list_elem_of_further.
      apply list_elem_of_here.
    + reflexivity.
    + apply list_elem_of_here.
Defined.

(** * Properties of the driver *)

(** ** Setup *)

Section SetupFacts.

Import Mfeaii.

Lemma comprehension_index_from {A B} (f : A -> B) (l pre : list A) :
  comprehension (fun i => e ← index (pre ++ l) i; Return (f e))
                (seq (length pre) (length l))
  = Return (map f l).
Proof.
  revert pre. induction l as [|a l IH]; intros pre; [reflexivity|].
  assert (Ha : index (pre ++ a :: l) (length pre) = Return a).
  { unfold index. now rewrite list_lookup_middle. }
  cbn [length seq comprehension]. rewrite Ha. cbn [mbind outcome_bind].
  specialize (IH (pre ++ [a])).
  rewrite <- app_assoc, length_app in IH. cbn [length app] in IH.
  rewrite Nat.add_1_r in IH. rewrite IH. reflexivity.
Qed.

Lemma comprehension_index {A B} (f : A -> B) (l : list A) :
  comprehension (fun i => e ← index l i; Return (f e)) (range (length l))
  = Return (map f l).
Proof. exact (comprehension_index_from f l []). Qed.

Lemma fold_left_max_ge (xs : list nat) (x : nat) :
  x <= fold_left Nat.max xs x /\ Forall (fun y => y <= fold_left Nat.max xs x) xs.
Proof.
  revert x. induction xs as [|y xs IH]; intros x; cbn.
  - split; [lia | constructor].
  - destruct (IH (Nat.max x y)) as [H1 H2]. split; [lia|].
    constructor; [lia | exact H2].
Qed.

Lemma fold_left_max_in (xs : list nat) (x : nat) :
  fold_left Nat.max xs x ∈ x :: xs.
Proof.
  revert x. induction xs as [|y xs IH]; intros x; cbn.
  - apply list_elem_of_here.
  - specialize (IH (Nat.max x y)).
    apply elem_of_cons in IH as [IH | IH].
    + rewrite IH. destruct (Nat.max_dec x y) as [-> | ->].
      * apply list_elem_of_here.
      * apply list_elem_of_further, list_elem_of_here.
    + do 2 apply list_elem_of_further. exact IH.
Qed.

End SetupFacts.

(** C3, as the code has it.  With at least one environment, the setup never
    fails on the observation dimensionalities: it takes the largest of them
    as the terminal count handed to the population's constructor (every
    environment's dimensionality is at most it, and one environment has
    exactly it), together with K tasks and 2 * pop_size * K individuals. *)
Theorem setup_takes_largest_dimension (envs : list Mfeaii.env)
    (cfg : Mfeaii.config) :
  envs <> [] ->
  exists args,
    Mfeaii.setup_args envs cfg = Return args /\
    Forall (fun e => Mfeaii.reset_shape0 e <= Mfeaii.no_terminal args) envs /\
    (exists e, e ∈ envs /\ Mfeaii.reset_shape0 e = Mfeaii.no_terminal args) /\
    Mfeaii.no_task args = length envs /\
    Mfeaii.no_pop args = 2 * (Mfeaii.pop_size cfg * length envs).
Proof.
  intros Hne. destruct envs as [|e0 envs]; [congruence|].
  unfold Mfeaii.setup_args.
  change (index (e0 :: envs) 0) with (Return e0). cbn [mbind outcome_bind].
  rewrite (comprehension_index Mfeaii.reset_shape0 (e0 :: envs)).
  cbn [mbind outcome_bind map Mfeaii.np_max_int Mfeaii.np_max_by].
  eexists. split; [reflexivity|]. cbn.
  set (m := fold_left Nat.max (map Mfeaii.reset_shape0 envs)
                      (Mfeaii.reset_shape0 e0)).
  destruct (fold_left_max_ge (map Mfeaii.reset_shape0 envs)
              (Mfeaii.reset_shape0 e0)) as [H0 Hall].
  fold m in H0, Hall.
  split; [|split; [|split; reflexivity]].
  - constructor; [exact H0|].
    rewrite Forall_fmap in Hall. exact Hall.
  - pose proof (fold_left_max_in (map Mfeaii.reset_shape0 envs)
                  (Mfeaii.reset_shape0 e0)) as Hin.
    fold m in Hin. change (m ∈ map Mfeaii.reset_shape0 (e0 :: envs)) in Hin.
    apply list_elem_of_fmap in Hin as (e & -> & He). eauto.
Qed.

(** The repository's two environments, of 6 and 3 observations. *)
Lemma setup_takes_largest_dimension_witness :
  exists args,
    Mfeaii.setup_args [Examples.doublepole_710; Examples.doublepole_710_v1]
      (Examples.cfg 10 5 2 2 (1 / 2)) = Return args /\
    Mfeaii.no_terminal args = 6.
Proof.
  destruct (setup_takes_largest_dimension
              [Examples.doublepole_710; Examples.doublepole_710_v1]
              (Examples.cfg 10 5 2 2 (1 / 2)) ltac:(discriminate))
    as (args & Hargs & _ & _ & _ & _).
  exists args. split; [exact Hargs|].
  cbv in Hargs. injection Hargs as <-. reflexivity.
Defined.

(** C3 as stated fails: the repository's own pair of environments has
    mismatched observation dimensionalities (6 and 3), and the setup goes
    through with 6 terminals instead of raising. *)
Lemma setup_accepts_mismatched_dimensions :
  Mfeaii.reset_shape0 Examples.doublepole_710
    <> Mfeaii.reset_shape0 Examples.doublepole_710_v1 /\
  Mfeaii.setup_args [Examples.doublepole_710; Examples.doublepole_710_v1]
    (Examples.cfg 10 5 2 2 (1 / 2))
  = Return {| Mfeaii.no_adf := 4; Mfeaii.no_terminal := 6; Mfeaii.no_main := 2;
              Mfeaii.arg_h_main := 4; Mfeaii.arg_max_arity := 2;
              Mfeaii.arg_h_adf := 3; Mfeaii.no_pop := 40;
              Mfeaii.no_task := 2 |}.
Proof. split; [discriminate | reflexivity]. Qed.

(** ** The options that are read and not used *)

Section ConfigurationFacts.

Import Mfeaii.
Context {rand result : Type}.
Variable npr : np_random rand.
Variable population : Slgep_pop rand result.

Lemma read_config_rebind (x y : R) (d : config_dict) (c : config) :
  read_config d = Return c ->
  read_config (rebind_sbxdi_pswap x y d) = Return (with_sbxdi_pswap x y c).
Proof.
  unfold read_config. destruct d as [a1 a2 a3 a4 a5 a6 a7 a8 a9 a10].
  cbn [key_pop_size key_num_iter key_num_par key_mutation_rate key_sbxdi
       key_pmdi key_pswap key_max_arity key_h_main key_h_adf
       rebind_sbxdi_pswap].
  destruct a1, a2, a3, a4, a5, a6, a7, a8, a9, a10; try discriminate.
  cbn. intros [= <-]. reflexivity.
Qed.

Lemma read_config_absent (d : config_dict) :
  key_sbxdi d = None \/ key_pswap d = None -> read_config d = Raise KeyError.
Proof.
  unfold read_config. destruct d as [a1 a2 a3 a4 a5 a6 a7 a8 a9 a10].
  cbn [key_pop_size key_num_iter key_num_par key_mutation_rate key_sbxdi
       key_pmdi key_pswap key_max_arity key_h_main key_h_adf].
  intros [-> | ->]; destruct a1, a2, a3, a4; try reflexivity;
    try (destruct a5; try reflexivity; destruct a6; reflexivity).
Qed.

End ConfigurationFacts.

(** C9, as the code has it.  [sbxdi] and [pswap] are read from the
    configuration dictionary and must be present: a dictionary without one
    of them raises [KeyError], with nothing built, drawn or reported.  Bound
    to whatever values, they are never used: for every population class,
    random generator, list of environments and starting state, the run on
    the dictionary with other values of these two options is the same
    computation, with the same outcome and the same final state.  Each of
    the other recognised options reaches the constructor, the loop or an
    operator: on a population that keeps a journal of the arguments it is
    given, two configurations that differ in [pop_size] only, in [num_iter]
    only, in [num_par] only, in [mutation_rate] only, in [pmdi] only, in
    [max_arity] only, in [h_main] only or in [h_adf] only leave different
    journals. *)
Theorem sbxdi_pswap_read_and_unused :
  (forall (rand result : Type) (npr : Mfeaii.np_random rand)
          (population : Mfeaii.Slgep_pop rand result) (envs : list Mfeaii.env)
          (d : Mfeaii.config_dict) (callback normal_beta : bool)
          (s : Mfeaii.state rand result),
     Mfeaii.key_sbxdi d = None \/ Mfeaii.key_pswap d = None ->
     Mfeaii.mfeaii_mgp_on npr population envs d callback normal_beta s
     = (Raise KeyError, s)) /\
  (forall (rand result : Type) (npr : Mfeaii.np_random rand)
          (population : Mfeaii.Slgep_pop rand result) (envs : list Mfeaii.env)
          (d : Mfeaii.config_dict) (x y : R) (callback normal_beta : bool)
          (s : Mfeaii.state rand result),
     Mfeaii.key_sbxdi d <> None -> Mfeaii.key_pswap d <> None ->
     Mfeaii.mfeaii_mgp_on npr population envs (rebind_sbxdi_pswap x y d)
       callback normal_beta s
     = Mfeaii.mfeaii_mgp_on npr population envs d callback normal_beta s) /\
  (forall mr pm : R,
     Probes.journal (Probes.options 2 1 2 mr pm 2 4 3)
       <> Probes.journal (Probes.options 3 1 2 mr pm 2 4 3) /\
     Probes.journal (Probes.options 2 1 2 mr pm 2 4 3)
       <> Probes.journal (Probes.options 2 2 2 mr pm 2 4 3) /\
     Probes.journal (Probes.options 2 1 2 mr pm 2 4 3)
       <> Probes.journal (Probes.options 2 1 4 mr pm 2 4 3) /\
     (forall mr', mr <> mr' ->
        Probes.journal (Probes.options 2 1 2 mr pm 2 4 3)
          <> Probes.journal (Probes.options 2 1 2 mr' pm 2 4 3)) /\
     (forall pm', pm <> pm' ->
        Probes.journal (Probes.options 2 1 2 mr pm 2 4 3)
          <> Probes.journal (Probes.options 2 1 2 mr pm' 2 4 3)) /\
     Probes.journal (Probes.options 2 1 2 mr pm 2 4 3)
       <> Probes.journal (Probes.options 2 1 2 mr pm 3 4 3) /\
     Probes.journal (Probes.options 2 1 2 mr pm 2 4 3)
       <> Probes.journal (Probes.options 2 1 2 mr pm 2 5 3) /\
     Probes.journal (Probes.options 2 1 2 mr pm 2 4 3)
       <> Probes.journal (Probes.options 2 1 2 mr pm 2 4 4)).
Proof.
  split; [|split].
  - intros rand result npr population envs d callback normal_beta s Habs.
    unfold Mfeaii.mfeaii_mgp_on, Mfeaii.bind, Mfeaii.lift.
    now rewrite (read_config_absent d Habs).
  - intros rand result npr population envs d x y callback normal_beta s
      Hx Hy.
    unfold Mfeaii.mfeaii_mgp_on, Mfeaii.bind, Mfeaii.lift.
    destruct (Mfeaii.read_config d) as [c | e] eqn:Hc.
    + rewrite (read_config_rebind x y d c Hc). reflexivity.
    + destruct d as [a1 a2 a3 a4 a5 a6 a7 a8 a9 a10]. cbn in Hx, Hy, Hc |- *.
      unfold Mfeaii.read_config in *. cbn in Hc |- *.
      destruct a1, a2, a3, a4, a5, a6, a7, a8, a9, a10;
        cbn in Hc |- *; congruence.
  - intros mr pm.
    repeat split;
      try (intros H; lazy in H; discriminate H);
      intros v Hv H; lazy in H; congruence.
Qed.

(** C9 as stated fails: these two configurations differ in the values of the
    recognised options [sbxdi] (2 and 15) and [pswap] (1/2 and 9/10), and
    their runs are guaranteed to be the same computation. *)
Lemma configurations_differ_runs_agree :
  Examples.cfg 10 5 2 2 (1 / 2) <> Examples.cfg 10 5 2 15 (9 / 10) /\
  forall (rand result : Type) (npr : Mfeaii.np_random rand)
         (population : Mfeaii.Slgep_pop rand result) (envs : list Mfeaii.env)
         (callback normal_beta : bool) (s : Mfeaii.state rand result),
    Mfeaii.mfeaii_mgp npr population envs (Examples.cfg 10 5 2 2 (1 / 2))
      callback normal_beta s
    = Mfeaii.mfeaii_mgp npr population envs (Examples.cfg 10 5 2 15 (9 / 10))
        callback normal_beta s.
Proof.
  split.
  - intros H. apply (f_equal Mfeaii.sbxdi) in H. cbn in H. lra.
  - intros. reflexivity.
Qed.

(** ** Rules for [keeps] *)

Section KeepsRules.

Import Mfeaii.
Context {rand result : Type}.
Implicit Types s : state rand result.

Variable R : state rand result -> state rand result -> Prop.
Hypothesis HR : seed_blind R.

Lemma keeps_ret {A} (a : A) : keeps R (ret a).
Proof using HR. intros s. apply (blind_refl R HR). Qed.

Lemma keeps_lift {A} (o : outcome A) : keeps R (lift o).
Proof using HR. intros s. apply (blind_refl R HR). Qed.

Lemma keeps_draw {A} (f : rand -> A * rand) : keeps R (draw f).
Proof using HR.
  intros s. unfold draw. destruct (f (seed s)) as [a r]. apply (blind_seed R HR).
Qed.

Lemma keeps_method {A} (f : list chromosome -> rand -> A * rand) :
  keeps R (method f).
Proof using HR. intros s. unfold method. apply keeps_draw. Qed.

Lemma keeps_pop_get (i : nat) : keeps R (pop_get (rand:=rand) (result:=result) i).
Proof using HR. intros s. unfold pop_get. apply keeps_lift. Qed.

Lemma keeps_bind {A B} (m : M rand result A) (f : A -> M rand result B) :
  keeps R m -> (forall a, keeps R (f a)) -> keeps R (bind m f).
Proof using HR.
  intros Hm Hf s. unfold bind. specialize (Hm s).
  destruct (m s) as [[a | e] s1]; cbn in Hm |- *; [|exact Hm].
  eapply (blind_trans R HR); [exact Hm | apply Hf].
Qed.

Lemma keeps_for_each {A} (l : list A) (body : A -> M rand result unit) :
  (forall a, a ∈ l -> keeps R (body a)) -> keeps R (for_each l body).
Proof using HR.
  induction l as [|a l IH]; intros Hb; cbn [for_each].
  - apply keeps_ret.
  - apply keeps_bind.
    + apply Hb, list_elem_of_here.
    + intros _. apply IH. intros b Hin. apply Hb, list_elem_of_further, Hin.
Qed.

Lemma keeps_for_foldM {A B} (f : B -> A -> M rand result B) (l : list A) (b : B) :
  (forall b a, keeps R (f b a)) -> keeps R (for_foldM f l b).
Proof using HR.
  intros Hf. revert b. induction l as [|a l IH]; intros b; cbn [for_foldM].
  - apply keeps_ret.
  - apply keeps_bind; [apply Hf | intros b'; apply IH].
Qed.

Lemma keeps_comprehensionM {A B} (f : A -> M rand result B) (l : list A) :
  (forall a, keeps R (f a)) -> keeps R (comprehensionM f l).
Proof using HR.
  intros Hf. induction l as [|a l IH]; cbn [comprehensionM].
  - apply keeps_ret.
  - apply keeps_bind; [apply Hf|]. intros b.
    apply keeps_bind; [apply IH|]. intros bs. apply keeps_ret.
Qed.

Variable npr : np_random rand.
Variable population : Slgep_pop rand result.

Lemma keeps_random_choice {A} (a : list A) : keeps R (random_choice npr a).
Proof using HR.
  unfold random_choice. destruct a; [apply keeps_lift|].
  apply keeps_bind; [apply keeps_draw | intros i; apply keeps_lift].
Qed.

Lemma keeps_mutate_child mr cl i pm : keeps R (mutate_child population mr cl i pm).
Proof using HR.
  unfold mutate_child. apply keeps_bind; [apply keeps_lift|]. intros c.
  apply keeps_bind; [apply keeps_method | intros c'; apply keeps_lift].
Qed.

Lemma keeps_same_sf_children mr pmdi parents bl no_p :
  keeps R (same_sf_children population mr pmdi parents bl no_p).
Proof using HR.
  unfold same_sf_children. apply keeps_bind; [apply keeps_method|]. intros cl.
  apply keeps_for_foldM. intros cl' i.
  apply keeps_bind; [apply keeps_mutate_child|]. intros cl''.
  apply keeps_bind; [apply keeps_lift | intros p0; apply keeps_lift].
Qed.

Lemma keeps_cross_task_children mr rmp parents bl no_p :
  keeps R (cross_task_children npr population mr rmp parents bl no_p).
Proof using HR.
  unfold cross_task_children. apply keeps_bind; [apply keeps_method|]. intros cl.
  apply keeps_for_foldM. intros cl' i.
  apply keeps_bind; [apply keeps_mutate_child|]. intros cl''.
  apply keeps_bind; [apply keeps_random_choice | intros t; apply keeps_lift].
Qed.

Lemma keeps_relatives_children mr parents bl no_p :
  keeps R (relatives_children population mr parents bl no_p).
Proof using HR.
  unfold relatives_children. apply keeps_bind.
  - apply keeps_for_foldM. intros ps i.
    apply keeps_bind; [apply keeps_lift|]. intros p0.
    apply keeps_bind; [apply keeps_method | intros r; apply keeps_lift].
  - intros ps. apply keeps_bind; [apply keeps_method|]. intros cl.
    apply keeps_for_foldM. intros cl' i.
    apply keeps_bind; [apply keeps_mutate_child|]. intros cl''.
    apply keeps_bind; [apply keeps_lift | intros p0; apply keeps_lift].
Qed.

End KeepsRules.

Section Preorders.

Import Mfeaii.
Context {rand result : Type}.

Lemma same_pop_blind : seed_blind (same_pop (rand:=rand) (result:=result)).
Proof.
  split; unfold same_pop.
  - reflexivity.
  - intros s1 s2 s3 H1 H2. congruence.
  - reflexivity.
Qed.

Lemma same_reported_blind :
  seed_blind (same_reported (rand:=rand) (result:=result)).
Proof.
  split; unfold same_reported.
  - reflexivity.
  - intros s1 s2 s3 H1 H2. congruence.
  - reflexivity.
Qed.

Lemma frame_blind lo hi : seed_blind (frame (rand:=rand) (result:=result) lo hi).
Proof.
  split; unfold frame.
  - intros s. split; [reflexivity | intros; reflexivity].
  - intros s1 s2 s3 [L1 H1] [L2 H2]. split; [congruence|].
    intros i Hi. rewrite H2, H1 by exact Hi. reflexivity.
  - intros s r. cbn. split; [reflexivity | intros; reflexivity].
Qed.

Lemma frame_weaken lo hi lo' hi' (s s' : state rand result) :
  lo' <= lo -> hi <= hi' -> frame lo hi s s' -> frame lo' hi' s s'.
Proof.
  intros Hlo Hhi [L H]. split; [exact L|]. intros i Hi. apply H. lia.
Qed.

Lemma same_pop_frame lo hi (s s' : state rand result) :
  same_pop s s' -> frame lo hi s s'.
Proof.
  unfold same_pop, frame. intros ->. split; [reflexivity | intros; reflexivity].
Qed.

Lemma keeps_pop_set_frame lo hi i c :
  lo <= i < hi -> keeps (frame lo hi) (pop_set (rand:=rand) (result:=result) i c).
Proof.
  intros Hi s. unfold pop_set, assign, frame.
  destruct (decide (i < length (pop s))); cbn.
  - split; [apply length_insert|]. intros j Hj.
    apply list_lookup_insert_ne. lia.
  - split; [reflexivity | intros; reflexivity].
Qed.

Lemma keeps_replace_with_children N k no_p cl :
  keeps (frame (N + k) (N + k + no_p))
        (replace_with_children (rand:=rand) (result:=result) N k no_p cl).
Proof.
  unfold replace_with_children. apply keeps_for_each; [apply frame_blind|].
  intros i Hi. unfold range in Hi. apply elem_of_seq in Hi.
  apply keeps_bind; [apply frame_blind | apply keeps_lift, frame_blind |].
  intros c. apply keeps_pop_set_frame. lia.
Qed.

End Preorders.

(** ** The pairing loop *)

Section PairingFacts.

Import Mfeaii.
Context {rand result : Type}.
Variable npr : np_random rand.
Variable population : Slgep_pop rand result.
Variables (N no_par D : nat) (mr pmdi : R) (normal_beta : bool).
Variables (rmp_matrix : matrix) (subpops : list (list chromosome)).

Local Abbreviation pair_group :=
  (pair_group npr population N no_par D mr pmdi normal_beta rmp_matrix subpops).
Local Abbreviation pairing_loop :=
  (pairing_loop npr population N no_par D mr pmdi normal_beta rmp_matrix subpops).

Lemma keeps_weaken {A} (R R' : state rand result -> state rand result -> Prop)
    (m : M rand result A) :
  (forall s s', R s s' -> R' s s') -> keeps R m -> keeps R' m.
Proof. intros HRR Hm s. apply HRR, Hm. Qed.

(** An iteration of the pairing loop keeps whatever its write-back keeps. *)
Lemma keeps_pair_group_via (R : state rand result -> state rand result -> Prop)
    (k : nat) :
  seed_blind R ->
  (forall cl, keeps R (replace_with_children N k (Nat.min (N - k) no_par) cl)) ->
  keeps R (pair_group k).
Proof.
  intros HR Hwrite. unfold Mfeaii.pair_group. cbv zeta.
  apply keeps_bind; [exact HR | apply keeps_comprehensionM; [exact HR|] |].
  { intros i. apply keeps_pop_get, HR. }
  intros parents. apply keeps_bind; [exact HR | |].
  { destruct normal_beta; [apply keeps_draw | apply keeps_lift]; exact HR. }
  intros bl. apply keeps_bind; [exact HR | apply keeps_lift, HR |].
  intros rmps. apply keeps_bind; [exact HR | apply keeps_lift, HR |].
  intros max_rmp. apply keeps_bind; [exact HR | apply keeps_lift, HR |].
  intros [|].
  - apply keeps_bind; [exact HR | apply keeps_same_sf_children, HR |].
    intros cl. apply keeps_ret, HR.
  - apply keeps_bind; [exact HR | apply keeps_draw, HR |].
    intros u. apply keeps_bind; [exact HR | |].
    + destruct (Rlt_dec u max_rmp);
        [apply keeps_cross_task_children | apply keeps_relatives_children];
        exact HR.
    + intros cl. apply Hwrite.
Qed.

Lemma keeps_pair_group (k : nat) :
  keeps (frame (N + k) (N + k + Nat.min (N - k) no_par)) (pair_group k).
Proof.
  apply keeps_pair_group_via; [apply frame_blind|].
  intros cl. apply keeps_replace_with_children.
Qed.

Lemma range_step_spec (n step : nat) (ks : list nat) :
  range_step n step = Return ks ->
  0 < step /\
  (forall k, k ∈ ks -> k < n /\ exists q, k = q * step).
Proof.
  unfold range_step. intros Hr.
  assert (Hpos : 0 < step) by (destruct step; [discriminate | lia]).
  assert (Hks : ks = map (fun q => q * step) (seq 0 ((n + step - 1) / step))).
  { destruct step; [lia | congruence]. }
  clear Hr. subst ks. split; [exact Hpos|]. intros k Hk.
  apply list_elem_of_fmap in Hk as (q & -> & Hq).
  apply elem_of_seq in Hq. split; [|eauto].
  pose proof (Nat.Div0.mul_div_le (n + step - 1) step) as Hle.
  assert (Hq1 : q + 1 <= (n + step - 1) / step) by lia.
  apply (Nat.mul_le_mono_l _ _ step) in Hq1.
  nia.
Qed.

Lemma keeps_pairing_loop : keeps (frame N (2 * N)) pairing_loop.
Proof.
  pose proof (frame_blind (rand:=rand) (result:=result) N (2 * N)) as HR.
  unfold Mfeaii.pairing_loop. intros s. unfold bind, lift.
  destruct (range_step N no_par) as [ks | e] eqn:Hks; cbn;
    [|apply (blind_refl _ HR)].
  apply (keeps_for_each _ HR). intros k Hk.
  destruct (range_step_spec _ _ _ Hks) as [_ Hspec].
  destruct (Hspec k Hk) as [Hlt _].
  eapply keeps_weaken; [|apply keeps_pair_group].
  intros s1 s2. apply frame_weaken; lia.
Qed.

Lemma bind_run {A B} (m : M rand result A) (f : A -> M rand result B) s :
  bind m f s = match m s with
               | (Return a, s') => f a s'
               | (Raise e, s') => (Raise e, s')
               end.
Proof. reflexivity. Qed.

Lemma pop_get_run (i : nat) (s : state rand result) :
  pop_get i s = (index (pop s) i, s).
Proof. reflexivity. Qed.

(** The parents read by the comprehension of line 58 are the slots
    [k .. k + no_p - 1], and reading them changes nothing. *)
Lemma comprehensionM_pop_get (k : nat) (l : list nat) (s : state rand result) :
  exists o,
    comprehensionM (fun i => pop_get (k + i)) l s = (o, s) /\
    forall ps, o = Return ps ->
               Forall2 (fun i p => pop s !! (k + i) = Some p) l ps.
Proof.
  induction l as [|i l (o & Hrun & Hv)]; cbn [comprehensionM].
  - eexists. split; [reflexivity|]. intros ps [= <-]. constructor.
  - rewrite bind_run, pop_get_run. unfold index.
    destruct (pop s !! (k + i)) as [p|] eqn:Hp.
    + rewrite bind_run, Hrun. destruct o as [ps | e].
      * eexists. split; [reflexivity|]. intros ps' [= <-].
        constructor; [exact Hp | apply Hv; reflexivity].
      * eexists. split; [reflexivity | discriminate].
    + eexists. split; [reflexivity | discriminate].
Qed.

Lemma same_skill_factor_true (ps : list chromosome) (a m : nat) :
  (forall i, a <= i < a + m ->
     exists p q, ps !! i = Some p /\ ps !! (i + 1) = Some q /\ sf p = sf q) ->
  for_fold (fun same_sf i =>
      p ← index ps i;
      q ← index ps (i + 1);
      Return (if decide (sf p ≠ sf q) then false else same_sf))
    (seq a m) true = Return true.
Proof.
  revert a. induction m as [|m IH]; intros a H; [reflexivity|].
  cbn [seq for_fold].
  destruct (H a ltac:(lia)) as (p & q & Hp & Hq & Hpq).
  assert (Ip : index ps a = Return p) by (unfold index; now rewrite Hp).
  assert (Iq : index ps (a + 1) = Return q) by (unfold index; now rewrite Hq).
  rewrite Ip. cbn [mbind outcome_bind]. rewrite Iq. cbn [mbind outcome_bind].
  destruct (decide (sf p ≠ sf q)); [contradiction|].
  apply IH. intros i Hi. apply H. lia.
Qed.

(** The defect behind C1 and C2: when the parents of the group share one
    skill factor, no slot of the population is assigned, whatever the
    outcome. *)
Lemma pair_group_same_skill (k : nat) (s : state rand result) :
  (forall i j p q,
     i < Nat.min (N - k) no_par -> j < Nat.min (N - k) no_par ->
     pop s !! (k + i) = Some p -> pop s !! (k + j) = Some q -> sf p = sf q) ->
  pop (snd (pair_group k s)) = pop s.
Proof.
  intros Hsame.
  pose proof (same_pop_blind (rand:=rand) (result:=result)) as HR.
  unfold Mfeaii.pair_group. cbv zeta.
  set (no_p := Nat.min (N - k) no_par) in *.
  rewrite bind_run.
  destruct (comprehensionM_pop_get k (range no_p) s) as (o & -> & Hv).
  destruct o as [parents | e]; [|reflexivity].
  specialize (Hv parents eq_refl).
  assert (Hsf : same_skill_factor parents no_p = Return true).
  { unfold same_skill_factor, range. apply same_skill_factor_true.
    intros i Hi.
    destruct (Forall2_lookup_l _ _ _ i (0 + i) Hv) as (p & Hp & Hpp).
    { apply lookup_seq_lt. lia. }
    destruct (Forall2_lookup_l _ _ _ (i + 1) (0 + (i + 1)) Hv) as (q & Hq & Hqq).
    { apply lookup_seq_lt. lia. }
    exists p, q. split; [exact Hp|]. split; [exact Hq|].
    eapply (Hsame i (i + 1)); [lia | lia | exact Hpp | exact Hqq]. }
  rewrite Hsf.
  match goal with
  | |- pop (snd (?m s)) = pop s => change (same_pop s (snd (m s)))
  end.
  clear Hsame Hv. revert s.
  apply (keeps_bind _ HR).
  { destruct normal_beta; [apply keeps_draw | apply keeps_lift]; exact HR. }
  intros bl. apply (keeps_bind _ HR); [apply keeps_lift, HR|].
  intros rmps. apply (keeps_bind _ HR); [apply keeps_lift, HR|].
  intros max_rmp s'.
  change (same_pop s'
            (snd (bind (same_sf_children population mr pmdi parents bl no_p)
                       (fun _ => ret tt) s'))).
  revert s'. apply (keeps_bind _ HR); [apply keeps_same_sf_children, HR|].
  intros _. apply keeps_ret, HR.
Qed.

End PairingFacts.

(** C8.  The group that starts at [k] assigns only slots of its own
    offspring slice: after [pair_group k], whatever its outcome, the
    population has as many slots and every slot outside
    [N + k, N + k + no_p) is what it was; for [k < N] that slice lies in
    [N, 2N).  So the whole pairing loop leaves the slots outside [N, 2N)
    alone, and the slices of two groups of the loop do not overlap. *)
Theorem pairing_assigns_only_own_offspring_slice {rand result : Type}
    (npr : Mfeaii.np_random rand) (population : Mfeaii.Slgep_pop rand result)
    (N no_par D : nat) (mr pmdi : R) (normal_beta : bool)
    (rmp_matrix : Mfeaii.matrix) (subpops : list (list Mfeaii.chromosome))
    (k : nat) (s : Mfeaii.state rand result) :
  let no_p := Nat.min (N - k) no_par in
  let s' := snd (Mfeaii.pair_group npr population N no_par D mr pmdi
                   normal_beta rmp_matrix subpops k s) in
  let s'' := snd (Mfeaii.pairing_loop npr population N no_par D mr pmdi
                    normal_beta rmp_matrix subpops s) in
  (length (Mfeaii.pop s') = length (Mfeaii.pop s) /\
   forall i, ~ (N + k <= i < N + k + no_p) ->
             Mfeaii.pop s' !! i = Mfeaii.pop s !! i) /\
  (k < N -> N <= N + k /\ N + k + no_p <= 2 * N) /\
  (length (Mfeaii.pop s'') = length (Mfeaii.pop s) /\
   forall i, ~ (N <= i < 2 * N) -> Mfeaii.pop s'' !! i = Mfeaii.pop s !! i) /\
  (forall ks k1 k2,
     range_step N no_par = Return ks -> k1 ∈ ks -> k2 ∈ ks -> k1 < k2 ->
     N + k1 + Nat.min (N - k1) no_par <= N + k2).
Proof.
  intros no_p s' s''. split; [|split; [|split]].
  - apply (keeps_pair_group npr population N no_par D mr pmdi normal_beta
             rmp_matrix subpops k s).
  - intros Hk. unfold no_p. lia.
  - apply (keeps_pairing_loop npr population N no_par D mr pmdi normal_beta
             rmp_matrix subpops s).
  - intros ks k1 k2 Hks H1 H2 Hlt.
    destruct (range_step_spec _ _ _ Hks) as [Hpos Hspec].
    destruct (Hspec k1 H1) as [_ [q1 ->]].
    destruct (Hspec k2 H2) as [_ [q2 ->]].
    assert (q1 < q2) by nia.
    assert (q1 * no_par + no_par <= q2 * no_par) by nia.
    lia.
Qed.

(** C1: the branch of one skill factor.  When the parents of the group that
    starts at [k] share one skill factor, [pair_group k] assigns no slot at
    all: the population after it is the population before it, so the
    children made by crossover and mutation are not written to the slots
    [N + k .. N + k + no_p - 1]. *)
Theorem same_skill_group_children_not_written {rand result : Type}
    (npr : Mfeaii.np_random rand) (population : Mfeaii.Slgep_pop rand result)
    (N no_par D : nat) (mr pmdi : R) (normal_beta : bool)
    (rmp_matrix : Mfeaii.matrix) (subpops : list (list Mfeaii.chromosome))
    (k : nat) (s : Mfeaii.state rand result) :
  (forall i j p q,
     i < Nat.min (N - k) no_par -> j < Nat.min (N - k) no_par ->
     Mfeaii.pop s !! (k + i) = Some p -> Mfeaii.pop s !! (k + j) = Some q ->
     Mfeaii.sf p = Mfeaii.sf q) ->
  Mfeaii.pop (snd (Mfeaii.pair_group npr population N no_par D mr pmdi
                     normal_beta rmp_matrix subpops k s))
  = Mfeaii.pop s.
Proof. apply pair_group_same_skill. Qed.

(** C2: a group of one parent.  When [no_p = min (N - k) no_par] is 1, the
    iteration raises and writes no child; with the normal beta and the
    parent's slot in range the exception is the [ValueError] of [np.max] on
    the empty array of RMP values. *)
Theorem single_parent_group_raises {rand result : Type}
    (npr : Mfeaii.np_random rand) (population : Mfeaii.Slgep_pop rand result)
    (N no_par D : nat) (mr pmdi : R) (normal_beta : bool)
    (rmp_matrix : Mfeaii.matrix) (subpops : list (list Mfeaii.chromosome))
    (k : nat) (s : Mfeaii.state rand result) :
  Nat.min (N - k) no_par = 1 ->
  let run := Mfeaii.pair_group npr population N no_par D mr pmdi normal_beta
               rmp_matrix subpops k s in
  (exists e, fst run = Raise e) /\
  Mfeaii.pop (snd run) = Mfeaii.pop s /\
  (normal_beta = true -> k < length (Mfeaii.pop s) ->
   fst run = Raise ValueError).
Proof.
  intros Hone run. split; [|split].
  - unfold run, Mfeaii.pair_group. cbv zeta. rewrite Hone.
    rewrite bind_run.
    destruct (comprehensionM_pop_get (result:=result) k (range 1) s)
      as (o & -> & _).
    destruct o as [parents | e]; [|eauto].
    rewrite bind_run.
    destruct ((if normal_beta
               then Mfeaii.draw (Mfeaii.random_normal npr (7 / 10) (1 / 10) 1 D)
               else Mfeaii.lift
                      (Mfeaii.beta_likelihood (Mfeaii.numerics npr) parents
                         subpops 1 D)) s)
      as [[bl | e] s1]; [|eauto].
    exists ValueError. reflexivity.
  - apply pair_group_same_skill. rewrite Hone.
    intros i j p q Hi Hj Hp Hq.
    assert (i = 0) as -> by lia. assert (j = 0) as -> by lia. congruence.
  - intros -> Hk. unfold run, Mfeaii.pair_group. cbv zeta. rewrite Hone.
    destruct (lookup_lt_is_Some_2 (Mfeaii.pop s) (k + 0) ltac:(lia)) as [p Hp].
    assert (Hparents :
      Mfeaii.comprehensionM (fun i => Mfeaii.pop_get (k + i)) (range 1) s
      = (Return [p], s)).
    { cbn [range seq Mfeaii.comprehensionM].
      rewrite bind_run, pop_get_run. unfold index. rewrite Hp. reflexivity. }
    rewrite bind_run, Hparents, bind_run. unfold Mfeaii.draw.
    destruct (Mfeaii.random_normal npr (7 / 10) (1 / 10) 1 D (Mfeaii.seed s))
      as [bl r].
    reflexivity.
Qed.

(** C8 at N = 4, groups of 2: the group at 2 owns the slots 6 and 7. *)
Lemma pairing_assigns_only_own_offspring_slice_witness :
  4 <= 4 + 2 /\ 4 + 2 + Nat.min (4 - 2) 2 <= 2 * 4.
Proof.
  destruct (pairing_assigns_only_own_offspring_slice Examples.fixed_random
              (Examples.copying_pop 2) 4 2 2 (1 / 10) 5 true (Examples.ones 2)
              [] 2 (Examples.start Examples.pop8)) as (_ & H & _).
  apply H. lia.
Defined.

(** C1 at a failing input: K = 2, pop_size = 2, num_par = 2; the two parents
    of the first group both have task 0, and after the iteration the
    offspring slots 4 and 5 still hold what they held. *)
Lemma same_skill_group_children_not_written_witness :
  Mfeaii.pop (snd (Mfeaii.pair_group Examples.fixed_random
                     (Examples.copying_pop 2) 4 2 2 (1 / 10) 5 true
                     (Examples.ones 2) [] 0 (Examples.start Examples.pop8)))
  = Examples.pop8.
Proof.
  apply (same_skill_group_children_not_written Examples.fixed_random
           (Examples.copying_pop 2) 4 2 2 (1 / 10) 5 true (Examples.ones 2)
           [] 0 (Examples.start Examples.pop8)).
  intros i j p q Hi Hj.
  change (Nat.min (4 - 0) 2) with 2 in Hi, Hj.
  destruct i as [|[|i]]; [| |lia]; destruct j as [|[|j]]; [| |lia | | |lia];
    cbn; intros [= <-] [= <-]; reflexivity.
Defined.

(** C2 at a failing input: K = 3, pop_size = 1, num_par = 2; the group that
    starts at 2 has one parent and the iteration raises [ValueError]. *)
Lemma single_parent_group_raises_witness :
  fst (Mfeaii.pair_group Examples.fixed_random (Examples.copying_pop 3)
         3 2 2 (1 / 10) 5 true (Examples.ones 3) [] 2
         (Examples.start Examples.pop6))
  = Raise ValueError.
Proof.
  destruct (single_parent_group_raises Examples.fixed_random
              (Examples.copying_pop 3) 3 2 2 (1 / 10) 5 true (Examples.ones 3)
              [] 2 (Examples.start Examples.pop6) eq_refl) as (_ & _ & H).
  apply H; [reflexivity | cbn; lia].
Defined.

(** ** Rules for [yields] and [total] *)

Section ValueRules.

Import Mfeaii.
Context {rand result : Type}.
Implicit Types s : state rand result.

Lemma yields_bind {A B} (m : M rand result A) (f : A -> M rand result B)
    (Q1 : A -> Prop) (Q2 : B -> Prop) :
  yields m Q1 -> (forall a, Q1 a -> yields (f a) Q2) -> yields (bind m f) Q2.
Proof.
  intros Hm Hf s b. unfold bind. specialize (Hm s).
  destruct (m s) as [[a | e] s1]; cbn in *; [|discriminate].
  apply Hf, Hm. reflexivity.
Qed.

Lemma yields_lift {A} (o : outcome A) (Q : A -> Prop) :
  (forall a, o = Return a -> Q a) -> yields (lift (rand:=rand) (result:=result) o) Q.
Proof. intros H s a Ha. apply H, Ha. Qed.

Lemma yields_always {A} (m : M rand result A) (Q : A -> Prop) :
  (forall a, Q a) -> yields m Q.
Proof. intros H s a _. apply H. Qed.

Lemma yields_for_foldM_seq {B} (f : B -> nat -> M rand result B)
    (I : nat -> B -> Prop) (n a : nat) (b : B) :
  I a b ->
  (forall j b, a <= j < a + n -> I j b -> yields (f b j) (I (S j))) ->
  yields (for_foldM f (seq a n) b) (I (a + n)).
Proof.
  revert a b. induction n as [|n IH]; intros a b Hb Hstep; cbn [seq for_foldM].
  - intros s b' [= <-]. now rewrite Nat.add_0_r.
  - eapply yields_bind; [apply Hstep; [lia | exact Hb]|].
    intros b' Hb'. replace (a + S n) with (S a + n) by lia.
    apply IH; [exact Hb'|]. intros j b'' Hj. apply Hstep. lia.
Qed.

Lemma total_bind {A B} (m : M rand result A) (f : A -> M rand result B)
    (Q1 : A -> Prop) (Q2 : B -> Prop) :
  total m Q1 -> (forall a, Q1 a -> total (f a) Q2) -> total (bind m f) Q2.
Proof.
  intros Hm Hf s. unfold bind. destruct (Hm s) as (a & Ha & Hq).
  destruct (m s) as [o s1]; cbn in Ha; subst o. apply Hf, Hq.
Qed.

Lemma total_lift {A} (a : A) (Q : A -> Prop) :
  Q a -> total (lift (rand:=rand) (result:=result) (Return a)) Q.
Proof. intros H s. exists a. split; [reflexivity | exact H]. Qed.

Lemma total_method {A} (g : list chromosome -> rand -> A * rand) (Q : A -> Prop) :
  (forall p r, Q (fst (g p r))) -> total (method (result:=result) g) Q.
Proof.
  intros H s. unfold method, draw. specialize (H (pop s) (seed s)).
  destruct (g (pop s) (seed s)) as [a r]. exists a. split; [reflexivity | exact H].
Qed.

Lemma total_for_foldM {A B} (f : B -> A -> M rand result B) (J : B -> Prop)
    (l : list A) (b : B) :
  J b -> (forall a b, a ∈ l -> J b -> total (f b a) J) ->
  total (for_foldM f l b) J.
Proof.
  revert b. induction l as [|a l IH]; intros b Hb Hstep; cbn [for_foldM].
  - intros s. exists b. split; [reflexivity | exact Hb].
  - eapply total_bind; [apply Hstep; [apply list_elem_of_here | exact Hb]|].
    intros b' Hb'. apply IH; [exact Hb'|].
    intros a' b'' Ha'. apply Hstep, list_elem_of_further, Ha'.
Qed.

Lemma assign_Return {A} (l : list A) (i : nat) (a : A) (l' : list A) :
  assign l i a = Return l' -> i < length l /\ l' = <[i:=a]> l.
Proof.
  unfold assign. destruct (decide (i < length l)); [|discriminate].
  intros [= <-]. split; [assumption | reflexivity].
Qed.

Lemma index_Return {A} (l : list A) (i : nat) (a : A) :
  index l i = Return a -> l !! i = Some a.
Proof. unfold index. destruct (l !! i); [intros [= ->]; reflexivity | discriminate]. Qed.

Lemma index_lt {A} (l : list A) (i : nat) :
  i < length l -> exists a, index l i = Return a.
Proof.
  intros Hi. destruct (lookup_lt_is_Some_2 l i Hi) as [a Ha].
  exists a. unfold index. now rewrite Ha.
Qed.

Variable npr : np_random rand.
Variable population : Slgep_pop rand result.

(** [np.random.choice] returns an entry of its argument. *)
Lemma yields_random_choice {A} (l : list A) :
  yields (random_choice (result:=result) npr l) (fun x => x ∈ l).
Proof.
  unfold random_choice. destruct l as [|x l]; [intros s a; discriminate|].
  eapply yields_bind; [apply (yields_always _ (fun _ => True)); exact (fun _ => I)|].
  intros i _. apply yields_lift. intros a Ha.
  apply index_Return in Ha. eapply list_elem_of_lookup_2, Ha.
Qed.

Lemma total_random_choice {A} (l : list A) :
  randint_in_range npr -> l <> [] ->
  total (random_choice (result:=result) npr l) (fun _ => True).
Proof.
  intros Hin Hne s. unfold random_choice. destruct l as [|x l]; [congruence|].
  unfold bind, draw. specialize (Hin (length (x :: l)) (seed s)).
  destruct (random_randint npr (length (x :: l)) (seed s)) as [i r].
  cbn [fst] in Hin. destruct (index_lt (x :: l) i) as [a Ha]; [cbn in *; lia|].
  exists a. unfold lift. cbn. rewrite Ha. split; [reflexivity | exact I].
Qed.

(** [cl[i] = mutate(cl[i], ...)] touches the entry [i] only. *)
Lemma yields_mutate_child mr cl i pm :
  yields (mutate_child population mr cl i pm)
         (fun cl' => length cl' = length cl /\
                     forall j, j <> i -> cl' !! j = cl !! j).
Proof.
  unfold mutate_child.
  eapply yields_bind; [apply (yields_always _ (fun _ => True)); exact (fun _ => I)|].
  intros c _.
  eapply yields_bind; [apply (yields_always _ (fun _ => True)); exact (fun _ => I)|].
  intros c' _. apply yields_lift. intros cl' Hcl'.
  apply assign_Return in Hcl' as [Hi ->].
  split; [apply length_insert|]. intros j Hj. apply list_lookup_insert_ne. lia.
Qed.

Lemma total_mutate_child mr cl i pm :
  i < length cl ->
  total (mutate_child population mr cl i pm) (fun cl' => length cl' = length cl).
Proof.
  intros Hi. unfold mutate_child.
  destruct (index_lt cl i Hi) as [c Hc]. rewrite Hc.
  eapply total_bind; [apply total_lift; exact I|]. intros c0 _.
  eapply total_bind; [apply (total_method _ (fun _ => True)); intros; exact I|].
  intros c' _. unfold assign. destruct (decide (i < length cl)); [|lia].
  apply total_lift, length_insert.
Qed.

Lemma assign_sf_Return cl i t cl' :
  assign_sf cl i t = Return cl' ->
  length cl' = length cl /\
  (forall j, j <> i -> cl' !! j = cl !! j) /\
  exists c, cl' !! i = Some c /\ sf c = t.
Proof.
  unfold assign_sf. destruct (index cl i) as [c | e] eqn:Hc; [|discriminate].
  cbn [mbind outcome_bind]. intros H. apply assign_Return in H as [Hi ->].
  split; [apply length_insert|]. split.
  - intros j Hj. apply list_lookup_insert_ne. lia.
  - exists (set_sf t c). split; [apply list_lookup_insert_eq, Hi | reflexivity].
Qed.

Lemma assign_sf_lt cl i t :
  i < length cl -> exists cl', assign_sf cl i t = Return cl' /\ length cl' = length cl.
Proof.
  intros Hi. unfold assign_sf. destruct (index_lt cl i Hi) as [c ->].
  cbn [mbind outcome_bind]. unfold assign.
  destruct (decide (i < length cl)); [|lia].
  eexists. split; [reflexivity | apply length_insert].
Qed.

End ValueRules.

(** ** The cross-task branch *)

(** C6.  In the cross-task branch every child gets the skill factor of one
    of the parents: each of the [no_p] children returned by the branch has a
    skill factor that is a member of the parents' skill factors.  The draw is
    [np.random.choice] on the list of the parents' skill factors: the entry
    at a random index below its length.  And the branch does return [no_p]
    children when the crossover gives as many children as parents and the
    random indices are in range. *)
Theorem cross_task_children_skill_factors {rand result : Type}
    (npr : Mfeaii.np_random rand) (population : Mfeaii.Slgep_pop rand result)
    (mr : R) (rmp_matrix : Mfeaii.matrix) (parents : list Mfeaii.chromosome)
    (bl : Mfeaii.matrix) (no_p : nat) :
  (forall s cl s',
     Mfeaii.cross_task_children npr population mr rmp_matrix parents bl no_p s
     = (Return cl, s') ->
     forall i, i < no_p ->
       exists c, cl !! i = Some c /\ Mfeaii.sf c ∈ map Mfeaii.sf parents) /\
  (forall (sf_assign : list nat) (s : Mfeaii.state rand result),
     sf_assign <> [] ->
     fst (Mfeaii.random_choice npr sf_assign s)
     = index sf_assign
         (fst (Mfeaii.random_randint npr (length sf_assign) (Mfeaii.seed s)))) /\
  (randint_in_range npr -> crossover_second_keeps_count population ->
   length parents = no_p -> 0 < no_p ->
   forall s, exists cl,
     fst (Mfeaii.cross_task_children npr population mr rmp_matrix parents bl
            no_p s) = Return cl /\
     length cl = no_p).
Proof.
  split; [|split].
  - intros s cl s' Hrun.
    assert (Hy : yields (Mfeaii.cross_task_children npr population mr
                           rmp_matrix parents bl no_p)
                   (fun cl => forall i, i < 0 + no_p ->
                      exists c, cl !! i = Some c /\
                                Mfeaii.sf c ∈ map Mfeaii.sf parents)).
    { unfold Mfeaii.cross_task_children.
      eapply yields_bind;
        [apply (yields_always _ (fun _ => True)); exact (fun _ => I)|].
      intros cl0 _. unfold range.
      apply (yields_for_foldM_seq _
               (fun j cl => forall i, i < j ->
                  exists c, cl !! i = Some c /\
                            Mfeaii.sf c ∈ map Mfeaii.sf parents)).
      { intros i Hi. lia. }
      intros j cl1 Hj Hinv.
      eapply yields_bind; [apply yields_mutate_child|].
      intros cl2 [_ Hsame]. cbv zeta.
      eapply yields_bind; [apply yields_random_choice|].
      intros t Ht. apply yields_lift. intros cl3 Hcl3.
      apply assign_sf_Return in Hcl3 as (_ & Hother & c & Hc & Hsf).
      intros i Hi. destruct (decide (i = j)) as [-> | Hne].
      - exists c. split; [exact Hc | now rewrite Hsf].
      - rewrite Hother, Hsame by exact Hne. apply Hinv. lia. }
    apply (Hy s cl). now rewrite Hrun.
  - intros sf_assign s Hne. unfold Mfeaii.random_choice.
    destruct sf_assign as [|t l]; [congruence|].
    unfold Mfeaii.bind, Mfeaii.draw, Mfeaii.lift.
    destruct (Mfeaii.random_randint npr (length (t :: l)) (Mfeaii.seed s))
      as [i r].
    reflexivity.
  - intros Hin Hcount Hlen Hpos.
    assert (Hne : map Mfeaii.sf parents <> []).
    { destruct parents; [cbn in Hlen; lia | discriminate]. }
    assert (Ht : total (Mfeaii.cross_task_children npr population mr
                          rmp_matrix parents bl no_p)
                   (fun cl => length cl = no_p)).
    { unfold Mfeaii.cross_task_children.
      eapply total_bind.
      { apply (total_method _ (fun cl => length cl = no_p)).
        intros p r. now rewrite Hcount. }
      intros cl0 Hcl0. apply total_for_foldM; [exact Hcl0|].
      intros j cl1 Hj Hcl1. unfold range in Hj. apply elem_of_seq in Hj.
      eapply total_bind; [apply total_mutate_child; lia|].
      intros cl2 Hcl2. cbv beta zeta in Hcl2 |- *.
      eapply total_bind; [apply (total_random_choice npr _ Hin Hne)|].
      intros t _.
      destruct (assign_sf_lt cl2 j t ltac:(lia)) as (cl3 & -> & Hcl3).
      apply total_lift. congruence. }
    intros s. apply Ht.
Qed.

(** C6 on two parents of tasks 0 and 1. *)
Lemma cross_task_children_skill_factors_witness :
  exists c,
    [Mfeaii.set_sf 0 (Examples.chrom 0 1); Mfeaii.set_sf 0 (Examples.chrom 1 2)]
      !! 1 = Some c /\
    Mfeaii.sf c ∈ map Mfeaii.sf [Examples.chrom 0 1; Examples.chrom 1 2].
Proof.
  destruct (cross_task_children_skill_factors Examples.fixed_random
              (Examples.copying_pop 2) (1 / 10) (Examples.ones 2)
              [Examples.chrom 0 1; Examples.chrom 1 2]
              (replicate 2 (replicate 2 (7 / 10)%R)) 2) as (H & _ & _).
  apply (H (Examples.start Examples.mixed4) _
           (Examples.start Examples.mixed4)); [reflexivity | lia].
Defined.

(** ** One task only *)

Section SingleTask.

Import Mfeaii.
Context {rand result : Type}.
Variable npr : np_random rand.
Variable population : Slgep_pop rand result.

Local Abbreviation R := (same_reported (rand:=rand) (result:=result)).
Local Abbreviation HR := (same_reported_blind (rand:=rand) (result:=result)).

Lemma keeps_rewrite_pop f : keeps R (rewrite_pop f).
Proof.
  intros s. unfold rewrite_pop. destruct (f (pop s) (seed s)). reflexivity.
Qed.

Lemma keeps_construct args : keeps R (construct population args).
Proof.
  intros s. unfold construct.
  destruct (new_pop population args (seed s)) as [[p | e] r]; reflexivity.
Qed.

Lemma keeps_pop_set_reported i c : keeps R (pop_set i c).
Proof.
  intros s. unfold pop_set. destruct (assign (pop s) i c); reflexivity.
Qed.

Lemma keeps_pairing_loop_reported N no_par D mr pmdi nb rmp subpops :
  keeps R (pairing_loop npr population N no_par D mr pmdi nb rmp subpops).
Proof.
  unfold pairing_loop. apply (keeps_bind _ HR); [apply keeps_lift, HR|].
  intros ks. apply (keeps_for_each _ HR). intros k _.
  apply keeps_pair_group_via; [exact HR|]. intros cl.
  unfold replace_with_children. apply (keeps_for_each _ HR). intros i _.
  apply (keeps_bind _ HR); [apply keeps_lift, HR|].
  intros c. apply keeps_pop_set_reported.
Qed.

Lemma fails_bind_l {A B} (m : M rand result A) (f : A -> M rand result B) :
  fails_keeping R m -> fails_keeping R (bind m f).
Proof.
  intros Hm s. rewrite bind_run. destruct (Hm s) as [[e He] Hk].
  destruct (m s) as [o s1]. cbn in He, Hk. subst o. cbn. eauto.
Qed.

Lemma fails_bind_r {A B} (m : M rand result A) (f : A -> M rand result B) :
  keeps R m ->
  (forall a s, fst (m s) = Return a -> fails_keeping R (f a)) ->
  fails_keeping R (bind m f).
Proof.
  intros Hm Hf s. rewrite bind_run. specialize (Hm s).
  assert (Hf' : forall a, fst (m s) = Return a -> fails_keeping R (f a))
    by (intros a; apply Hf).
  destruct (m s) as [[a | e] s1]; cbn in *; [|eauto].
  destruct (Hf' a eq_refl s1) as [He Hk]. split; [exact He|].
  unfold same_reported in *. congruence.
Qed.

Lemma mat_get_single (m : matrix) : square 1 m -> mat_get m 0 1 = Raise IndexError.
Proof.
  intros [Hlen Hrows]. destruct m as [|row [|row' m]]; try discriminate Hlen.
  apply Forall_cons in Hrows as [Hrow _].
  destruct row as [|x [|y row]]; try discriminate Hrow. reflexivity.
Qed.

Lemma generation_single_task envs N no_par D mr pmdi callback nb t :
  learn_rmp_square population 1 ->
  fails_keeping R
    (generation npr population envs N no_par D mr pmdi callback nb t).
Proof.
  intros Hsq. unfold generation.
  apply fails_bind_r; [apply keeps_rewrite_pop|]. intros _ _ _.
  apply fails_bind_r; [intros s; reflexivity|]. intros subpops _ _.
  apply fails_bind_r; [apply (keeps_method _ HR)|]. intros rmp s Hrmp.
  assert (Hone : square 1 rmp).
  { unfold method, draw in Hrmp. specialize (Hsq (pop s) subpops (seed s)).
    destruct (learn_rmp population (pop s) subpops (seed s)) as [m r].
    cbn in Hrmp, Hsq. now injection Hrmp as <-. }
  apply fails_bind_r; [apply keeps_pairing_loop_reported|]. intros _ _ _.
  apply fails_bind_r; [apply keeps_rewrite_pop|]. intros _ _ _.
  apply fails_bind_r; [apply keeps_rewrite_pop|]. intros _ _ _.
  rewrite (mat_get_single rmp Hone). intros s'. split; [eauto | reflexivity].
Qed.

End SingleTask.

(** C10.  With one task the driver never reaches the reporting callback.  A
    1-by-1 RMP matrix has no entry [0, 1]: indexing it raises [IndexError].
    So when [learn_rmp] answers K-by-K matrices and K = 1, every generation
    ends with an exception and without a call of the callback, and so does
    every run of at least one generation. *)
Theorem single_task_never_reports {rand result : Type}
    (npr : Mfeaii.np_random rand) (population : Mfeaii.Slgep_pop rand result)
    (envs : list Mfeaii.env) (cfg : Mfeaii.config)
    (callback normal_beta : bool) :
  length envs = 1 ->
  learn_rmp_square population (length envs) ->
  (forall m, square (length envs) m -> Mfeaii.mat_get m 0 1 = Raise IndexError) /\
  (forall N no_par D mr pmdi t s,
     let run := Mfeaii.generation npr population envs N no_par D mr pmdi
                  callback normal_beta t s in
     (exists e, fst run = Raise e) /\
     Mfeaii.reported (snd run) = Mfeaii.reported s) /\
  (0 < Mfeaii.num_iter cfg ->
   forall s,
     let run := Mfeaii.mfeaii_mgp npr population envs cfg callback
                  normal_beta s in
     (exists e, fst run = Raise e) /\
     Mfeaii.reported (snd run) = Mfeaii.reported s).
Proof.
  intros HK Hsq. rewrite HK in *. split; [|split].
  - apply mat_get_single.
  - intros N no_par D mr pmdi t s.
    apply (generation_single_task npr population envs N no_par D mr pmdi
             callback normal_beta t Hsq s).
  - intros HT s.
    pose proof (same_reported_blind (rand:=rand) (result:=result)) as HR.
    assert (Hrun : fails_keeping same_reported
                     (Mfeaii.mfeaii_mgp npr population envs cfg callback
                        normal_beta)).
    { unfold Mfeaii.mfeaii_mgp. cbv zeta.
      apply fails_bind_r; [apply keeps_lift, HR|]. intros args _ _.
      apply fails_bind_r; [apply keeps_construct|]. intros _ _ _.
      apply fails_bind_r; [apply keeps_pop_get, HR|]. intros p0 _ _.
      apply fails_bind_r; [apply keeps_rewrite_pop|]. intros _ _ _.
      apply fails_bind_r; [apply keeps_rewrite_pop|]. intros _ _ _.
      destruct (Mfeaii.num_iter cfg) as [|T]; [lia|].
      cbn [range seq Mfeaii.for_each].
      apply fails_bind_l, generation_single_task, Hsq. }
    apply Hrun.
Qed.

(** C10 on one [doublepole_710] task, two individuals, one generation. *)
Lemma single_task_never_reports_witness :
  exists e,
    fst (Mfeaii.mfeaii_mgp Examples.fixed_random (Examples.copying_pop 1)
           [Examples.doublepole_710] (Examples.cfg 2 1 2 2 (1 / 2)) true true
           (Examples.start []))
    = Raise e.
Proof.
  destruct (single_task_never_reports Examples.fixed_random
              (Examples.copying_pop 1) [Examples.doublepole_710]
              (Examples.cfg 2 1 2 2 (1 / 2)) true true eq_refl) as (_ & _ & H).
  - intros p subpops r. split; [reflexivity|]. repeat constructor.
  - apply (H ltac:(cbn; lia) (Examples.start [])).
Defined.

(** * The symbol tables and the guards of the primitives *)

Section TableFacts.
Import SymbolTables.

Lemma format_d_inj : Inj eq eq format_d.
Proof.
  intros i j H. unfold format_d in H.
  apply (f_equal NilEmpty.uint_of_string) in H.
  rewrite !NilEmpty.usu in H. injection H as H.
  apply (f_equal Nat.of_uint) in H. now rewrite !Unsigned.of_to in H.
Qed.

Lemma append_inj_r (p : string) : Inj eq eq (String.append p).
Proof.
  induction p as [|c p IH]; intros a b H; cbn in H; [exact H|].
  injection H as H. apply IH, H.
Qed.

Lemma NoDup_numbered (p : string) (n : nat) :
  NoDup (map (fun i => String.append p (format_d i)) (range n)).
Proof.
  apply NoDup_fmap_2_strong; [|apply NoDup_seq].
  intros i j _ _ H. apply format_d_inj. eapply append_inj_r, H.
Qed.

End TableFacts.

(** X3.  A name identifies its table and its row: whatever the numbers of
    ADFs, of ADF parameters and of terminals, the names of the primitives,
    of the ADFs ([ADF0], [ADF1], ...), of the parameters ([a0], ...) and of
    the terminals ([x0], ...) are pairwise distinct. *)
Theorem symbol_names_distinct (np : FunctionSet.numpy)
    (no_adf max_arity no_terminal : nat) :
  NoDup (map FunctionSet.name (FunctionSet.create_function_set np)
         ++ map SymbolTables.name (SymbolTables.create_adfs_set no_adf max_arity)
         ++ map SymbolTables.name (SymbolTables.create_adfs_terminal_set max_arity)
         ++ map SymbolTables.name (SymbolTables.create_terminal_set no_terminal)).
Proof.
  unfold SymbolTables.create_adfs_set, SymbolTables.create_adfs_terminal_set,
    SymbolTables.create_terminal_set.
  rewrite !map_map. cbn [SymbolTables.name].
  apply NoDup_app. split; [|split].
  - cbn. repeat (apply NoDup_cons; split;
      [intros H; repeat (apply elem_of_cons in H as [H | H]; [discriminate H|]);
       inversion H|]).
    apply NoDup_nil_2.
  - intros x Hx Hin. cbn in Hx.
    rewrite !elem_of_app in Hin.
    destruct Hin as [Hin | [Hin | Hin]];
      apply list_elem_of_fmap in Hin as (i & -> & _);
      repeat (apply elem_of_cons in Hx as [Hx | Hx]; [discriminate Hx|]);
      inversion Hx.
  - apply NoDup_app. split; [apply NoDup_numbered|]. split.
    + intros x Hx Hin. apply list_elem_of_fmap in Hx as (i & -> & _).
      rewrite elem_of_app in Hin.
      destruct Hin as [Hin | Hin];
        apply list_elem_of_fmap in Hin as (j & Hj & _); discriminate Hj.
    + apply NoDup_app. split; [apply NoDup_numbered|]. split.
      * intros x Hx Hin. apply list_elem_of_fmap in Hx as (i & -> & _).
        apply list_elem_of_fmap in Hin as (j & Hj & _); discriminate Hj.
      * apply NoDup_numbered.
Qed.

Section GuardFacts.
Import FunctionSet.

Lemma np_abs_idem a : np_abs (np_abs a) = np_abs a.
Proof. destruct a; reflexivity. Qed.

Lemma eq0_np_abs a : eq0 (np_abs a) = eq0 a.
Proof. destruct a as [[|]|[|]| |[|] m e]; reflexivity. Qed.

Lemma np_abs_opp a : np_abs (SFopp a) = np_abs a.
Proof. destruct a; reflexivity. Qed.

Lemma returns_not_raise {A} (o : outcome A) e : returns o -> o <> Raise e.
Proof. intros [a ->]. discriminate. Qed.

End GuardFacts.

(** X4.  The ['arity'] entry of a row of the function table is the number of
    parameters of its lambda: calling the row's function raises [TypeError]
    exactly when the number of arguments is not the recorded arity. *)
Theorem arity_is_parameter_count (np : FunctionSet.numpy)
    (p : FunctionSet.primitive) (args : list FunctionSet.float64) :
  p ∈ FunctionSet.FUNCTION_SET np ->
  (FunctionSet.call (FunctionSet.func p) args = Raise TypeError
   <-> length args <> FunctionSet.arity p).
Proof.
  intros Hp. unfold FunctionSet.FUNCTION_SET in Hp.
  repeat (apply elem_of_cons in Hp as [-> | Hp]); [.. | inversion Hp];
    destruct args as [|x [|y [|z args]]]; cbn [FunctionSet.call FunctionSet.func
      FunctionSet.arity length];
    (split; [intros H | intros H]); try reflexivity; try lia; try congruence;
    exfalso; revert H; apply returns_not_raise;
    first [ apply (binary_returns np x y) | apply (unary_returns np x)
          | apply (unary_returns np (FunctionSet.np_abs x)) ].
Qed.

(** X4 on the [sin] row called with two arguments. *)
Lemma arity_is_parameter_count_witness :
  FunctionSet.call (FunctionSet.Lambda1 (fun a => FunctionSet.take_sin FunctionSet.quiet_numpy a))
    [FunctionSet.one; FunctionSet.one] = Raise TypeError.
Proof.
  apply (arity_is_parameter_count FunctionSet.quiet_numpy
           {| FunctionSet.name := "sin";
              FunctionSet.func := FunctionSet.Lambda1
                (fun a => FunctionSet.take_sin FunctionSet.quiet_numpy a);
              FunctionSet.arity := 1 |}
           [FunctionSet.one; FunctionSet.one]).
  - unfold FunctionSet.FUNCTION_SET. do 4 apply list_elem_of_further.
    apply list_elem_of_here.
  - simpl. lia.
Defined.

(** X5.  The guards keep numpy inside its domain.  [divide] never hands a
    zero divisor to [np.divide], [exp] never hands [np.exp] an argument from
    88 on, and the row [ln|x|] hands [np.log] only floats that are their own
    absolute value and are not zero: two numpys that agree there give the
    same [divide], [exp] and [ln|x|].  And [ln|x|] does not see the sign of
    its argument. *)
Theorem numpy_called_inside_guards (np1 np2 : FunctionSet.numpy) :
  (forall a b, FunctionSet.eq0 b = false ->
     FunctionSet.divide_flag np1 a b = FunctionSet.divide_flag np2 a b) ->
  (forall a, FunctionSet.ge88 a = false ->
     FunctionSet.np_exp np1 a = FunctionSet.np_exp np2 a) ->
  (forall a, FunctionSet.eq0 a = false -> FunctionSet.np_abs a = a ->
     FunctionSet.np_log np1 a = FunctionSet.np_log np2 a) ->
  (forall a b, FunctionSet.divide np1 a b = FunctionSet.divide np2 a b) /\
  (forall a, FunctionSet.exp np1 a = FunctionSet.exp np2 a) /\
  (forall a, FunctionSet.log np1 (FunctionSet.np_abs a)
             = FunctionSet.log np2 (FunctionSet.np_abs a)) /\
  (forall a, FunctionSet.log np1 (FunctionSet.np_abs (SFopp a))
             = FunctionSet.log np1 (FunctionSet.np_abs a)).
Proof.
  intros Hdiv Hexp Hlog. split; [|split; [|split]].
  - intros a b. unfold FunctionSet.divide, FunctionSet.np_divide, FunctionSet.ufunc2.
    destruct (FunctionSet.eq0 b) eqn:Hb; [reflexivity|].
    now rewrite (Hdiv a b Hb).
  - intros a. unfold FunctionSet.exp.
    destruct (FunctionSet.ge88 a) eqn:Ha; [reflexivity|].
    now rewrite (Hexp a Ha).
  - intros a. unfold FunctionSet.log.
    destruct (FunctionSet.eq0 (FunctionSet.np_abs a)) eqn:Ha; [reflexivity|].
    rewrite (Hlog _ Ha (np_abs_idem a)). reflexivity.
  - intros a. now rewrite np_abs_opp.
Qed.

(** X5 on 1/0 with two numpys that differ on a zero divisor. *)
Lemma numpy_called_inside_guards_witness :
  FunctionSet.divide FunctionSet.quiet_numpy FunctionSet.one FunctionSet.zero
  = FunctionSet.divide Scenarios.strict_numpy FunctionSet.one FunctionSet.zero.
Proof.
  refine (proj1 (numpy_called_inside_guards FunctionSet.quiet_numpy Scenarios.strict_numpy
                   _ _ _) FunctionSet.one FunctionSet.zero).
  - intros a b Hb. cbn. exact Hb.
  - intros a Ha. cbn. now rewrite Ha.
  - intros a Ha Habs. cbn. rewrite Ha.
    destruct a as [[|]|[|]| |[|] m e]; try reflexivity; discriminate Habs.
Defined.

(** X6.  The groups of [range(0, N, no_par)] partition the population: every
    group has at least one parent, and every index below [N] lies in the
    range [k, k + min(N - k, no_par)) of exactly one group. *)
Theorem groups_partition_population (N no_par : nat) (ks : list nat) :
  range_step N no_par = Return ks ->
  (forall k, k ∈ ks -> 1 <= Nat.min (N - k) no_par) /\
  (forall i, i < N ->
     exists k, (k ∈ ks /\ k <= i < k + Nat.min (N - k) no_par) /\
       forall k', k' ∈ ks -> k' <= i < k' + Nat.min (N - k') no_par -> k' = k).
Proof.
  intros Hks. destruct (range_step_spec _ _ _ Hks) as [Hpos Hspec]. split.
  - intros k Hk. destruct (Hspec k Hk) as [Hlt _]. lia.
  - intros i Hi.
    assert (Hin : (i / no_par) * no_par ∈ ks).
    { unfold range_step in Hks.
      assert (Heq : ks = map (fun q => q * no_par)
                           (seq 0 ((N + no_par - 1) / no_par))).
      { destruct no_par; [lia | congruence]. }
      rewrite Heq. apply list_elem_of_fmap. exists (i / no_par).
      split; [reflexivity|]. apply elem_of_seq. split; [lia|].
      cbn [Nat.add].
      pose proof (Nat.Div0.mul_div_le i no_par) as Hle.
      assert (H1 : i / no_par + 1 <= (N + no_par - 1) / no_par).
      { apply Nat.div_le_lower_bound; [lia|]. nia. }
      lia. }
    pose proof (Nat.Div0.mul_div_le i no_par) as Hle.
    pose proof (Nat.mul_succ_div_gt i no_par ltac:(lia)) as Hgt.
    exists (i / no_par * no_par). split.
    + split; [exact Hin|]. split; [lia|].
      destruct (Nat.min_spec (N - i / no_par * no_par) no_par) as [[_ ->] | [_ ->]];
        lia.
    + intros k' Hk' Hr. destruct (Hspec k' Hk') as [_ [q' ->]].
      assert (Hq : q' = i / no_par).
      { assert (q' * no_par <= i) by lia.
        assert (i < q' * no_par + no_par) by lia.
        apply Nat.div_unique with (r := i - q' * no_par); lia. }
      now rewrite Hq.
Qed.

(** X6 at N = 5 and groups of 2: the index 4 is in one group. *)
Lemma groups_partition_population_witness :
  exists k, (k ∈ [0; 2; 4] /\ k <= 4 < k + Nat.min (5 - k) 2) /\
    forall k', k' ∈ [0; 2; 4] -> k' <= 4 < k' + Nat.min (5 - k') 2 -> k' = k.
Proof.
  apply (proj2 (groups_partition_population 5 2 [0; 2; 4] eq_refl) 4). lia.
Defined.

(** * More on the driver *)

Section RunRules.

Import Mfeaii.
Context {rand result : Type}.
Implicit Types s : state rand result.

Lemma bind_Return {A B} (m : M rand result A) (f : A -> M rand result B)
    s (b : B) s' :
  bind m f s = (Return b, s') ->
  exists a s1, m s = (Return a, s1) /\ f a s1 = (Return b, s').
Proof.
  unfold bind. destruct (m s) as [[a | e] s1]; [eauto | discriminate].
Qed.

Lemma keeps_run {A} (R : state rand result -> state rand result -> Prop)
    (m : M rand result A) s o s' :
  keeps R m -> m s = (o, s') -> R s s'.
Proof. intros Hk Hrun. specialize (Hk s). now rewrite Hrun in Hk. Qed.

Lemma yields_run {A} (m : M rand result A) (Q : A -> Prop) s a s' :
  yields m Q -> m s = (Return a, s') -> Q a.
Proof. intros Hy Hrun. apply (Hy s a). now rewrite Hrun. Qed.

(** *** The write-back loop *)

Lemma write_back_Return N k cl (n a : nat) s s' :
  for_each (seq a n)
    (fun i => bind (lift (index cl i)) (fun c => pop_set (N + k + i) c)) s
  = (Return tt, s') ->
  seed s' = seed s /\ reported s' = reported s /\
  length (pop s') = length (pop s) /\
  (forall i, a <= i < a + n ->
     exists c, cl !! i = Some c /\ pop s' !! (N + k + i) = Some c) /\
  (forall j, ~ (N + k + a <= j < N + k + a + n) -> pop s' !! j = pop s !! j).
Proof.
  revert a s. induction n as [|n IH]; intros a s Hrun; cbn [seq for_each] in Hrun.
  - injection Hrun as <-. do 3 (split; [reflexivity|]).
    split; [intros i Hi; lia | intros j _; reflexivity].
  - apply bind_Return in Hrun as ([] & s1 & Hhead & Hrest).
    apply bind_Return in Hhead as (c & s0 & Hc & Hset).
    unfold lift in Hc. injection Hc as Hc <-. apply index_Return in Hc.
    unfold pop_set, assign in Hset.
    destruct (decide (N + k + a < length (pop s))) as [Hlt|]; [|discriminate].
    injection Hset as <-.
    destruct (IH _ _ Hrest) as (Hseed & Hrep & Hlen & Hin & Hout).
    cbn [pop seed reported] in *. rewrite length_insert in Hlen.
    split; [exact Hseed|]. split; [exact Hrep|]. split; [exact Hlen|]. split.
    + intros i Hi. destruct (decide (i = a)) as [-> | Hne].
      * exists c. split; [exact Hc|]. rewrite Hout by lia.
        now apply list_lookup_insert_eq.
      * apply Hin. lia.
    + intros j Hj. rewrite Hout by lia. apply list_lookup_insert_ne. lia.
Qed.

Lemma write_back_total N k cl (n a : nat) s :
  a + n <= length cl -> N + k + a + n <= length (pop s) ->
  exists s',
    for_each (seq a n)
      (fun i => bind (lift (index cl i)) (fun c => pop_set (N + k + i) c)) s
    = (Return tt, s').
Proof.
  revert a s. induction n as [|n IH]; intros a s Hcl Hpop; cbn [seq for_each].
  - eexists. reflexivity.
  - destruct (index_lt cl a ltac:(lia)) as [c Hc].
    unfold bind at 1. unfold bind at 1. unfold lift at 1. rewrite Hc.
    unfold pop_set, assign.
    destruct (decide (N + k + a < length (pop s))); [|lia].
    apply IH; [lia|]. cbn [pop]. rewrite length_insert. lia.
Qed.

Lemma write_back_fails N k cl (n a : nat) s :
  0 < n ->
  length cl < a + n \/ length (pop s) < N + k + a + n ->
  fst (for_each (seq a n)
         (fun i => bind (lift (index cl i)) (fun c => pop_set (N + k + i) c)) s)
  = Raise IndexError.
Proof.
  revert a s. induction n as [|n IH]; intros a s Hpos Hshort; cbn [seq for_each].
  - lia.
  - unfold bind at 1. unfold bind at 1. unfold lift at 1. unfold index.
    destruct (cl !! a) as [c|] eqn:Hc; [|reflexivity].
    apply lookup_lt_Some in Hc.
    unfold pop_set, assign.
    destruct (decide (N + k + a < length (pop s))); [|reflexivity].
    apply IH; cbn [pop]; rewrite ?length_insert; lia.
Qed.

End RunRules.

(** X10.  The write-back of lines 125-126.  When there are [no_p] children
    and the population has the slots [N + k .. N + k + no_p - 1], the loop
    returns, the slot [N + k + i] holds the child [cl[i]] for every
    [i < no_p], and every other slot, the generator and the reports are
    what they were.  With too few children, or with children to write and
    too few slots, it raises [IndexError]. *)
Theorem write_back_places_children {rand result : Type} (N k no_p : nat)
    (cl : list Mfeaii.chromosome) (s : Mfeaii.state rand result) :
  let run := Mfeaii.replace_with_children N k no_p cl s in
  (no_p <= length cl -> N + k + no_p <= length (Mfeaii.pop s) ->
   fst run = Return tt /\
   Mfeaii.seed (snd run) = Mfeaii.seed s /\
   Mfeaii.reported (snd run) = Mfeaii.reported s /\
   length (Mfeaii.pop (snd run)) = length (Mfeaii.pop s) /\
   (forall i, i < no_p -> Mfeaii.pop (snd run) !! (N + k + i) = cl !! i) /\
   (forall j, ~ (N + k <= j < N + k + no_p) ->
      Mfeaii.pop (snd run) !! j = Mfeaii.pop s !! j)) /\
  (length cl < no_p \/ (0 < no_p /\ length (Mfeaii.pop s) < N + k + no_p) ->
   fst run = Raise IndexError).
Proof.
  intros run. split.
  - intros Hcl Hpop.
    destruct (write_back_total N k cl no_p 0 s ltac:(lia) ltac:(lia)) as [s' Hrun].
    destruct (write_back_Return N k cl no_p 0 s s' Hrun)
      as (Hseed & Hrep & Hlen & Hin & Hout).
    unfold run, Mfeaii.replace_with_children, range. rewrite Hrun. cbn [fst snd].
    split; [reflexivity|]. split; [exact Hseed|]. split; [exact Hrep|].
    split; [exact Hlen|]. split.
    + intros i Hi. destruct (Hin i ltac:(lia)) as (c & -> & ->). reflexivity.
    + intros j Hj. apply Hout. lia.
  - intros Hshort. apply (write_back_fails N k cl no_p 0 s); lia.
Qed.

(** X10 on two children written to the slots 2 and 3. *)
Lemma write_back_places_children_witness :
  Mfeaii.pop (snd (Mfeaii.replace_with_children 2 0 2
                     [Examples.chrom 0 5; Examples.chrom 1 6]%R
                     (Examples.start Examples.mixed4)))
    !! (2 + 0 + 1)
  = Some (Examples.chrom 1 6).
Proof.
  destruct (write_back_places_children 2 0 2
              [Examples.chrom 0 5; Examples.chrom 1 6]%R
              (Examples.start Examples.mixed4)) as [H _].
  destruct H as (_ & _ & _ & _ & H & _); [simpl; lia | simpl; lia |].
  apply (H 1). lia.
Defined.

Section SkillFactorFacts.

Import Mfeaii.

(** The loop of lines 87-90 from any accumulator. *)
Lemma same_skill_factor_fold (ps : list chromosome) (m a : nat) (b : bool) :
  m = 0 \/ a + m < length ps ->
  exists b',
    for_fold (fun same_sf i =>
        p ← index ps i;
        q ← index ps (i + 1);
        Return (if decide (sf p ≠ sf q) then false else same_sf))
      (seq a m) b = Return b' /\
    (b' = true <->
     b = true /\
     forall i p q, a <= i < a + m -> ps !! i = Some p -> ps !! (i + 1) = Some q ->
                   sf p = sf q).
Proof.
  revert a b. induction m as [|m IH]; intros a b Hlen; cbn [seq for_fold].
  - exists b. split; [reflexivity|]. split; [intros ->; split; [reflexivity|]|tauto].
    intros i p q Hi. lia.
  - destruct (index_lt ps a ltac:(lia)) as [p Hp].
    destruct (index_lt ps (a + 1) ltac:(lia)) as [q Hq].
    rewrite Hp. cbn [mbind outcome_bind]. rewrite Hq. cbn [mbind outcome_bind].
    apply index_Return in Hp, Hq.
    destruct (IH (S a) (if decide (sf p ≠ sf q) then false else b) ltac:(lia))
      as (b' & -> & Hb').
    exists b'. split; [reflexivity|]. rewrite Hb'. clear Hb' IH.
    destruct (decide (sf p ≠ sf q)) as [Hne | Heq].
    + split; [intros [? _]; discriminate|].
      intros [_ H]. exfalso. apply Hne. apply (H a p q); [lia | exact Hp | exact Hq].
    + apply dec_stable in Heq. split.
      * intros [-> H]. split; [reflexivity|]. intros i p' q' Hi Hp' Hq'.
        destruct (decide (i = a)) as [-> | Hia].
        -- congruence.
        -- apply (H i); [lia | exact Hp' | exact Hq'].
      * intros [-> H]. split; [reflexivity|]. intros i p' q' Hi. apply H. lia.
Qed.

Lemma adjacent_equal_all_equal (ps : list chromosome) (n : nat) :
  n <= length ps ->
  (forall i p q, 0 <= i < 0 + (n - 1) -> ps !! i = Some p -> ps !! (i + 1) = Some q ->
                 sf p = sf q) ->
  forall i j p q, i < n -> j < n -> ps !! i = Some p -> ps !! j = Some q ->
                  sf p = sf q.
Proof.
  intros Hlen Hadj.
  assert (H0 : forall i p0 p, i < n -> ps !! 0 = Some p0 -> ps !! i = Some p ->
                              sf p = sf p0).
  { induction i as [|i IH]; intros p0 p Hi H0 Hp; [congruence|].
    destruct (lookup_lt_is_Some_2 ps i ltac:(lia)) as [p' Hp'].
    rewrite <- (IH p0 p' ltac:(lia) H0 Hp'). symmetry.
    apply (Hadj i p' p); [lia | exact Hp' |]. now rewrite Nat.add_1_r. }
  intros i j p q Hi Hj Hp Hq.
  destruct (lookup_lt_is_Some_2 ps 0 ltac:(lia)) as [p0 Hp0].
  rewrite (H0 i p0 p Hi Hp0 Hp), (H0 j p0 q Hj Hp0 Hq). reflexivity.
Qed.

Lemma same_skill_factor_spec (ps : list chromosome) (no_p : nat) :
  no_p <= length ps ->
  exists b,
    same_skill_factor ps no_p = Return b /\
    (b = true <->
     forall i j p q, i < no_p -> j < no_p -> ps !! i = Some p -> ps !! j = Some q ->
                     sf p = sf q).
Proof.
  intros Hlen. unfold same_skill_factor, range.
  destruct (same_skill_factor_fold ps (no_p - 1) 0 true ltac:(lia))
    as (b & Hb & Hiff).
  exists b. split; [exact Hb|]. rewrite Hiff. split.
  - intros [_ Hadj]. apply adjacent_equal_all_equal; [exact Hlen | exact Hadj].
  - intros Hall. split; [reflexivity|]. intros i p q Hi Hp Hq.
    apply (Hall i (i + 1)); [lia | lia | exact Hp | exact Hq].
Qed.

End SkillFactorFacts.

(** X8.  The flag of lines 87-90.  On a list of at least [no_p] parents the
    loop returns, and its flag is [True] exactly when the first [no_p]
    parents all have one skill factor (comparing neighbours is enough);
    with no or one parent it is [True]. *)
Theorem same_skill_factor_iff_one_skill (parents : list Mfeaii.chromosome)
    (no_p : nat) :
  no_p <= length parents ->
  exists b,
    Mfeaii.same_skill_factor parents no_p = Return b /\
    (b = true <->
     forall i j p q, i < no_p -> j < no_p ->
       parents !! i = Some p -> parents !! j = Some q ->
       Mfeaii.sf p = Mfeaii.sf q).
Proof. apply same_skill_factor_spec. Qed.

(** X8 on two parents of the tasks 0 and 1. *)
Lemma same_skill_factor_iff_one_skill_witness :
  exists b,
    Mfeaii.same_skill_factor [Examples.chrom 0 1; Examples.chrom 1 2]%R 2
    = Return b /\
    (b = true <->
     forall i j p q, i < 2 -> j < 2 ->
       [Examples.chrom 0 1; Examples.chrom 1 2]%R !! i = Some p ->
       [Examples.chrom 0 1; Examples.chrom 1 2]%R !! j = Some q ->
       Mfeaii.sf p = Mfeaii.sf q).
Proof.
  apply (same_skill_factor_iff_one_skill
           [Examples.chrom 0 1; Examples.chrom 1 2]%R 2).
  simpl. lia.
Defined.

Section BranchFacts.

Import Mfeaii.
Context {rand result : Type}.
Variable npr : np_random rand.
Variable population : Slgep_pop rand result.
Implicit Types s : state rand result.

Lemma lift_run {A} (o : outcome A) s (a : A) s' :
  lift o s = (Return a, s') -> o = Return a /\ s' = s.
Proof. unfold lift. intros [= -> ->]. split; reflexivity. Qed.

(** The loop that mutates every child and gives it the skill factor of
    parent 0 (lines 98-100 and 120-122). *)
Lemma yields_inherit_loop mr pm (parents : list chromosome) p0 no_p cl0 :
  parents !! 0 = Some p0 ->
  yields (for_foldM (fun cl i =>
            bind (mutate_child population mr cl i pm) (fun cl =>
            bind (lift (index parents 0)) (fun p0 =>
            lift (assign_sf cl i (sf p0)))))
          (range no_p) cl0)
         (fun cl => forall i, i < 0 + no_p ->
                      exists c, cl !! i = Some c /\ sf c = sf p0).
Proof.
  intros Hp0. unfold range.
  apply (yields_for_foldM_seq _
           (fun j cl => forall i, i < j -> exists c, cl !! i = Some c /\ sf c = sf p0)).
  { intros i Hi. lia. }
  intros j cl1 Hj Hinv.
  eapply yields_bind; [apply yields_mutate_child|].
  intros cl2 [_ Hsame].
  eapply yields_bind; [apply yields_lift; intros p Hp; exact Hp|].
  intros p Hp. apply index_Return in Hp.
  assert (p = p0) as -> by congruence.
  apply yields_lift. intros cl3 Hcl3.
  apply assign_sf_Return in Hcl3 as (_ & Hother & c & Hc & Hsf).
  intros i Hi. destruct (decide (i = j)) as [-> | Hne].
  - exists c. split; [exact Hc | exact Hsf].
  - rewrite Hother, Hsame by exact Hne. apply Hinv. lia.
Qed.

Lemma total_inherit_loop mr pm (parents : list chromosome) p0 no_p cl0 :
  parents !! 0 = Some p0 -> length cl0 = no_p ->
  total (for_foldM (fun cl i =>
            bind (mutate_child population mr cl i pm) (fun cl =>
            bind (lift (index parents 0)) (fun p0 =>
            lift (assign_sf cl i (sf p0)))))
          (range no_p) cl0)
        (fun cl => length cl = no_p).
Proof.
  intros Hp0 Hcl0. apply total_for_foldM; [exact Hcl0|].
  intros j cl1 Hj Hcl1. unfold range in Hj. apply elem_of_seq in Hj.
  eapply total_bind; [apply total_mutate_child; lia|].
  intros cl2 Hcl2. cbv beta in Hcl2.
  assert (Hi0 : index parents 0 = Return p0) by (unfold index; now rewrite Hp0).
  rewrite Hi0.
  eapply total_bind; [apply total_lift; exact I|]. intros p _.
  destruct (assign_sf_lt cl2 j (sf p) ltac:(lia)) as (cl3 & -> & Hcl3).
  apply total_lift. congruence.
Qed.

(** The loop of lines 116-117 replaces the parents 1, 2, ...: parent 0 stays. *)
Lemma yields_relatives_loop (parents : list chromosome) p0 no_p :
  parents !! 0 = Some p0 ->
  yields (rand:=rand) (result:=result) (for_foldM (fun parents i =>
            bind (lift (index parents 0)) (fun p0 =>
            bind (method (fun pop => find_relative population pop (sf p0))) (fun r =>
            lift (assign parents i r))))
          (range2 1 no_p) parents)
         (fun ps => ps !! 0 = Some p0 /\ length ps = length parents).
Proof.
  intros Hp0. unfold range2.
  apply (yields_for_foldM_seq _
           (fun (_ : nat) ps => ps !! 0 = Some p0 /\ length ps = length parents)).
  { split; [exact Hp0 | reflexivity]. }
  intros j ps Hj [Hps Hlen].
  eapply yields_bind; [apply (yields_always _ (fun _ => True)); exact (fun _ => I)|].
  intros p _.
  eapply yields_bind; [apply (yields_always _ (fun _ => True)); exact (fun _ => I)|].
  intros r _. apply yields_lift. intros ps' Hps'.
  apply assign_Return in Hps' as [Hlt ->]. split.
  - rewrite list_lookup_insert_ne by lia. exact Hps.
  - rewrite length_insert. exact Hlen.
Qed.

Lemma total_relatives_loop (parents : list chromosome) no_p :
  length parents = no_p -> 0 < no_p ->
  total (rand:=rand) (result:=result) (for_foldM (fun parents i =>
            bind (lift (index parents 0)) (fun p0 =>
            bind (method (fun pop => find_relative population pop (sf p0))) (fun r =>
            lift (assign parents i r))))
          (range2 1 no_p) parents)
        (fun ps => length ps = no_p).
Proof.
  intros Hlen Hpos. apply total_for_foldM; [exact Hlen|].
  intros j ps Hj Hps. unfold range2 in Hj. apply elem_of_seq in Hj.
  destruct (index_lt ps 0 ltac:(lia)) as [p ->].
  eapply total_bind; [apply total_lift; exact I|]. intros p' _.
  eapply total_bind; [apply (total_method _ (fun _ => True)); intros; exact I|].
  intros r _. unfold assign. destruct (decide (j < length ps)); [|lia].
  apply total_lift. rewrite length_insert. exact Hps.
Qed.

Lemma yields_relatives_children mr parents bl no_p p0 :
  parents !! 0 = Some p0 ->
  yields (relatives_children population mr parents bl no_p)
         (fun cl => forall i, i < no_p ->
                      exists c, cl !! i = Some c /\ sf c = sf p0).
Proof.
  intros Hp0. unfold relatives_children.
  eapply yields_bind; [apply yields_relatives_loop, Hp0|].
  intros ps [Hps _].
  eapply yields_bind; [apply (yields_always _ (fun _ => True)); exact (fun _ => I)|].
  intros cl0 _. apply (yields_inherit_loop mr None ps p0 no_p cl0 Hps).
Qed.

Lemma yields_same_sf_children mr pmdi parents bl no_p p0 :
  parents !! 0 = Some p0 ->
  yields (same_sf_children population mr pmdi parents bl no_p)
         (fun cl => forall i, i < no_p ->
                      exists c, cl !! i = Some c /\ sf c = sf p0).
Proof.
  intros Hp0. unfold same_sf_children.
  eapply yields_bind; [apply (yields_always _ (fun _ => True)); exact (fun _ => I)|].
  intros cl0 _. apply (yields_inherit_loop mr (Some pmdi) parents p0 no_p cl0 Hp0).
Qed.

Lemma yields_cross_task_children mr rmp parents bl no_p :
  yields (cross_task_children npr population mr rmp parents bl no_p)
         (fun cl => forall i, i < no_p ->
                      exists c, cl !! i = Some c /\ sf c ∈ map sf parents).
Proof.
  unfold cross_task_children.
  eapply yields_bind; [apply (yields_always _ (fun _ => True)); exact (fun _ => I)|].
  intros cl0 _. unfold range.
  apply (yields_for_foldM_seq _
           (fun j cl => forall i, i < j ->
              exists c, cl !! i = Some c /\ sf c ∈ map sf parents) no_p 0).
  { intros i Hi. lia. }
  intros j cl1 Hj Hinv.
  eapply yields_bind; [apply yields_mutate_child|].
  intros cl2 [_ Hsame]. cbv zeta.
  eapply yields_bind; [apply yields_random_choice|].
  intros t Ht. apply yields_lift. intros cl3 Hcl3.
  apply assign_sf_Return in Hcl3 as (_ & Hother & c & Hc & Hsf).
  intros i Hi. destruct (decide (i = j)) as [-> | Hne].
  - exists c. split; [exact Hc | now rewrite Hsf].
  - rewrite Hother, Hsame by exact Hne. apply Hinv. lia.
Qed.

Lemma total_relatives_children mr parents bl no_p :
  crossover_keeps_count population -> length parents = no_p -> 0 < no_p ->
  total (relatives_children population mr parents bl no_p)
        (fun cl => length cl = no_p).
Proof.
  intros Hcount Hlen Hpos. unfold relatives_children.
  eapply total_bind; [apply total_relatives_loop; [exact Hlen | exact Hpos]|].
  intros ps Hps. cbv beta in Hps.
  eapply total_bind.
  { apply (total_method _ (fun cl => length cl = no_p)).
    intros p r. now rewrite Hcount. }
  intros cl0 Hcl0. destruct (lookup_lt_is_Some_2 ps 0 ltac:(lia)) as [p0 Hp0].
  apply (total_inherit_loop mr None ps p0 no_p cl0 Hp0 Hcl0).
Qed.

Lemma total_same_sf_children mr pmdi parents bl no_p :
  crossover_keeps_count population -> length parents = no_p -> 0 < no_p ->
  total (same_sf_children population mr pmdi parents bl no_p)
        (fun cl => length cl = no_p).
Proof.
  intros Hcount Hlen Hpos. unfold same_sf_children.
  eapply total_bind.
  { apply (total_method _ (fun cl => length cl = no_p)).
    intros p r. now rewrite Hcount. }
  intros cl0 Hcl0. destruct (lookup_lt_is_Some_2 parents 0 ltac:(lia)) as [p0 Hp0].
  apply (total_inherit_loop mr (Some pmdi) parents p0 no_p cl0 Hp0 Hcl0).
Qed.

End BranchFacts.

(** X9.  The two branches that cross within one task.  In the branch of the
    relatives (lines 116-122) and in the branch of one skill factor (lines
    96-100) every one of the [no_p] children returned has the skill factor
    of parent 0, the parent that was read from the population: the loop of
    lines 116-117 replaces the parents from index 1 on only.  And both
    branches return [no_p] children when [crossover_mul] gives as many
    children as it is given parents. *)
Theorem children_inherit_first_parent {rand result : Type}
    (population : Mfeaii.Slgep_pop rand result) (mr pmdi : R)
    (parents : list Mfeaii.chromosome) (bl : Mfeaii.matrix) (no_p : nat)
    (p0 : Mfeaii.chromosome) :
  parents !! 0 = Some p0 ->
  (forall s cl s',
     Mfeaii.relatives_children population mr parents bl no_p s = (Return cl, s') ->
     forall i, i < no_p ->
       exists c, cl !! i = Some c /\ Mfeaii.sf c = Mfeaii.sf p0) /\
  (forall s cl s',
     Mfeaii.same_sf_children population mr pmdi parents bl no_p s
     = (Return cl, s') ->
     forall i, i < no_p ->
       exists c, cl !! i = Some c /\ Mfeaii.sf c = Mfeaii.sf p0) /\
  (crossover_keeps_count population -> length parents = no_p ->
   forall s,
     (exists cl,
        fst (Mfeaii.relatives_children population mr parents bl no_p s)
        = Return cl /\ length cl = no_p) /\
     (exists cl,
        fst (Mfeaii.same_sf_children population mr pmdi parents bl no_p s)
        = Return cl /\ length cl = no_p)).
Proof.
  intros Hp0. split; [|split].
  - intros s cl s' Hrun.
    apply (yields_run _ _ s cl s' (yields_relatives_children population mr
             parents bl no_p p0 Hp0) Hrun).
  - intros s cl s' Hrun.
    apply (yields_run _ _ s cl s' (yields_same_sf_children population mr pmdi
             parents bl no_p p0 Hp0) Hrun).
  - intros Hcount Hlen s.
    assert (Hpos : 0 < no_p).
    { apply lookup_lt_Some in Hp0. lia. }
    split.
    + apply (total_relatives_children population mr parents bl no_p Hcount Hlen Hpos s).
    + apply (total_same_sf_children population mr pmdi parents bl no_p Hcount
               Hlen Hpos s).
Qed.

(** X9 on two parents of the tasks 0 and 1. *)
Lemma children_inherit_first_parent_witness :
  exists cl,
    fst (Mfeaii.relatives_children (Examples.copying_pop 2) (1 / 10)
           [Examples.chrom 0 1; Examples.chrom 1 2]%R
           (replicate 2 (replicate 2 (7 / 10)%R)) 2
           (Examples.start Examples.mixed4))
    = Return cl /\ length cl = 2.
Proof.
  destruct (children_inherit_first_parent (Examples.copying_pop 2) (1 / 10) 5
              [Examples.chrom 0 1; Examples.chrom 1 2]%R
              (replicate 2 (replicate 2 (7 / 10)%R)) 2 (Examples.chrom 0 1)
              eq_refl) as (_ & _ & H).
  apply H; [intros pop parents bl r; reflexivity | reflexivity].
Defined.

Section GroupFacts.

Import Mfeaii.
Context {rand result : Type}.
Variable npr : np_random rand.
Variable population : Slgep_pop rand result.
Variables (N no_par D : nat) (mr pmdi : R) (normal_beta : bool).
Variables (rmp_matrix : matrix) (subpops : list (list chromosome)).
Implicit Types s : state rand result.

Lemma parents_read (k no_p : nat) s ps s1 :
  comprehensionM (fun i => pop_get (k + i)) (range no_p) s = (Return ps, s1) ->
  s1 = s /\ length ps = no_p /\
  forall i, i < no_p -> exists p, ps !! i = Some p /\ pop s !! (k + i) = Some p.
Proof.
  intros Hrun.
  destruct (comprehensionM_pop_get (result:=result) k (range no_p) s)
    as (o & Ho & Hv).
  rewrite Ho in Hrun. injection Hrun as -> <-.
  specialize (Hv ps eq_refl). split; [reflexivity|].
  pose proof (Forall2_length _ _ _ Hv) as Hlen. unfold range in Hlen, Hv.
  rewrite length_seq in Hlen. split; [lia|].
  intros i Hi.
  destruct (Forall2_lookup_l _ _ _ i (0 + i) Hv) as (p & Hp & Hpp).
  { apply lookup_seq_lt. lia. }
  exists p. split; [exact Hp | exact Hpp].
Qed.

Lemma for_each_invariant {A} (P : state rand result -> Prop) (l : list A)
    (body : A -> M rand result unit) :
  (forall a s, a ∈ l -> P s -> P (snd (body a s))) ->
  forall s, P s -> P (snd (for_each l body s)).
Proof.
  induction l as [|a l IH]; intros Hb s Hs; cbn [for_each]; [exact Hs|].
  rewrite bind_run.
  pose proof (Hb a s (list_elem_of_here _ _) Hs) as H1.
  destruct (body a s) as [[[] | e] s1]; cbn [snd] in H1 |- *; [|exact H1].
  apply IH; [|exact H1]. intros b s' Hin. apply Hb, list_elem_of_further, Hin.
Qed.

End GroupFacts.

(** X11.  A group of mixed skill factors, end to end.  When the iteration
    for the group at [k] returns and two of the group's parents differ in
    skill factor, every offspring slot [N + k + i], [i < no_p], holds a
    child whose skill factor is that of a parent of the group, as the
    population had it in the slots [k .. k + no_p - 1] before the
    iteration. *)
Theorem mixed_group_offspring_skill_factors {rand result : Type}
    (npr : Mfeaii.np_random rand) (population : Mfeaii.Slgep_pop rand result)
    (N no_par D : nat) (mr pmdi : R) (normal_beta : bool)
    (rmp_matrix : Mfeaii.matrix) (subpops : list (list Mfeaii.chromosome))
    (k : nat) (s s' : Mfeaii.state rand result) :
  let no_p := Nat.min (N - k) no_par in
  Mfeaii.pair_group npr population N no_par D mr pmdi normal_beta rmp_matrix
    subpops k s = (Return tt, s') ->
  (exists i j p q, i < no_p /\ j < no_p /\
     Mfeaii.pop s !! (k + i) = Some p /\ Mfeaii.pop s !! (k + j) = Some q /\
     Mfeaii.sf p <> Mfeaii.sf q) ->
  forall i, i < no_p ->
    exists c, Mfeaii.pop s' !! (N + k + i) = Some c /\
      exists j p, j < no_p /\ Mfeaii.pop s !! (k + j) = Some p /\
                  Mfeaii.sf c = Mfeaii.sf p.
Proof.
  intros no_p Hrun (i1 & j1 & p1 & q1 & Hi1 & Hj1 & Hp1 & Hq1 & Hne).
  pose proof (same_pop_blind (rand:=rand) (result:=result)) as HR.
  unfold Mfeaii.pair_group in Hrun. cbv zeta in Hrun. fold no_p in Hrun.
  apply bind_Return in Hrun as (parents & s1 & Hparents & Hrun).
  apply parents_read in Hparents as (-> & Hlen & Hread).
  apply bind_Return in Hrun as (bl & s2 & Hbl & Hrun).
  assert (Hs2 : same_pop s s2).
  { eapply keeps_run; [|exact Hbl].
    destruct normal_beta; [apply keeps_draw | apply keeps_lift]; exact HR. }
  apply bind_Return in Hrun as (rmps & s3 & Hrmps & Hrun).
  apply lift_run in Hrmps as [_ ->].
  apply bind_Return in Hrun as (max_rmp & s4 & Hmax & Hrun).
  apply lift_run in Hmax as [_ ->].
  apply bind_Return in Hrun as (b & s5 & Hb & Hrun).
  apply lift_run in Hb as [Hb ->].
  destruct (same_skill_factor_spec parents no_p ltac:(lia)) as (b' & Hb' & Hiff).
  rewrite Hb' in Hb. injection Hb as ->.
  destruct b.
  { exfalso. apply Hne.
    destruct (Hread i1 Hi1) as (p & Hp & Hpp).
    destruct (Hread j1 Hj1) as (q & Hq & Hqq).
    assert (p = p1) as <- by congruence. assert (q = q1) as <- by congruence.
    apply (proj1 Hiff eq_refl i1 j1); assumption. }
  apply bind_Return in Hrun as (u & s6 & Hu & Hrun).
  assert (Hs6 : same_pop s2 s6).
  { eapply keeps_run; [|exact Hu]. apply keeps_draw, HR. }
  apply bind_Return in Hrun as (cl & s7 & Hcl & Hrun).
  assert (Hs7 : same_pop s6 s7).
  { eapply keeps_run; [|exact Hcl].
    destruct (Rlt_dec u max_rmp);
      [apply keeps_cross_task_children | apply keeps_relatives_children];
      exact HR. }
  assert (Hsf : forall i, i < no_p ->
            exists c, cl !! i = Some c /\ Mfeaii.sf c ∈ map Mfeaii.sf parents).
  { destruct (Rlt_dec u max_rmp).
    - apply (yields_run _ _ _ _ _ (yields_cross_task_children npr population mr
               rmp_matrix parents bl no_p) Hcl).
    - destruct (Hread 0 ltac:(lia)) as (p0 & Hp0 & _).
      intros i Hi.
      destruct (yields_run _ _ _ _ _ (yields_relatives_children population mr
                  parents bl no_p p0 Hp0) Hcl i Hi) as (c & Hc & Hsfc).
      exists c. split; [exact Hc|]. rewrite Hsfc.
      apply list_elem_of_fmap. exists p0. split; [reflexivity|].
      eapply list_elem_of_lookup_2, Hp0. }
  unfold Mfeaii.replace_with_children, range in Hrun.
  apply write_back_Return in Hrun as (_ & _ & _ & Hin & _).
  intros i Hi. destruct (Hin i ltac:(lia)) as (c & Hc & Hslot).
  exists c. split; [exact Hslot|].
  destruct (Hsf i Hi) as (c' & Hc' & Hmem).
  assert (c' = c) as -> by congruence.
  apply list_elem_of_fmap in Hmem as (p & Hsfp & Hp).
  apply list_elem_of_lookup_1 in Hp as [j Hj].
  pose proof (lookup_lt_Some _ _ _ Hj) as Hjlt.
  destruct (Hread j ltac:(lia)) as (p' & Hp' & Hpp').
  assert (p' = p) as -> by congruence.
  exists j, p. split; [lia|]. split; [exact Hpp' | exact Hsfp].
Qed.

(** X15.  A population of one skill factor breeds nothing.  When the [N]
    current individuals all have one skill factor, every group takes the
    branch of one skill factor, and the whole pairing loop, whatever its
    outcome, leaves every slot of the population as it was: no offspring
    slot is written in that generation. *)
Theorem one_skill_population_no_offspring {rand result : Type}
    (npr : Mfeaii.np_random rand) (population : Mfeaii.Slgep_pop rand result)
    (N no_par D : nat) (mr pmdi : R) (normal_beta : bool)
    (rmp_matrix : Mfeaii.matrix) (subpops : list (list Mfeaii.chromosome))
    (s : Mfeaii.state rand result) :
  (forall i j p q, i < N -> j < N ->
     Mfeaii.pop s !! i = Some p -> Mfeaii.pop s !! j = Some q ->
     Mfeaii.sf p = Mfeaii.sf q) ->
  Mfeaii.pop (snd (Mfeaii.pairing_loop npr population N no_par D mr pmdi
                     normal_beta rmp_matrix subpops s))
  = Mfeaii.pop s.
Proof.
  intros Hone. unfold Mfeaii.pairing_loop. rewrite bind_run. unfold Mfeaii.lift.
  destruct (range_step N no_par) as [ks | e] eqn:Hks; [|reflexivity].
  destruct (range_step_spec _ _ _ Hks) as [_ Hspec].
  apply (for_each_invariant (fun s1 => Mfeaii.pop s1 = Mfeaii.pop s));
    [|reflexivity].
  intros k s1 Hk Hs1. rewrite <- Hs1.
  apply pair_group_same_skill. rewrite Hs1.
  destruct (Hspec k Hk) as [Hlt _].
  intros i j p q Hi Hj. apply Hone; lia.
Qed.

(** X11 on K = 2, one group of two parents of the tasks 0 and 1: the slot 3
    gets a child of task 0. *)
Lemma mixed_group_offspring_skill_factors_witness :
  exists c,
    [Examples.chrom 0 1; Examples.chrom 1 2;
     Mfeaii.set_sf 0 (Examples.chrom 0 1);
     Mfeaii.set_sf 0 (Examples.chrom 1 2)]%R !! (2 + 0 + 1) = Some c /\
    exists j p, j < Nat.min (2 - 0) 2 /\
      Examples.mixed4 !! (0 + j) = Some p /\ Mfeaii.sf c = Mfeaii.sf p.
Proof.
  refine (mixed_group_offspring_skill_factors Examples.fixed_random
            (Examples.copying_pop 2) 2 2 2 (1 / 10) 5 true (Examples.ones 2) []
            0 (Examples.start Examples.mixed4)
            {| Mfeaii.pop := [Examples.chrom 0 1; Examples.chrom 1 2;
                              Mfeaii.set_sf 0 (Examples.chrom 0 1);
                              Mfeaii.set_sf 0 (Examples.chrom 1 2)]%R;
               Mfeaii.seed := tt; Mfeaii.reported := [] |} _ _ 1 _).
  - unfold Mfeaii.pair_group.
    cbv -[Rlt_dec IZR Rdiv Rmult Rplus Rinv Rmax Rlt].
    destruct (Rlt_dec 0 1) as [_ | Hn]; [reflexivity | exfalso; apply Hn; lra].
  - exists 0, 1, (Examples.chrom 0 1), (Examples.chrom 1 2).
    cbn. repeat split; try lia. 
  - cbn. lia.
Defined.

(** X15 on two individuals of task 0 and their two offspring slots. *)
Lemma one_skill_population_no_offspring_witness :
  Mfeaii.pop (snd (Mfeaii.pairing_loop Examples.fixed_random
                     (Examples.copying_pop 1) 2 2 2 (1 / 10) 5 true
                     (Examples.ones 1) []
                     (Examples.start [Examples.chrom 0 1; Examples.chrom 0 2;
                                      Examples.chrom 0 0; Examples.chrom 0 0]%R)))
  = [Examples.chrom 0 1; Examples.chrom 0 2; Examples.chrom 0 0; Examples.chrom 0 0]%R.
Proof.
  apply (one_skill_population_no_offspring Examples.fixed_random
           (Examples.copying_pop 1) 2 2 2 (1 / 10) 5 true (Examples.ones 1) []
           (Examples.start [Examples.chrom 0 1; Examples.chrom 0 2;
                            Examples.chrom 0 0; Examples.chrom 0 0]%R)).
  intros i j p q Hi Hj.
  destruct i as [|[|i]]; [| |lia]; destruct j as [|[|j]]; [| |lia | | |lia];
    cbn; intros [= <-] [= <-]; reflexivity.
Defined.

Section SetupShape.

Import Mfeaii.

Lemma setup_args_cons (e0 : env) (envs : list env) (cfg : config) :
  setup_args (e0 :: envs) cfg
  = Return {| no_adf := action_space_n e0 * 2;
              no_terminal := fold_left Nat.max (map reset_shape0 envs)
                                       (reset_shape0 e0);
              no_main := action_space_n e0;
              arg_h_main := h_main cfg;
              arg_max_arity := max_arity cfg;
              arg_h_adf := h_adf cfg;
              no_pop := 2 * (pop_size cfg * S (length envs));
              no_task := S (length envs) |}.
Proof.
  unfold setup_args.
  change (index (e0 :: envs) 0) with (Return e0). cbn [mbind outcome_bind].
  rewrite (comprehension_index reset_shape0 (e0 :: envs)).
  reflexivity.
Qed.

End SetupShape.

(** X13.  Setup needs one environment and nothing more.  The setup returns
    the constructor's arguments exactly when there is at least one
    environment; with none, [envs.envs[0]] raises [IndexError], and the run
    ends there with the state untouched: no population is built and nothing
    is drawn or reported. *)
Theorem setup_needs_an_environment (envs : list Mfeaii.env) (cfg : Mfeaii.config) :
  (returns (Mfeaii.setup_args envs cfg) <-> envs <> []) /\
  (Mfeaii.setup_args envs cfg = Raise IndexError <-> envs = []) /\
  (forall (rand result : Type) (npr : Mfeaii.np_random rand)
          (population : Mfeaii.Slgep_pop rand result)
          (callback normal_beta : bool) (s : Mfeaii.state rand result),
     envs = [] ->
     Mfeaii.mfeaii_mgp npr population envs cfg callback normal_beta s
     = (Raise IndexError, s)).
Proof.
  destruct envs as [|e0 envs].
  - split; [|split].
    + split; [intros [a Ha]; discriminate Ha | congruence].
    + split; reflexivity.
    + reflexivity.
  - rewrite setup_args_cons. split; [|split].
    + split; [discriminate | intros _; eexists; reflexivity].
    + split; discriminate.
    + discriminate.
Qed.

(** X14.  The setup reads the action count of the first environment only.
    [no_main] is [envs.envs[0].action_space.n] and [no_adf] is twice that;
    two lists of environments with the same first action count and the same
    observation dimensionalities give the same constructor arguments,
    whatever the action counts of the other environments. *)
Theorem setup_reads_first_action_count (envs envs' : list Mfeaii.env)
    (cfg : Mfeaii.config) (e0 e0' : Mfeaii.env) :
  envs !! 0 = Some e0 -> envs' !! 0 = Some e0' ->
  Mfeaii.action_space_n e0 = Mfeaii.action_space_n e0' ->
  map Mfeaii.reset_shape0 envs = map Mfeaii.reset_shape0 envs' ->
  Mfeaii.setup_args envs cfg = Mfeaii.setup_args envs' cfg /\
  exists args,
    Mfeaii.setup_args envs cfg = Return args /\
    Mfeaii.no_main args = Mfeaii.action_space_n e0 /\
    Mfeaii.no_adf args = 2 * Mfeaii.action_space_n e0.
Proof.
  intros H0 H0' Hact Hdims.
  destruct envs as [|e envs]; [discriminate|].
  destruct envs' as [|e' envs']; [discriminate|].
  injection H0 as ->. injection H0' as ->.
  rewrite !setup_args_cons. cbn [map] in Hdims. injection Hdims as Hd0 Hd.
  assert (Hlen : length envs = length envs').
  { apply (f_equal (@length nat)) in Hd. now rewrite !length_map in Hd. }
  rewrite Hact, Hd0, Hd, Hlen. split; [reflexivity|].
  eexists. split; [reflexivity|]. cbn. split; lia.
Qed.

(** X14 on a second environment of 7 actions in place of 2. *)
Lemma setup_reads_first_action_count_witness :
  Mfeaii.setup_args
    [Examples.doublepole_710;
     {| Mfeaii.action_space_n := 7; Mfeaii.reset_shape0 := 3 |}]
    (Examples.cfg 10 5 2 2 (1 / 2))
  = Mfeaii.setup_args [Examples.doublepole_710; Examples.doublepole_710_v1]
      (Examples.cfg 10 5 2 2 (1 / 2)).
Proof.
  apply (setup_reads_first_action_count
           [Examples.doublepole_710;
            {| Mfeaii.action_space_n := 7; Mfeaii.reset_shape0 := 3 |}]
           [Examples.doublepole_710; Examples.doublepole_710_v1]
           (Examples.cfg 10 5 2 2 (1 / 2))
           Examples.doublepole_710 Examples.doublepole_710);
    reflexivity.
Defined.

Section ReportFacts.

Import Mfeaii.
Context {rand result : Type}.
Variable npr : np_random rand.
Variable population : Slgep_pop rand result.
Implicit Types s : state rand result.

Lemma reports_keeps {A} (m : M rand result A) :
  keeps same_reported m -> reports 0 m.
Proof.
  intros Hk s. exists []. rewrite app_nil_r. split; [apply Hk|].
  split; [reflexivity | intros; reflexivity].
Qed.

Lemma reports_bind {A B} (n1 n2 : nat) (m : M rand result A)
    (f : A -> M rand result B) :
  reports n1 m -> (forall a, reports n2 (f a)) -> reports (n1 + n2) (bind m f).
Proof.
  intros Hm Hf s. rewrite bind_run. destruct (Hm s) as (rs1 & Hrs1 & Hle1 & Heq1).
  destruct (m s) as [[a | e] s1]; cbn [fst snd] in *.
  - destruct (Hf a s1) as (rs2 & Hrs2 & Hle2 & Heq2).
    exists (rs1 ++ rs2). rewrite Hrs2, Hrs1, app_assoc, length_app.
    split; [reflexivity|]. specialize (Heq1 a eq_refl). split; [lia|].
    intros b Hb. rewrite (Heq2 b Hb). lia.
  - exists rs1. split; [exact Hrs1|]. split; [lia | discriminate].
Qed.

Lemma reports_bind_keeps {A B} (n : nat) (m : M rand result A)
    (f : A -> M rand result B) :
  keeps same_reported m -> (forall a, reports n (f a)) -> reports n (bind m f).
Proof.
  intros Hm Hf. apply (reports_bind 0 n); [apply reports_keeps, Hm | exact Hf].
Qed.

Lemma reports_for_each {A} (c : nat) (l : list A) (body : A -> M rand result unit) :
  (forall a, reports c (body a)) -> reports (length l * c) (for_each l body).
Proof.
  intros Hb. induction l as [|a l IH]; cbn [for_each length].
  - apply reports_keeps. intros s. reflexivity.
  - cbn [Nat.mul]. apply reports_bind; [apply Hb | intros _; exact IH].
Qed.

Lemma reports_generation envs N no_par D mr pmdi (callback nb : bool) t :
  reports (if callback then 1 else 0)
    (generation npr population envs N no_par D mr pmdi callback nb t).
Proof.
  pose proof (same_reported_blind (rand:=rand) (result:=result)) as HR.
  unfold generation.
  apply reports_bind_keeps; [apply keeps_rewrite_pop|]. intros _.
  apply reports_bind_keeps; [intros s; reflexivity|]. intros subpops.
  apply reports_bind_keeps; [apply (keeps_method _ HR)|]. intros rmp.
  apply reports_bind_keeps; [apply keeps_pairing_loop_reported|]. intros _.
  apply reports_bind_keeps; [apply keeps_rewrite_pop|]. intros _.
  apply reports_bind_keeps; [apply keeps_rewrite_pop|]. intros _.
  apply reports_bind_keeps; [apply (keeps_lift _ HR)|]. intros r01.
  apply reports_bind_keeps; [intros s; reflexivity|]. intros results.
  destruct callback.
  - intros s. exists [results]. split; [reflexivity|].
    split; [reflexivity | intros; reflexivity].
  - apply reports_keeps. intros s. reflexivity.
Qed.

Lemma reports_mfeaii_mgp envs cfg (callback nb : bool) :
  reports (if callback then num_iter cfg else 0)
    (mfeaii_mgp npr population envs cfg callback nb).
Proof.
  pose proof (same_reported_blind (rand:=rand) (result:=result)) as HR.
  unfold mfeaii_mgp. cbv zeta.
  apply reports_bind_keeps; [apply (keeps_lift _ HR)|]. intros args.
  apply reports_bind_keeps; [apply keeps_construct|]. intros _.
  apply reports_bind_keeps; [apply (keeps_pop_get _ HR)|]. intros p0.
  apply reports_bind_keeps; [apply keeps_rewrite_pop|]. intros _.
  apply reports_bind_keeps; [apply keeps_rewrite_pop|]. intros _.
  replace (if callback then num_iter cfg else 0)
    with (length (range (num_iter cfg)) * (if callback then 1 else 0)).
  - apply reports_for_each. intros t. apply reports_generation.
  - unfold range. rewrite length_seq. destruct callback; lia.
Qed.

Lemma generation_zero_group envs N D mr pmdi (callback nb : bool) t s :
  let run := generation npr population envs N 0 D mr pmdi callback nb t s in
  fst run = Raise ValueError /\
  pop (snd run) = fst (permute population (pop s) (seed s)) /\
  reported (snd run) = reported s.
Proof.
  intros run.
  assert (Hrun : run =
    let (p, r) := permute population (pop s) (seed s) in
    let (m, r') := learn_rmp population p (get_subpops population p) r in
    (Raise ValueError, {| pop := p; seed := r'; reported := reported s |})).
  { unfold run, generation, pairing_loop, bind, rewrite_pop, method, draw, lift,
      ret, range_step.
    destruct (permute population (pop s) (seed s)) as [p r]. cbn [pop seed reported].
    destruct (learn_rmp population p (get_subpops population p) r) as [m r'].
    reflexivity. }
  rewrite Hrun. clear Hrun run.
  destruct (permute population (pop s) (seed s)) as [p r].
  destruct (learn_rmp population p (get_subpops population p) r) as [m r'].
  cbn. auto.
Qed.

End ReportFacts.

(** X12.  The callback is called once per completed generation.  Whatever
    the outcome of a run, the reports made before it are kept and at most
    [num_iter] are added, none when no callback is given; a run that returns
    with a callback has added exactly [num_iter] reports. *)
Theorem callback_once_per_generation {rand result : Type}
    (npr : Mfeaii.np_random rand) (population : Mfeaii.Slgep_pop rand result)
    (envs : list Mfeaii.env) (cfg : Mfeaii.config)
    (callback normal_beta : bool) (s : Mfeaii.state rand result) :
  let run := Mfeaii.mfeaii_mgp npr population envs cfg callback normal_beta s in
  let calls := if callback then Mfeaii.num_iter cfg else 0 in
  exists rs,
    Mfeaii.reported (snd run) = Mfeaii.reported s ++ rs /\
    length rs <= calls /\
    (fst run = Return tt -> length rs = calls).
Proof.
  intros run calls.
  destruct (reports_mfeaii_mgp npr population envs cfg callback normal_beta s)
    as (rs & Hrs & Hle & Heq).
  exists rs. split; [exact Hrs|]. split; [exact Hle|]. exact (Heq tt).
Qed.

(** X7.  A group size of zero is not refused at setup.  With
    [num_par = 0] every generation permutes the population, learns the RMP
    matrix and then raises [ValueError] at [range(0, N, 0)], before any
    crossover and without a report; so a run of at least one generation
    raises and reports nothing. *)
Theorem zero_group_size_raises {rand result : Type}
    (npr : Mfeaii.np_random rand) (population : Mfeaii.Slgep_pop rand result)
    (envs : list Mfeaii.env) (cfg : Mfeaii.config)
    (callback normal_beta : bool) :
  Mfeaii.num_par cfg = 0 ->
  (forall N D mr pmdi t s,
     let run := Mfeaii.generation npr population envs N (Mfeaii.num_par cfg) D
                  mr pmdi callback normal_beta t s in
     fst run = Raise ValueError /\
     Mfeaii.pop (snd run)
     = fst (Mfeaii.permute population (Mfeaii.pop s) (Mfeaii.seed s)) /\
     Mfeaii.reported (snd run) = Mfeaii.reported s) /\
  (0 < Mfeaii.num_iter cfg ->
   forall s,
     let run := Mfeaii.mfeaii_mgp npr population envs cfg callback
                  normal_beta s in
     (exists e, fst run = Raise e) /\
     Mfeaii.reported (snd run) = Mfeaii.reported s).
Proof.
  intros Hzero. split.
  - intros N D mr pmdi t s. rewrite Hzero. apply generation_zero_group.
  - intros HT s.
    pose proof (same_reported_blind (rand:=rand) (result:=result)) as HR.
    assert (Hrun : fails_keeping same_reported
                     (Mfeaii.mfeaii_mgp npr population envs cfg callback
                        normal_beta)).
    { unfold Mfeaii.mfeaii_mgp. cbv zeta. rewrite Hzero.
      apply fails_bind_r; [apply keeps_lift, HR|]. intros args _ _.
      apply fails_bind_r; [apply keeps_construct|]. intros _ _ _.
      apply fails_bind_r; [apply keeps_pop_get, HR|]. intros p0 _ _.
      apply fails_bind_r; [apply keeps_rewrite_pop|]. intros _ _ _.
      apply fails_bind_r; [apply keeps_rewrite_pop|]. intros _ _ _.
      destruct (Mfeaii.num_iter cfg) as [|T]; [lia|].
      cbn [range seq Mfeaii.for_each].
      apply fails_bind_l. intros s1.
      destruct (generation_zero_group npr population envs
                  (Mfeaii.pop_size cfg * length envs) (Mfeaii.D p0)
                  (Mfeaii.mutation_rate cfg) (Mfeaii.pmdi cfg) callback
                  normal_beta 0 s1) as (He & _ & Hrep).
      split; [eauto | exact Hrep]. }
    apply Hrun.
Qed.

(** X7 on K = 2 tasks and four individuals. *)
Lemma zero_group_size_raises_witness :
  fst (Mfeaii.generation Examples.fixed_random (Examples.copying_pop 2)
         [Examples.doublepole_710; Examples.doublepole_710_v1] 4 0 2
         (1 / 10) 5 true true 0 (Examples.start Examples.pop8))
  = Raise ValueError.
Proof.
  destruct (zero_group_size_raises Examples.fixed_random
              (Examples.copying_pop 2)
              [Examples.doublepole_710; Examples.doublepole_710_v1]
              (Examples.cfg 2 1 0 2 (1 / 2)) true true eq_refl) as [H _].
  apply (H 4 2 (1 / 10)%R 5%R 0 (Examples.start Examples.pop8)).
Defined.

Section BetaFacts.

Import Mfeaii.

Lemma for_fold_seq_total {B} (f : B -> nat -> outcome B) (I : nat -> B -> Prop)
    (n a : nat) (b : B) :
  I a b ->
  (forall j b, a <= j < a + n -> I j b ->
     exists b', f b j = Return b' /\ I (S j) b') ->
  exists b', for_fold f (seq a n) b = Return b' /\ I (a + n) b'.
Proof.
  revert a b. induction n as [|n IH]; intros a b Hb Hstep; cbn [seq for_fold].
  - exists b. split; [reflexivity|]. now rewrite Nat.add_0_r.
  - destruct (Hstep a b ltac:(lia) Hb) as (b1 & -> & Hb1). cbn [mbind outcome_bind].
    destruct (IH (S a) b1 Hb1) as (b' & Hrun & Hb').
    { intros j b2 Hj. apply Hstep. lia. }
    exists b'. split; [exact Hrun|]. now replace (a + S n) with (S a + n) by lia.
Qed.

Lemma index_Some {A} (l : list A) (i : nat) (a : A) :
  l !! i = Some a -> index l i = Return a.
Proof. unfold index. now intros ->. Qed.

(** [bl[i][j] *= x] on an entry that is still 1. *)
Lemma mat_imul_one (bl : matrix) (i j : nat) (x : R) (row : list R) :
  bl !! i = Some row -> row !! j = Some 1%R ->
  mat_imul bl i j x = Return (<[i := <[j := x]> row]> bl).
Proof.
  intros Hrow Hj. unfold mat_imul.
  rewrite (index_Some _ _ _ Hrow). cbn [mbind outcome_bind].
  rewrite (index_Some _ _ _ Hj). cbn [mbind outcome_bind].
  unfold assign.
  destruct (decide (j < length row)) as [_ | Hn];
    [|exfalso; apply Hn; eapply lookup_lt_Some, Hj].
  cbn [mbind outcome_bind].
  destruct (decide (i < length bl)) as [_ | Hn];
    [|exfalso; apply Hn; eapply lookup_lt_Some, Hrow].
  now rewrite Rmult_1_l.
Qed.

(** [np.array] of the genes of a subpopulation whose genes have one
    length. *)
Lemma np_array_genes (g0 : chromosome) (sub : list chromosome) :
  Forall (fun c => length (gene c) = length (gene g0)) sub ->
  np_array (map gene (g0 :: sub)) = Return (map gene (g0 :: sub)).
Proof.
  intros Hall. unfold np_array. cbn [map].
  replace (forallb _ _) with true; [reflexivity|]. symmetry.
  apply forallb_forall. intros r Hr.
  apply Nat.eqb_eq. cbn in Hr. destruct Hr as [<- | Hr]; [reflexivity|].
  apply in_map_iff in Hr as (c & <- & Hc).
  rewrite Forall_forall in Hall. apply Hall. now apply list_elem_of_In.
Qed.

Lemma for_fold_ext {A B} (f g : B -> A -> outcome B) (l : list A) (b : B) :
  (forall b a, f b a = g b a) -> for_fold f l b = for_fold g l b.
Proof.
  intros Hfg. revert b. induction l as [|a l IH]; intros b; cbn [for_fold].
  - reflexivity.
  - rewrite Hfg. destruct (g b a) as [b' | e]; cbn [mbind outcome_bind].
    + apply IH.
    + reflexivity.
Qed.

End BetaFacts.

(** X16.  The beta matrix of the likelihood mode (lines 66-77), for every
    platform whose statistics are answered one entry per column and whose
    [norm.pdf] answers where the scale is not zero.  When each of the first
    [no_p] parents has at least [D] genes and its subpopulation is not
    empty, with genes of one length of at least [D], the computation returns
    a matrix of [no_p] rows in which the entry [i, j] is 1 where the
    standard deviation that [np.std] answered for position [j] of the
    parent's subpopulation is exactly 0, and otherwise the number that
    [norm.pdf] answers for the parent's gene [j], the mean and that standard
    deviation.  No density is asked for with a zero scale: a platform that
    differs in [norm.pdf] at a zero scale only gives the same outcome. *)
Theorem beta_likelihood_density (st : Mfeaii.statistics)
    (parents : list Mfeaii.chromosome)
    (subpops : list (list Mfeaii.chromosome)) (no_p D : nat) :
  columnwise st -> pdf_defined st ->
  no_p <= length parents ->
  (forall i p, i < no_p -> parents !! i = Some p ->
     D <= length (Mfeaii.gene p) /\
     exists g0 sub,
       subpops !! Mfeaii.sf p = Some (g0 :: sub) /\
       D <= length (Mfeaii.gene g0) /\
       Forall (fun c => length (Mfeaii.gene c) = length (Mfeaii.gene g0)) sub) ->
  (exists bl,
     Mfeaii.beta_likelihood st parents subpops no_p D = Return bl /\
     length bl = no_p /\
     forall i j p sub, i < no_p -> j < D ->
       parents !! i = Some p -> subpops !! Mfeaii.sf p = Some sub ->
       exists mean std m d g x,
         Mfeaii.np_mean0 st (map Mfeaii.gene sub) = Return mean /\
         Mfeaii.np_std0 st (map Mfeaii.gene sub) = Return std /\
         mean !! j = Some m /\ std !! j = Some d /\
         Mfeaii.gene p !! j = Some g /\
         Mfeaii.mat_get bl i j = Return x /\
         (d = 0%R -> x = 1%R) /\
         (d <> 0%R -> Mfeaii.norm_pdf st g m d = Return x)) /\
  (forall st', agree_off_zero_scale st st' ->
     Mfeaii.beta_likelihood st' parents subpops no_p D
     = Mfeaii.beta_likelihood st parents subpops no_p D).
Proof.
  intros Hcol Hpdf Hlen Hwf. split.
  2:{ intros st' (Hmean & Hstd & Hdens). unfold Mfeaii.beta_likelihood.
      apply for_fold_ext. intros bl i.
      destruct (index parents i) as [p | e]; [|reflexivity].
      cbn [mbind outcome_bind].
      destruct (index subpops (Mfeaii.sf p)) as [sub | e]; [|reflexivity].
      cbn [mbind outcome_bind].
      destruct (Mfeaii.np_array _) as [a | e]; [|reflexivity].
      cbn [mbind outcome_bind]. rewrite Hmean, Hstd.
      destruct (Mfeaii.np_mean0 st a) as [mean | e]; [|reflexivity].
      cbn [mbind outcome_bind].
      destruct (Mfeaii.np_std0 st a) as [std | e]; [|reflexivity].
      cbn [mbind outcome_bind].
      apply for_fold_ext. intros bl' j.
      destruct (index std j) as [d | e]; [|reflexivity].
      cbn [mbind outcome_bind].
      destruct (Req_dec_T d 0) as [Hz | Hnz]; [reflexivity|].
      destruct (index (Mfeaii.gene p) j) as [g | e]; [|reflexivity].
      cbn [mbind outcome_bind].
      destruct (index mean j) as [m | e]; [|reflexivity].
      cbn [mbind outcome_bind]. now rewrite Hdens. }
  set (E := fun (p : Mfeaii.chromosome) (sub : list Mfeaii.chromosome)
                (j : nat) (x : R) =>
              exists mean std,
                Mfeaii.np_mean0 st (map Mfeaii.gene sub) = Return mean /\
                Mfeaii.np_std0 st (map Mfeaii.gene sub) = Return std /\
                likelihood_at st p mean std j x).
  set (Iout := fun (i : nat) (bl : list (list R)) =>
         length bl = no_p /\
         (forall i' j p sub, i' < i -> i' < no_p -> j < D ->
            parents !! i' = Some p -> subpops !! Mfeaii.sf p = Some sub ->
            exists row x, bl !! i' = Some row /\ row !! j = Some x /\
                          E p sub j x) /\
         (forall i', i <= i' < no_p -> bl !! i' = Some (replicate D 1%R))).
  unfold Mfeaii.beta_likelihood, range.
  destruct (for_fold_seq_total
              (fun bl i =>
                 p ← index parents i;
                 sub ← index subpops (Mfeaii.sf p);
                 concatenate_gene ← Mfeaii.np_array (map Mfeaii.gene sub);
                 mean ← Mfeaii.np_mean0 st concatenate_gene;
                 std ← Mfeaii.np_std0 st concatenate_gene;
                 for_fold (fun bl j =>
                     s ← index std j;
                     if Req_dec_T s 0 then Mfeaii.mat_imul bl i j 1
                     else
                       g ← index (Mfeaii.gene p) j;
                       m ← index mean j;
                       d ← Mfeaii.norm_pdf st g m s;
                       Mfeaii.mat_imul bl i j d)
                   (seq 0 D) bl)
              Iout no_p 0 (Mfeaii.np_ones no_p D))
    as (bl & Hrun & Hbl).
  - unfold Iout, Mfeaii.np_ones; cbv beta. split; [apply length_replicate|].
    split; [intros; lia|]. intros i' Hi'. apply lookup_replicate_2. lia.
  - intros i bl Hi (Hblen & Hdone & Htodo). cbn [Nat.add] in Hi.
    destruct (lookup_lt_is_Some_2 parents i ltac:(lia)) as [p Hp].
    destruct (Hwf i p ltac:(lia) Hp) as (HDp & g0 & sub & Hsub & HDg & Hall).
    pose proof (np_array_genes g0 sub Hall) as Harr.
    destruct (Hcol (Mfeaii.gene g0) (map Mfeaii.gene sub)) as
      ((mean & Hmean & Hmlen) & (std & Hstd & Hslen)).
    { apply Forall_forall. intros r Hr.
      apply list_elem_of_In, in_map_iff in Hr as (c & <- & Hc).
      rewrite Forall_forall in Hall. apply Hall. now apply list_elem_of_In. }
    change (Mfeaii.gene g0 :: map Mfeaii.gene sub)
      with (map Mfeaii.gene (g0 :: sub)) in Hmean, Hstd.
    rewrite (index_Some _ _ _ Hp). cbn [mbind outcome_bind].
    rewrite (index_Some _ _ _ Hsub). cbn [mbind outcome_bind].
    rewrite Harr. cbn [mbind outcome_bind].
    rewrite Hmean. cbn [mbind outcome_bind].
    rewrite Hstd. cbn [mbind outcome_bind].
    set (Jin := fun (j : nat) (bl' : list (list R)) =>
           length bl' = no_p /\
           (forall i', i' <> i -> bl' !! i' = bl !! i') /\
           exists row, bl' !! i = Some row /\ length row = D /\
             (forall j', j' < j -> j' < D ->
                exists x, row !! j' = Some x /\ likelihood_at st p mean std j' x) /\
             (forall j', j <= j' < D -> row !! j' = Some 1%R)).
    match goal with
    | |- exists b', for_fold ?f (seq 0 D) bl = Return b' /\ _ =>
        destruct (for_fold_seq_total f Jin D 0 bl) as (bl' & Hrun' & Hbl')
    end.
    + unfold Jin; cbv beta. split; [exact Hblen|]. split; [reflexivity|].
      exists (replicate D 1%R). split; [apply Htodo; lia|].
      split; [apply length_replicate|]. split; [intros; lia|].
      intros j' Hj'. apply lookup_replicate_2. lia.
    + intros j bl1 [_ Hj] (Hlen1 & Hother & row & Hrow & Hrlen & Hleft & Hright).
      cbn [Nat.add] in Hj.
      destruct (lookup_lt_is_Some_2 std j ltac:(lia)) as [d Hd].
      destruct (lookup_lt_is_Some_2 mean j ltac:(lia)) as [m Hm].
      destruct (lookup_lt_is_Some_2 (Mfeaii.gene p) j ltac:(lia)) as [g Hg].
      rewrite (index_Some _ _ _ Hd). cbn [mbind outcome_bind].
      unfold Mfeaii.matrix in bl1.
      assert (Hnext : forall x, likelihood_at st p mean std j x ->
                Jin (S j) (<[i := <[j := x]> row]> bl1)).
      { intros x Hx. unfold Jin; cbv beta. split; [now rewrite length_insert|]. split.
        - intros i' Hi'. rewrite list_lookup_insert_ne by congruence.
          apply Hother, Hi'.
        - exists (<[j := x]> row). split.
          { apply list_lookup_insert_eq. rewrite Hlen1. lia. }
          split; [now rewrite length_insert|]. split.
          + intros j' Hj' HjD. destruct (decide (j' = j)) as [-> | Hne].
            * exists x. split; [|exact Hx].
              apply list_lookup_insert_eq. lia.
            * destruct (Hleft j' ltac:(lia) HjD) as (x' & Hx' & Hgood).
              exists x'. split; [|exact Hgood].
              now rewrite list_lookup_insert_ne by congruence.
          + intros j' Hj'. rewrite list_lookup_insert_ne by lia.
            apply Hright. lia. }
      destruct (Req_dec_T d 0) as [Hz | Hnz].
      * rewrite (mat_imul_one bl1 i j 1 row Hrow (Hright j ltac:(lia))).
        eexists. split; [reflexivity|]. apply Hnext.
        exists m, d, g. repeat (split; [assumption|]).
        split; [reflexivity | intros Hne; contradiction].
      * rewrite (index_Some _ _ _ Hg). cbn [mbind outcome_bind].
        rewrite (index_Some _ _ _ Hm). cbn [mbind outcome_bind].
        destruct (Hpdf g m d Hnz) as (x & Hx). rewrite Hx.
        cbn [mbind outcome_bind].
        rewrite (mat_imul_one bl1 i j _ row Hrow (Hright j ltac:(lia))).
        eexists. split; [reflexivity|]. apply Hnext.
        exists m, d, g. repeat (split; [assumption|]).
        split; [intros Hz; contradiction | intros _; exact Hx].
    + exists bl'. split; [exact Hrun'|].
      destruct Hbl' as (Hlen' & Hother & row & Hrow & Hrlen & Hleft & _).
      unfold Iout; cbv beta. split; [exact Hlen'|]. split.
      * intros i' j p' sub' Hi' Hi'n Hj Hp' Hsub'.
        destruct (decide (i' = i)) as [-> | Hne].
        -- assert (p' = p) as -> by congruence.
           assert (sub' = g0 :: sub) as -> by congruence.
           destruct (Hleft j ltac:(lia) Hj) as (x & Hx & Hgood).
           exists row, x. split; [exact Hrow|]. split; [exact Hx|].
           exists mean, std. auto.
        -- rewrite (Hother i' Hne). apply Hdone; try assumption. lia.
      * intros i' Hi'. rewrite Hother by lia. apply Htodo. lia.
  - exists bl. split; [exact Hrun|]. destruct Hbl as (Hblen & Hdone & _).
    split; [exact Hblen|]. intros i j p sub Hi Hj Hp Hsub.
    destruct (Hdone i j p sub ltac:(lia) Hi Hj Hp Hsub)
      as (row & x & Hrow & Hentry & mean & std & Hmean & Hstd
          & m & d & g & Hm & Hd & Hg & Hzero & Hdens).
    exists mean, std, m, d, g, x.
    repeat (split; [assumption|]). split; [|split; assumption].
    unfold Mfeaii.mat_get. rewrite (index_Some _ _ _ Hrow). cbn [mbind outcome_bind].
    now rewrite (index_Some _ _ _ Hentry).
Qed.

Section ExactStatistics.

Import Mfeaii Examples.

Lemma exact_statistics_columnwise : columnwise exact_statistics.
Proof.
  intros r a _. split; eexists; (split; [reflexivity|]);
    rewrite length_map; apply length_seq.
Qed.

Lemma exact_statistics_pdf_defined : pdf_defined exact_statistics.
Proof.
  intros x loc scale Hne. cbn [norm_pdf exact_statistics].
  destruct (Req_dec_T scale 0); [contradiction | eauto].
Qed.

End ExactStatistics.

(** X16 on the exact statistics and two parents, of a subpopulation of two
    and of one. *)
Lemma beta_likelihood_density_witness :
  exists bl,
    Mfeaii.beta_likelihood Examples.exact_statistics
      [Examples.chrom 0 1; Examples.chrom 1 2]%R
      [[Examples.chrom 0 1; Examples.chrom 0 3]; [Examples.chrom 1 2]]%R 2 2
    = Return bl /\ length bl = 2.
Proof.
  destruct (beta_likelihood_density Examples.exact_statistics
              [Examples.chrom 0 1; Examples.chrom 1 2]%R
              [[Examples.chrom 0 1; Examples.chrom 0 3]; [Examples.chrom 1 2]]%R
              2 2 exact_statistics_columnwise exact_statistics_pdf_defined)
    as ((bl & Hbl & Hlen & _) & _).
  - simpl. lia.
  - intros i p Hi Hp.
    destruct i as [|[|i]]; [| |lia]; injection Hp as <-; (split; [simpl; lia|]).
    + exists (Examples.chrom 0 1), [Examples.chrom 0 3]%R.
      split; [reflexivity|]. split; [simpl; lia|]. repeat constructor.
    + exists (Examples.chrom 1 2), [].
      split; [reflexivity|]. split; [simpl; lia|]. constructor.
  - exists bl. split; [exact Hbl | exact Hlen].
Defined.

Section CompletionFacts.

Import Mfeaii.
Context {rand result : Type}.
Variable npr : np_random rand.
Variable population : Slgep_pop rand result.
Implicit Types s : state rand result.

Lemma run_total_keeps {A} (m : M rand result A) (Q : A -> Prop)
    (R : state rand result -> state rand result -> Prop) s :
  total m Q -> keeps R m -> exists a s', m s = (Return a, s') /\ Q a /\ R s s'.
Proof.
  intros Ht Hk. destruct (Ht s) as (a & Ha & Hq). specialize (Hk s).
  destruct (m s) as [o s']. cbn in Ha, Hk. subst o. eauto.
Qed.

Lemma parents_read_total (k : nat) (l : list nat) s :
  (forall i, i ∈ l -> k + i < length (pop s)) ->
  exists ps, comprehensionM (fun i => pop_get (k + i)) l s = (Return ps, s).
Proof.
  induction l as [|i l IH]; intros Hl; cbn [comprehensionM].
  - eexists. reflexivity.
  - destruct (index_lt (pop s) (k + i)) as [p Hp].
    { apply Hl, list_elem_of_here. }
    destruct IH as [ps Hps].
    { intros j Hj. apply Hl, list_elem_of_further, Hj. }
    rewrite bind_run, pop_get_run, Hp, bind_run, Hps. eexists. reflexivity.
Qed.

Lemma comprehension_total {A B} (f : A -> outcome B) (l : list A) :
  (forall a, a ∈ l -> returns (f a)) ->
  exists bs, comprehension f l = Return bs /\ length bs = length l.
Proof.
  induction l as [|a l IH]; intros Hl; cbn [comprehension].
  - exists []. split; reflexivity.
  - destruct (Hl a (list_elem_of_here _ _)) as [b ->]. cbn [mbind outcome_bind].
    destruct IH as (bs & -> & Hlen).
    { intros a' Ha'. apply Hl, list_elem_of_further, Ha'. }
    exists (b :: bs). split; [reflexivity | cbn; lia].
Qed.

Lemma mat_get_square (K : nat) (m : matrix) (i j : nat) :
  square K m -> i < K -> j < K -> returns (mat_get m i j).
Proof.
  intros [Hlen Hrows] Hi Hj. unfold mat_get.
  destruct (lookup_lt_is_Some_2 m i ltac:(lia)) as [row Hrow].
  rewrite (index_Some _ _ _ Hrow). cbn [mbind outcome_bind].
  apply (proj1 (Forall_lookup _ _) Hrows) in Hrow as Hrl.
  destruct (index_lt row j ltac:(lia)) as [x ->]. eexists. reflexivity.
Qed.

Lemma total_cross_task_children mr rmp parents bl no_p :
  randint_in_range npr -> crossover_second_keeps_count population ->
  length parents = no_p -> 0 < no_p ->
  total (cross_task_children npr population mr rmp parents bl no_p)
        (fun cl => length cl = no_p).
Proof.
  intros Hin Hcount Hlen Hpos.
  assert (Hne : map sf parents <> []).
  { destruct parents; [cbn in Hlen; lia | discriminate]. }
  unfold cross_task_children.
  eapply total_bind.
  { apply (total_method _ (fun cl => length cl = no_p)).
    intros p r. now rewrite Hcount. }
  intros cl0 Hcl0. apply total_for_foldM; [exact Hcl0|].
  intros j cl1 Hj Hcl1. unfold range in Hj. apply elem_of_seq in Hj.
  eapply total_bind; [apply total_mutate_child; lia|].
  intros cl2 Hcl2. cbv beta zeta in Hcl2 |- *.
  eapply total_bind; [apply (total_random_choice npr _ Hin Hne)|].
  intros t _.
  destruct (assign_sf_lt cl2 j t ltac:(lia)) as (cl3 & -> & Hcl3).
  apply total_lift. congruence.
Qed.

End CompletionFacts.

(** X17.  A group of mixed skill factors completes.  With the normal beta,
    random indices in range, crossovers that give as many children as
    parents, a K-by-K RMP matrix, skill factors below K, and the offspring
    slots of the group present, the iteration for a group in which two
    parents differ in skill factor returns: it raises nothing, whichever of
    the cross-task and the relatives branch the draw selects. *)
Theorem mixed_group_completes {rand result : Type}
    (npr : Mfeaii.np_random rand) (population : Mfeaii.Slgep_pop rand result)
    (N no_par D K : nat) (mr pmdi : R)
    (rmp_matrix : Mfeaii.matrix) (subpops : list (list Mfeaii.chromosome))
    (k : nat) (s : Mfeaii.state rand result) :
  let no_p := Nat.min (N - k) no_par in
  randint_in_range npr ->
  crossover_keeps_count population ->
  crossover_second_keeps_count population ->
  square K rmp_matrix ->
  N + k + no_p <= length (Mfeaii.pop s) ->
  (forall i p, i < no_p -> Mfeaii.pop s !! (k + i) = Some p -> Mfeaii.sf p < K) ->
  (exists i j p q, i < no_p /\ j < no_p /\
     Mfeaii.pop s !! (k + i) = Some p /\ Mfeaii.pop s !! (k + j) = Some q /\
     Mfeaii.sf p <> Mfeaii.sf q) ->
  fst (Mfeaii.pair_group npr population N no_par D mr pmdi true rmp_matrix
         subpops k s) = Return tt.
Proof.
  intros no_p Hin Hc1 Hc2 Hsq Hslots Hsf (i1 & j1 & p1 & q1 & Hi1 & Hj1 & Hp1 & Hq1 & Hne).
  pose proof (same_pop_blind (rand:=rand) (result:=result)) as HR.
  assert (Hij : i1 <> j1) by (intros ->; congruence).
  unfold Mfeaii.pair_group. cbv zeta. fold no_p.
  destruct (parents_read_total (result:=result) k (range no_p) s) as [parents Hparents].
  { intros i Hi. unfold range in Hi. apply elem_of_seq in Hi. lia. }
  rewrite bind_run, Hparents.
  apply parents_read in Hparents as (_ & Hlen & Hread).
  rewrite bind_run. unfold Mfeaii.draw at 1.
  destruct (Mfeaii.random_normal npr (7 / 10) (1 / 10) no_p D (Mfeaii.seed s))
    as [bl r].
  set (s2 := {| Mfeaii.pop := Mfeaii.pop s; Mfeaii.seed := r;
                Mfeaii.reported := Mfeaii.reported s |}).
  destruct (Hread 0 ltac:(lia)) as (p0 & Hp0 & Hpop0).
  destruct (comprehension_total
              (fun i => p0 ← index parents 0; p ← index parents i;
                        Mfeaii.mat_get rmp_matrix (Mfeaii.sf p0) (Mfeaii.sf p))
              (range2 1 no_p)) as (rmps & Hrmps & Hrlen).
  { intros i Hi. unfold range2 in Hi. apply elem_of_seq in Hi.
    destruct (Hread i ltac:(lia)) as (p & Hp & Hpop).
    rewrite (index_Some _ _ _ Hp0). cbn [mbind outcome_bind].
    rewrite (index_Some _ _ _ Hp). cbn [mbind outcome_bind].
    apply (mat_get_square K); [exact Hsq | |].
    - apply (Hsf 0 p0); [lia | exact Hpop0].
    - apply (Hsf i p); [lia | exact Hpop]. }
  rewrite bind_run. unfold Mfeaii.lift at 1. rewrite Hrmps.
  rewrite bind_run. unfold Mfeaii.lift at 1.
  destruct rmps as [|x rmps].
  { unfold range2 in Hrlen. rewrite length_seq in Hrlen. cbn [length] in Hrlen. lia. }
  cbn [Mfeaii.np_max Mfeaii.np_max_by].
  rewrite bind_run. unfold Mfeaii.lift at 1.
  destruct (same_skill_factor_spec parents no_p ltac:(lia)) as (b & Hb & Hiff).
  rewrite Hb. destruct b.
  { exfalso. apply Hne.
    destruct (Hread i1 Hi1) as (p & Hp & Hpp).
    destruct (Hread j1 Hj1) as (q & Hq & Hqq).
    assert (p = p1) as <- by congruence. assert (q = q1) as <- by congruence.
    apply (proj1 Hiff eq_refl i1 j1); assumption. }
  rewrite bind_run. unfold Mfeaii.draw at 1.
  destruct (Mfeaii.random_rand npr (Mfeaii.seed s2)) as [u r'].
  set (s3 := {| Mfeaii.pop := Mfeaii.pop s2; Mfeaii.seed := r';
                Mfeaii.reported := Mfeaii.reported s2 |}).
  rewrite bind_run.
  set (branch := if Rlt_dec u (fold_left Rmax rmps x)
                 then Mfeaii.cross_task_children npr population mr rmp_matrix
                        parents bl no_p
                 else Mfeaii.relatives_children population mr parents bl no_p).
  destruct (run_total_keeps branch (fun cl => length cl = no_p) same_pop s3)
    as (cl & s4 & Hbranch & Hcl & Hs4).
  { unfold branch. destruct (Rlt_dec u (fold_left Rmax rmps x)).
    - apply total_cross_task_children; [exact Hin | exact Hc2 | exact Hlen | lia].
    - apply total_relatives_children; [exact Hc1 | exact Hlen | lia]. }
  { unfold branch. destruct (Rlt_dec u (fold_left Rmax rmps x));
      [apply keeps_cross_task_children | apply keeps_relatives_children];
      exact HR. }
  rewrite Hbranch.
  destruct (write_back_total N k cl no_p 0 s4) as [s5 Hwb]; [lia | |].
  { unfold same_pop in Hs4. rewrite Hs4. cbn. lia. }
  unfold Mfeaii.replace_with_children, range. now rewrite Hwb.
Qed.

(** X17 on K = 2 and one group of two parents of the tasks 0 and 1. *)
Lemma mixed_group_completes_witness :
  fst (Mfeaii.pair_group Examples.fixed_random (Examples.copying_pop 2)
         2 2 2 (1 / 10) 5 true (Examples.ones 2) [] 0
         (Examples.start Examples.mixed4))
  = Return tt.
Proof.
  apply (mixed_group_completes Examples.fixed_random (Examples.copying_pop 2)
           2 2 2 2 (1 / 10) 5 (Examples.ones 2) [] 0
           (Examples.start Examples.mixed4)).
  - intros n r Hn. exact Hn.
  - intros pop parents bl r. reflexivity.
  - intros pop parents bl rmp r. reflexivity.
  - split; [reflexivity | repeat constructor].
  - simpl. lia.
  - intros i p Hi. change (Nat.min (2 - 0) 2) with 2 in Hi.
    destruct i as [|[|i]]; [| |lia]; cbn; intros [= <-]; cbn; lia.
  - exists 0, 1, (Examples.chrom 0 1), (Examples.chrom 1 2).
    cbn. repeat split; try lia.
Defined.

(** * The environments *)

Section StoreFacts.

Import Gym.
Context {num : Type} `{arith num}.

Lemma setitem_run (k i : nat) (v : num) (h : list (list num)) (a : list num) :
  h !! k = Some a -> i < length a ->
  setitem k i v h = Ok (tt, <[k := <[i := float64 v]> a]> h).
Proof.
  intros Hk Hi. unfold setitem. rewrite Hk.
  destruct (decide (i < length a)); [reflexivity | lia].
Qed.

Lemma load_run (k : nat) (h : list (list num)) (a : list num) :
  h !! k = Some a -> load k h = Ok (a, h).
Proof. intros Hk. unfold load. now rewrite Hk. Qed.

End StoreFacts.

Section IntegratorFacts.

Import Gym doublepole_710_v1.
Context {num rand : Type} `{arith num}.
Implicit Types self : DoublePole710v1 (num:=num) (rand:=rand).

(** A stage overwrites the six entries of its array with the slope. *)
Lemma stage_run self (force : num) (k : nat) (y : list num) (h : list (list num))
    (a : list num) :
  h !! k = Some a -> length a = 6 ->
  stage self force k y h
  = match slope self force y with
    | Ok K => Ok (tt, <[k := K]> h)
    | Err e => Err e
    end.
Proof.
  intros Hk Hlen.
  destruct a as [|a0 [|a1 [|a2 [|a3 [|a4 [|a5 [|a6 a]]]]]]]; try discriminate Hlen.
  pose proof (lookup_lt_Some _ _ _ Hk) as Hlt.
  unfold stage, slope, st_bind, pure.
  destruct (_cal_acc self force y) as [acc | e]; [|reflexivity].
  cbn [mbind answer_bind].
  destruct (unpack3 acc) as [[[a b] c] | e]; [|reflexivity].
  cbn [mbind answer_bind].
  rewrite (setitem_run k 1 a h _ Hk) by (cbn; lia).
  erewrite setitem_run;
    [|apply list_lookup_insert_eq; rewrite ?length_insert; exact Hlt | cbn; lia].
  erewrite setitem_run;
    [|apply list_lookup_insert_eq; rewrite ?length_insert; exact Hlt | cbn; lia].
  destruct (builtin (index y 1)) as [v1 | e]; [|reflexivity].
  cbn [mbind answer_bind].
  erewrite setitem_run;
    [|apply list_lookup_insert_eq; rewrite ?length_insert; exact Hlt | cbn; lia].
  destruct (builtin (index y 3)) as [v3 | e]; [|reflexivity].
  cbn [mbind answer_bind].
  erewrite setitem_run;
    [|apply list_lookup_insert_eq; rewrite ?length_insert; exact Hlt | cbn; lia].
  destruct (builtin (index y 5)) as [v5 | e]; [|reflexivity].
  cbn [mbind answer_bind].
  erewrite setitem_run;
    [|apply list_lookup_insert_eq; rewrite ?length_insert; exact Hlt | cbn; lia].
  rewrite !list_insert_insert_eq. reflexivity.
Qed.


Lemma slope_length self (force : num) (y K : list num) :
  slope self force y = Ok K -> length K = 6.
Proof.
  unfold slope. destruct (_cal_acc self force y) as [acc | e]; [|discriminate].
  cbn [mbind answer_bind].
  destruct (unpack3 acc) as [[[a b] c] | e]; [|discriminate].
  cbn [mbind answer_bind].
  destruct (builtin (index y 1)); [|discriminate]. cbn [mbind answer_bind].
  destruct (builtin (index y 3)); [|discriminate]. cbn [mbind answer_bind].
  destruct (builtin (index y 5)); [|discriminate]. cbn [mbind answer_bind].
  intros [= <-]. reflexivity.
Qed.



Ltac run_stages :=
  unfold Gym.run, Gym.alloc;
  unfold stages, slopes, combination;
  unfold Gym.st_bind, Gym.load, Gym.pure;
  repeat (cbn -[stage slope];
          match goal with
          | |- context [stage ?self ?force ?k ?y ?h] =>
              erewrite (stage_run self force k y h);
              [|reflexivity | first [reflexivity | eassumption]]
          | |- context [slope ?self ?force ?y] =>
              let HK := fresh "HK" in
              destruct (slope self force y) eqn:HK;
              [apply slope_length in HK | reflexivity]
          | |- context [Gym.numeric ?o] => destruct o; [|reflexivity]
          end);
  reflexivity.

(** With one array under four names, the slopes of the first three stages
    are overwritten before line 200 reads them. *)
Lemma integrate_eq self (force x xd theta1 theta1d theta2 theta2d : num) :
  integrate self force x xd theta1 theta1d theta2 theta2d
  = (sizes ← step_sizes;
     let '(h, h2, h6) := sizes in
     K ← slopes self force h h2
           (np_array [x; xd; theta1; theta1d; theta2; theta2d]);
     let '(K1, K2, K3, K4) := K in
     combination h6 (np_array [x; xd; theta1; theta1d; theta2; theta2d])
       K4 K4 K4 K4).
Proof.
  unfold integrate.
  destruct step_sizes as [[[h h2] h6] | e]; [|reflexivity].
  cbn [mbind Gym.answer_bind]. run_stages.
Qed.

Lemma integrate_with_four_arrays_eq self
    (force x xd theta1 theta1d theta2 theta2d : num) :
  integrate_with_four_arrays self force x xd theta1 theta1d theta2 theta2d
  = (sizes ← step_sizes;
     let '(h, h2, h6) := sizes in
     K ← slopes self force h h2
           (np_array [x; xd; theta1; theta1d; theta2; theta2d]);
     let '(K1, K2, K3, K4) := K in
     combination h6 (np_array [x; xd; theta1; theta1d; theta2; theta2d])
       K1 K2 K3 K4).
Proof.
  unfold integrate_with_four_arrays.
  destruct step_sizes as [[[h h2] h6] | e]; [|reflexivity].
  cbn [mbind Gym.answer_bind]. run_stages.
Qed.

End IntegratorFacts.

(** X18. The Runge-Kutta block of [step] in [doublepole_710_v1.py]:
    [k1 = k2 = k3 = k4 = np.zeros((6, ))] gives one array four names, so
    each stage overwrites the slope of the stage before it and line 200
    combines the slope of the last stage four times.  With K1, K2, K3 and K4
    the slopes at [s], [s + h2*K1], [s + h2*K2] and [s + h*K3], the next
    state is [s + h6*(K4 + 2*(K4 + K4) + K4)]; the same statements on four
    arrays give [s + h6*(K1 + 2*(K2 + K3) + K4)]. *)
Theorem integrator_uses_last_slope_only {num rand : Type} `{Gym.arith num}
    (self : doublepole_710_v1.DoublePole710v1 (num:=num) (rand:=rand))
    (force x xd theta1 theta1d theta2 theta2d : num) :
  let s := Gym.np_array [x; xd; theta1; theta1d; theta2; theta2d] in
  doublepole_710_v1.integrate self force x xd theta1 theta1d theta2 theta2d
  = (sizes ← doublepole_710_v1.step_sizes;
     let '(h, h2, h6) := sizes in
     K ← doublepole_710_v1.slopes self force h h2 s;
     let '(K1, K2, K3, K4) := K in
     doublepole_710_v1.combination h6 s K4 K4 K4 K4) /\
  doublepole_710_v1.integrate_with_four_arrays self force x xd theta1 theta1d
    theta2 theta2d
  = (sizes ← doublepole_710_v1.step_sizes;
     let '(h, h2, h6) := sizes in
     K ← doublepole_710_v1.slopes self force h h2 s;
     let '(K1, K2, K3, K4) := K in
     doublepole_710_v1.combination h6 s K1 K2 K3 K4).
Proof.
  intros s. split.
  - apply integrate_eq.
  - apply integrate_with_four_arrays_eq.
Qed.

Section AnswerFacts.

Import Gym.
Context {num : Type} `{arith num}.

Lemma in_range_Ok {A} (a : A) : in_range (Ok a).
Proof. discriminate. Qed.

Lemma in_range_numeric {A} (o : outcome A) : in_range (numeric o).
Proof. destruct o; discriminate. Qed.

Lemma in_range_bind {A B} (a : answer A) (k : A -> answer B) :
  in_range a -> (forall x, a = Ok x -> in_range (k x)) -> in_range (a ≫= k).
Proof.
  intros Ha Hk. destruct a as [x | e]; cbn [mbind answer_bind].
  - apply Hk. reflexivity.
  - intros [= ->]. now apply Ha.
Qed.

Lemma in_range_binop (op : num -> num -> outcome num) (a b : answer num) :
  in_range a -> in_range b -> in_range (binop op a b).
Proof.
  intros Ha Hb. unfold binop. apply in_range_bind; [exact Ha|]. intros x _.
  apply in_range_bind; [exact Hb|]. intros y _. apply in_range_numeric.
Qed.

Lemma in_range_unpack6 (l : list num) : in_range (unpack6 l).
Proof.
  destruct l as [|a [|b [|c [|d [|e [|f [|g l]]]]]]]; discriminate.
Qed.

Lemma in_range_unpack3 (l : list num) : in_range (unpack3 l).
Proof. destruct l as [|a [|b [|c [|d l]]]]; discriminate. Qed.

Lemma in_range_index {A} (l : list A) (i : nat) :
  i < length l -> in_range (builtin (index l i)).
Proof. intros Hi. destruct (index_lt l i Hi) as [a ->]. discriminate. Qed.

End AnswerFacts.

Ltac solve_in_range :=
  repeat first
    [ apply in_range_Ok
    | apply in_range_numeric
    | apply in_range_unpack6
    | apply in_range_unpack3
    | apply in_range_binop
    | apply in_range_bind; [|intros ? _]
    | match goal with |- Gym.in_range (let '(_, _) := ?x in _) => destruct x end ].

Section WindowFacts.

Import Gym doublepole_710_v1.
Context {num rand : Type} `{arith num}.
Variable gen : generator rand num.
Implicit Types self : DoublePole710v1 (num:=num) (rand:=rand).

Lemma in_range_cal_acc self (force : num) (y : list num) :
  in_range (_cal_acc self force y).
Proof.
  unfold _cal_acc. apply in_range_bind; [apply in_range_unpack6|].
  intros [[[[[x xd] theta1] theta1d] theta2] theta2d] _.
  unfold var, lit, int. solve_in_range.
Qed.

Lemma in_range_slope self (force : num) (y : list num) :
  length y = 6 -> in_range (slope self force y).
Proof.
  intros Hy. unfold slope. apply in_range_bind; [apply in_range_cal_acc|].
  intros acc _. apply in_range_bind; [apply in_range_unpack3|].
  intros [[a b] c] _.
  apply in_range_bind; [apply in_range_index; lia|]. intros v1 _.
  apply in_range_bind; [apply in_range_index; lia|]. intros v3 _.
  apply in_range_bind; [apply in_range_index; lia|]. intros v5 _.
  apply in_range_Ok.
Qed.


Lemma numeric_Ok {A} (o : outcome A) (a : A) : numeric o = Ok a -> o = Return a.
Proof. destruct o; [intros [= ->]; reflexivity | discriminate]. Qed.

Lemma in_range_step_sizes : in_range (step_sizes (num:=num)).
Proof. unfold step_sizes, var, lit, int. solve_in_range. Qed.

Lemma in_range_slopes self (force h h2 : num) (s : list num) :
  elementwise num -> length s = 6 ->
  in_range (slopes self force h h2 s) /\
  forall K1 K2 K3 K4, slopes self force h h2 s = Ok (K1, K2, K3, K4) ->
                      length K4 = 6.
Proof.
  intros [Hadd Hmul] Hs. unfold slopes.
  assert (Hnext : forall (c : num) (K : list num) (k : list num -> answer
                    (list num * list num * list num * list num)),
            length K = 6 ->
            (forall y, length y = 6 -> in_range (k y)) ->
            in_range (t ← numeric (ndarray_rmul c K);
                      y ← numeric (ndarray_add s t); k y)).
  { intros c K k HK Hk. apply in_range_bind; [apply in_range_numeric|].
    intros t Ht. apply numeric_Ok, Hmul in Ht.
    apply in_range_bind; [apply in_range_numeric|].
    intros y Hy. apply numeric_Ok, Hadd in Hy; [|congruence].
    apply Hk. congruence. }
  split.
  - apply in_range_bind; [apply in_range_slope, Hs|]. intros K1 HK1.
    apply slope_length in HK1. apply Hnext; [exact HK1|]. intros ns Hns.
    apply in_range_bind; [apply in_range_slope, Hns|]. intros K2 HK2.
    apply slope_length in HK2. apply Hnext; [exact HK2|]. intros nns Hnns.
    apply in_range_bind; [apply in_range_slope, Hnns|]. intros K3 HK3.
    apply slope_length in HK3. apply Hnext; [exact HK3|]. intros nnns Hnnns.
    apply in_range_bind; [apply in_range_slope, Hnnns|]. intros K4 _.
    apply in_range_Ok.
  - intros K1 K2 K3 K4.
    repeat match goal with
           | |- context [slope ?self ?force ?y] =>
               let HK := fresh "HK" in
               destruct (slope self force y) eqn:HK; [|discriminate];
               cbn [mbind answer_bind]
           | |- context [numeric ?o] =>
               destruct o; cbn [numeric mbind answer_bind]; [|discriminate]
           end.
    intros [= <- <- <- <-]. eapply slope_length. eassumption.
Qed.

Lemma in_range_integrate self (force x xd theta1 theta1d theta2 theta2d : num) :
  elementwise num ->
  in_range (integrate self force x xd theta1 theta1d theta2 theta2d).
Proof.
  intros Hel. rewrite integrate_eq.
  apply in_range_bind; [apply in_range_step_sizes|].
  intros [[h h2] h6] _.
  destruct (in_range_slopes self force h h2
              (np_array [x; xd; theta1; theta1d; theta2; theta2d]) Hel eq_refl)
    as [Hin _].
  apply in_range_bind; [exact Hin|]. intros [[[K1 K2] K3] K4] _.
  unfold combination. solve_in_range.
Qed.

(** The loop of lines 213-214 reads the first hundred entries. *)
Lemma in_range_window_loop (past : list (list num)) (l : list nat) (vp : num) :
  (forall i, i ∈ l -> i < length past) ->
  in_range (for_loop (fun vp i =>
                row ← builtin (index past i);
                a ← numeric (np_abs row);
                binop add (var vp) (numeric (np_sum a)))
              l vp).
Proof.
  revert vp. induction l as [|i l IH]; intros vp Hl; cbn [for_loop].
  - apply in_range_Ok.
  - apply in_range_bind.
    + apply in_range_bind.
      { apply in_range_index, Hl, list_elem_of_here. }
      intros row _. unfold var. solve_in_range.
    + intros vp' _. apply IH. intros j Hj. apply Hl, list_elem_of_further, Hj.
Qed.

Lemma window_spec self :
  (100 <= T self -> 100 < length (past_result self)) ->
  in_range (window self) /\
  forall f2 rest, window self = Ok (f2, rest) ->
    length rest = if 100 <=? T self then length (past_result self) - 1
                  else length (past_result self).
Proof.
  intros Hlen. unfold window.
  destruct (100 <=? T self) eqn:HT.
  - apply Nat.leb_le in HT. specialize (Hlen HT). split.
    + apply in_range_bind.
      { apply in_range_window_loop. intros i Hi. unfold range in Hi.
        apply elem_of_seq in Hi. lia. }
      intros vp _. apply in_range_bind; [unfold lit, var; solve_in_range|].
      intros f2 _. apply in_range_bind; [|intros; apply in_range_Ok].
      destruct (past_result self); [cbn in Hlen; lia | discriminate].
    + intros f2 rest.
      destruct (for_loop _ _ _) as [vp | e]; [|discriminate].
      cbn [mbind answer_bind].
      destruct (binop truediv _ _) as [f | e]; [|discriminate].
      cbn [mbind answer_bind].
      destruct (past_result self) as [|r0 past]; [discriminate|].
      cbn. intros [= _ <-]. lia.
  - split; [apply in_range_Ok|]. intros f2 rest [= _ <-]. reflexivity.
Qed.

End WindowFacts.

Section MethodFacts.

Import Gym.
Context {num : Type} `{arith num} {S O : Type}.

Lemma andthen_spec {A B} (P : answer B * S -> Prop)
    (a : answer A) (self : S) (k : A -> answer B * S) :
  (forall e, a = Err e -> P (Err e, self)) ->
  (forall x, a = Ok x -> P (k x)) ->
  P (andthen a self k).
Proof. intros He Hk. destruct a; cbn; auto. Qed.

Variable step : Z -> method S (O * num * bool).

Lemma episode_cons (a : Z) (actions : list Z) (self : S) :
  episode step (a :: actions) self
  = (fst (step a self) :: fst (episode step actions (snd (step a self))),
     snd (episode step actions (snd (step a self)))).
Proof.
  cbn [episode]. destruct (step a self) as [r self1]. cbn [fst snd].
  destruct (episode step actions self1). reflexivity.
Qed.

(** A counter that a step raises exactly when it returns [done = True]
    counts the steps of an episode that did. *)
Variable counter : S -> option nat.
Hypothesis step_counts : forall a self,
  counter (snd (step a self))
  = if said_done (fst (step a self))
    then Some (match counter self with
               | None => 0
               | Some n => Datatypes.S n
               end)
    else counter self.

Lemma episode_counts (actions : list Z) (self : S) :
  counter (snd (episode step actions self))
  = match dones (fst (episode step actions self)) with
    | 0 => counter self
    | Datatypes.S d => Some (match counter self with
                             | None => d
                             | Some n => n + Datatypes.S d
                             end)
    end.
Proof using step_counts.
  revert self. induction actions as [|a actions IH]; intros self.
  - reflexivity.
  - rewrite episode_cons. cbn [fst snd]. rewrite IH, step_counts.
    unfold dones. cbn [List.filter].
    destruct (said_done (fst (step a self))); cbn [length].
    + destruct (length (List.filter said_done _)) as [|d];
        destruct (counter self); f_equal; lia.
    + reflexivity.
Qed.

End MethodFacts.

Section StepFacts.

Import Gym doublepole_710_v1.
Context {num rand : Type} `{arith num}.
Implicit Types self : DoublePole710v1 (num:=num) (rand:=rand).

Lemma in_range_fallen self (x t1 t2 : num) : in_range (fallen self x t1 t2).
Proof.
  unfold fallen, or_else, less, greater, uminus, var.
  repeat first
    [ apply in_range_Ok
    | apply in_range_numeric
    | apply in_range_bind; [|intros ? _]
    | match goal with |- in_range (if ?b then _ else _) => destruct b end ].
Qed.

Lemma in_range_reward_of self (done : bool) (f1 f2 : num) :
  in_range (reward_of self done f1 f2).
Proof.
  unfold reward_of, lit, var. destruct done; cbn [negb].
  - destruct (steps_beyond_done self); apply in_range_Ok.
  - solve_in_range.
Qed.

Lemma Err_in_range {A} (a : answer A) (e : raised) :
  in_range a -> a = Err e -> e <> Builtin IndexError.
Proof. intros Ha -> ->. now apply Ha. Qed.

Lemma step_between self (action : Z) :
  elementwise num -> between_steps self ->
  contains (action_space self) action = true ->
  between_steps (snd (step action self)) /\
  in_range (fst (step action self)) /\
  (forall r, fst (step action self) = Ok r ->
     length (past_result self) = Nat.min (S (T self)) 100 ->
     length (past_result (snd (step action self)))
     = Nat.min (S (S (T self))) 100).
Proof.
  intros Hel ((a & b & c & Hstate) & Hlow & Hhigh) Hact.
  set (P := fun r : answer (list num * num * bool)
                     * DoublePole710v1 (num:=num) (rand:=rand) =>
              between_steps (snd r) /\
              in_range (fst r) /\
              (forall x, fst r = Ok x ->
                 length (past_result self) = Nat.min (S (T self)) 100 ->
                 length (past_result (snd r)) = Nat.min (S (S (T self))) 100)).
  change (P (step action self)).
  assert (Hfail : forall e self',
            e <> Builtin IndexError -> between_steps self' -> P (Err e, self')).
  { intros e self' He Hb. split; [exact Hb|].
    split; [intros [= ->]; now apply He | discriminate]. }
  unfold step. cbn [action_space set_T]. rewrite Hact. cbn [negb].
  cbn [state set_T]. rewrite Hstate.
  cbn [iterable unpack3 mbind answer_bind andthen].
  cbn [force_mag kinematics_integrator past_result cart_v pole1_v pole2_v T
       set_T set_past_result].
  set (self2 := set_past_result _ _).
  assert (H2 : between_steps self2).
  { unfold self2, between_steps.
    cbn [T past_result state set_T set_past_result].
    rewrite length_app. cbn [length]. split; [eauto|]. split; intros; lia. }
  apply andthen_spec.
  { intros e He. apply Hfail; [|exact H2].
    destruct (action =? 1)%Z; [discriminate He|].
    unfold uminus, var in He. cbn [mbind answer_bind] in He.
    eapply Err_in_range; [|exact He]. apply in_range_numeric. }
  intros force _. apply andthen_spec.
  { intros e He. apply Hfail; [|exact H2].
    eapply Err_in_range; [|exact He].
    destruct (String.eqb _ _); [discriminate|].
    apply in_range_bind; [apply in_range_integrate, Hel|].
    intros; apply in_range_unpack6. }
  intros [[[[[new_x new_x_dot] new_theta_1] new_theta_1_dot] new_theta_2]
            new_theta_2_dot] _.
  set (self3 := set_state _ _).
  assert (H3 : between_steps self3).
  { unfold self3, self2, between_steps.
    cbn [T past_result state set_T set_past_result set_state set_velocities].
    rewrite length_app. cbn [length]. split; [eauto|]. split; intros; lia. }
  apply andthen_spec.
  { intros e He. apply Hfail; [|exact H3].
    eapply Err_in_range; [|exact He]. unfold int. solve_in_range. }
  intros f1 _.
  destruct (window_spec self3) as [Hwin Hrest].
  { unfold self3, self2.
    cbn [T past_result set_T set_past_result set_state set_velocities].
    rewrite length_app. cbn [length]. intros; lia. }
  apply andthen_spec.
  { intros e He. apply Hfail; [|exact H3].
    eapply Err_in_range; [|exact He]. exact Hwin. }
  intros [f2 rest] Hw. apply Hrest in Hw.
  unfold self3, self2 in Hw.
  cbn [T past_result set_T set_past_result set_state set_velocities] in Hw.
  rewrite length_app in Hw. cbn [length] in Hw.
  assert (Hlen : (100 <= S (T self) ->
                  length rest = length (past_result self)) /\
                 (S (T self) < 100 ->
                  length rest = S (length (past_result self)))).
  { revert Hw. destruct (100 <=? S (T self)) eqn:HT; intros Hw;
      [apply Nat.leb_le in HT | apply Nat.leb_gt in HT]; split; intros; lia. }
  clear Hw. destruct Hlen as [Hfull Hpart].
  set (self4 := set_past_result rest self3).
  assert (H4 : between_steps self4).
  { unfold self4, self3, self2, between_steps.
    cbn [T past_result state set_T set_past_result set_state set_velocities].
    split; [eauto|]. split; intros; lia. }
  apply andthen_spec.
  { intros e He. apply Hfail; [|exact H4].
    eapply Err_in_range; [|exact He]. apply in_range_fallen. }
  intros done _. apply andthen_spec.
  { intros e He. apply Hfail; [|exact H4].
    eapply Err_in_range; [|exact He]. apply in_range_reward_of. }
  intros [reward beyond] _. unfold P. cbn [fst snd]. split; [|split].
  - destruct H4 as (Hs & Hl & Hh). split; [exact Hs|]. split; assumption.
  - apply in_range_Ok.
  - intros _ _ Hexact.
    unfold self4, self3, self2.
    cbn [T past_result state set_T set_past_result set_state set_velocities
         set_steps_beyond_done].
    lia.
Qed.

End StepFacts.

Section ResetFacts.

Import Gym doublepole_710_v1.
Context {num rand : Type} `{arith num}.
Variable gen : generator rand num.
Implicit Types self : DoublePole710v1 (num:=num) (rand:=rand).

Lemma reset_spec self :
  uniform_shape gen ->
  exists obs,
    fst (reset gen self) = Ok obs /\ length obs = 3 /\
    between_steps (snd (reset gen self)) /\
    T (snd (reset gen self)) = 0 /\
    length (past_result (snd (reset gen self))) = 1 /\
    steps_beyond_done (snd (reset gen self)) = None /\
    action_space (snd (reset gen self)) = action_space self /\
    kinematics_integrator (snd (reset gen self)) = kinematics_integrator self.
Proof.
  intros Hshape. unfold reset.
  match goal with
  | |- context [uniform gen ?lo ?hi 3 (np_random self)] =>
      pose proof (Hshape lo hi 3 (np_random self)) as Ha;
      destruct (uniform gen lo hi 3 (np_random self)) as [a r]
  end.
  cbn [fst] in Ha. cbn [np_random set_T set_state set_np_random].
  match goal with
  | |- context [uniform gen ?lo ?hi 3 r] =>
      pose proof (Hshape lo hi 3 r) as Hb;
      destruct (uniform gen lo hi 3 r) as [b r']
  end.
  cbn [fst] in Hb.
  destruct a as [|a0 [|a1 [|a2 [|a3 a]]]]; try discriminate Ha.
  destruct b as [|b0 [|b1 [|b2 [|b3 b]]]]; try discriminate Hb.
  cbn. eexists. split; [reflexivity|]. split; [reflexivity|].
  split; [|cbn; auto 10].
  split; [cbn; eauto|]. cbn. split; intros; lia.
Qed.

(** What [step] leaves alone, whatever it does: it advances [T] by one and
    keeps the action space and the choice of the integrator. *)
Lemma step_frame self (action : Z) :
  T (snd (step action self)) = S (T self) /\
  action_space (snd (step action self)) = action_space self /\
  kinematics_integrator (snd (step action self)) = kinematics_integrator self.
Proof.
  set (P := fun r : answer (list num * num * bool)
                     * DoublePole710v1 (num:=num) (rand:=rand) =>
              T (snd r) = S (T self) /\
              action_space (snd r) = action_space self /\
              kinematics_integrator (snd r) = kinematics_integrator self).
  change (P (step action self)). unfold step.
  destruct (negb _); [unfold P; cbn; auto|].
  repeat (apply andthen_spec; [intros; unfold P; cbn; auto|];
          intros; repeat match goal with x : _ * _ |- _ => destruct x end).
  unfold P; cbn; auto.
Qed.

Lemma step_rejected self (action : Z) :
  contains (action_space self) action = false ->
  step action self = (Err AssertionError, set_T (S (T self)) self).
Proof.
  intros Hact. unfold step. cbn [action_space set_T]. now rewrite Hact.
Qed.

End ResetFacts.

(** X19. The window of [doublepole_710_v1.py], with numpy's elementwise
    arithmetic and a generator that answers arrays of the shape asked for.
    [reset] returns, sets [T = 0] and leaves one entry in [past_result].
    Between two steps after a reset the state is a triple and [past_result]
    holds [T + 1] entries while [T < 100] and at least 100 from then on.  A
    step with an accepted action keeps this and never raises [IndexError]:
    the hundred reads [past_result[i]] and [pop(0)] are in range; when it
    returns and [past_result] held [min(T + 1, 100)] entries, it holds
    [min(T + 1, 100)] entries for the new [T].  A rejected action raises
    [AssertionError] after [T] has been advanced, and changes nothing
    else. *)
Theorem window_holds_a_hundred_entries {num rand : Type} `{Gym.arith num}
    (gen : Gym.generator rand num) :
  Gym.elementwise num -> Gym.uniform_shape gen ->
  (forall self : doublepole_710_v1.DoublePole710v1 (num:=num) (rand:=rand),
     let after := doublepole_710_v1.reset gen self in
     (exists obs, fst after = Gym.Ok obs) /\
     doublepole_710_v1.between_steps (snd after) /\
     doublepole_710_v1.T (snd after) = 0 /\
     length (doublepole_710_v1.past_result (snd after)) = 1) /\
  (forall (self : doublepole_710_v1.DoublePole710v1 (num:=num) (rand:=rand))
          (action : Z),
     let after := doublepole_710_v1.step action self in
     doublepole_710_v1.between_steps self ->
     Gym.contains (doublepole_710_v1.action_space self) action = true ->
     doublepole_710_v1.between_steps (snd after) /\
     fst after <> Gym.Err (Gym.Builtin IndexError) /\
     (forall r, fst after = Gym.Ok r ->
        length (doublepole_710_v1.past_result self)
        = Nat.min (S (doublepole_710_v1.T self)) 100 ->
        length (doublepole_710_v1.past_result (snd after))
        = Nat.min (S (doublepole_710_v1.T (snd after))) 100)) /\
  (forall (self : doublepole_710_v1.DoublePole710v1 (num:=num) (rand:=rand))
          (action : Z),
     Gym.contains (doublepole_710_v1.action_space self) action = false ->
     doublepole_710_v1.step action self
     = (Gym.Err Gym.AssertionError,
        doublepole_710_v1.set_T (S (doublepole_710_v1.T self)) self)).
Proof.
  intros Hel Hshape. split; [|split].
  - intros self after.
    destruct (reset_spec gen self Hshape) as (obs & Hobs & _ & Hb & HT & Hlen & _).
    split; [eauto|]. split; [exact Hb|]. split; [exact HT | exact Hlen].
  - intros self action after Hb Hact.
    destruct (step_between self action Hel Hb Hact) as (Hb' & Hin & Hexact).
    split; [exact Hb'|]. split; [exact Hin|].
    intros r Hr Hlen. unfold after.
    rewrite (proj1 (step_frame self action)). now apply (Hexact r).
  - intros self action. apply step_rejected.
Qed.

Section RewardFacts.

Import QArith.
Local Close Scope Q_scope.
Import Gym doublepole_710_v1.
Context {num rand : Type} `{arith num}.
Implicit Types self : DoublePole710v1 (num:=num) (rand:=rand).

(** [steps_beyond_done] is assigned by a step that returns [done = True],
    and by no other. *)
Lemma step_beyond self (action : Z) :
  steps_beyond_done (snd (step action self))
  = if said_done (fst (step action self))
    then Some (match steps_beyond_done self with
               | None => 0
               | Some n => S n
               end)
    else steps_beyond_done self.
Proof.
  set (P := fun r : answer (list num * num * bool)
                     * DoublePole710v1 (num:=num) (rand:=rand) =>
              steps_beyond_done (snd r)
              = if said_done (fst r)
                then Some (match steps_beyond_done self with
                           | None => 0
                           | Some n => S n
                           end)
                else steps_beyond_done self).
  change (P (step action self)). unfold step.
  destruct (negb _); [reflexivity|].
  do 6 (apply andthen_spec; [intros; reflexivity|];
        intros; repeat match goal with x : _ * _ |- _ => destruct x end).
  apply andthen_spec; [intros; reflexivity|]. intros [reward beyond] Hr.
  unfold P. cbn [fst snd said_done set_steps_beyond_done steps_beyond_done].
  unfold reward_of in Hr.
  cbn [steps_beyond_done set_past_result set_state set_velocities set_T] in Hr.
  match goal with |- _ = (if ?d then _ else _) => destruct d end; cbn [negb] in Hr.
  - destruct (steps_beyond_done self); injection Hr as _ <-; reflexivity.
  - destruct (binop add _ _); [|discriminate Hr]. cbn in Hr.
    injection Hr as _ <-. reflexivity.
Qed.

(** The reward of a step that returns [done = True]: 1.0 the first time,
    0.0 afterwards. *)
Lemma step_reward_done self (action : Z) obs (reward : num) :
  fst (step action self) = Ok (obs, reward, true) ->
  reward = match steps_beyond_done self with
           | None => py_float 1.0%Q
           | Some _ => py_float 0.0%Q
           end.
Proof.
  set (P := fun r : answer (list num * num * bool)
                     * DoublePole710v1 (num:=num) (rand:=rand) =>
              fst r = Ok (obs, reward, true) ->
              reward = match steps_beyond_done self with
                       | None => py_float 1.0%Q
                       | Some _ => py_float 0.0%Q
                       end).
  change (P (step action self)). unfold step.
  destruct (negb _); [discriminate|].
  do 6 (apply andthen_spec; [intros; discriminate|];
        intros; repeat match goal with x : _ * _ |- _ => destruct x end).
  apply andthen_spec; [intros; discriminate|]. intros [reward' beyond] Hr.
  unfold P. cbn [fst]. intros [= _ <- ->].
  unfold reward_of in Hr. cbn [negb] in Hr.
  cbn [steps_beyond_done set_past_result set_state set_velocities set_T] in Hr.
  destruct (steps_beyond_done self); injection Hr as <- _; reflexivity.
Qed.

(** X20. [steps_beyond_done] of [doublepole_710_v1.py] counts the steps that
    returned [done = True]: after any calls of [step], whatever each one did,
    on an object on which it was [None], it is [None] when no call returned
    [done = True] and [d - 1] when [d] calls did.  The next step that returns
    [done = True] has the reward 1.0 when it is the first one and 0.0
    otherwise. *)
Theorem steps_beyond_done_counts_done_steps self (actions : list Z) :
  let run := episode step actions self in
  steps_beyond_done self = None ->
  (steps_beyond_done (snd run)
   = match dones (fst run) with
     | 0 => None
     | S d => Some d
     end) /\
  (forall action obs reward,
     fst (step action (snd run)) = Ok (obs, reward, true) ->
     reward = match dones (fst run) with
              | 0 => py_float 1.0%Q
              | S _ => py_float 0.0%Q
              end).
Proof.
  intros run Hnone.
  assert (Hb : steps_beyond_done (snd run)
               = match dones (fst run) with
                 | 0 => None
                 | S d => Some d
                 end).
  { unfold run. rewrite (episode_counts step steps_beyond_done
                       (fun a s => step_beyond s a)), Hnone.
    reflexivity. }
  split; [exact Hb|]. intros action obs reward Hstep.
  rewrite (step_reward_done _ _ _ _ Hstep), Hb.
  destruct (dones (fst run)); reflexivity.
Qed.

End RewardFacts.

Section EulerFacts.

Import Gym doublepole_710_v1.
Context {num rand : Type} `{arith num}.
Implicit Types self : DoublePole710v1 (num:=num) (rand:=rand).

Lemma step_euler self (action : Z) r :
  kinematics_integrator self = "euler"%string ->
  fst (step action self) <> Ok r.
Proof.
  intros Heuler. unfold step.
  destruct (negb _); [discriminate|].
  set (P := fun r' : answer (list num * num * bool)
                      * DoublePole710v1 (num:=num) (rand:=rand) =>
              fst r' <> Ok r).
  apply (andthen_spec P); [intros; discriminate|]. intros [[x t1] t2] _.
  apply (andthen_spec P); [intros; discriminate|]. intros force _.
  cbn [kinematics_integrator set_past_result set_T]. rewrite Heuler.
  cbn [String.eqb Ascii.eqb Bool.eqb andthen]. discriminate.
Qed.

End EulerFacts.

Section PlatformFacts.

Import Gym PoleScenarios.

Lemma rational_elementwise : @elementwise QArith_base.Q rational.
Proof.
  split.
  - intros a b c Hlen. cbn [ndarray_add rational].
    destruct (Nat.eqb_spec (length a) (length b)); [|discriminate].
    intros [= <-]. now apply length_zip_with_l_eq.
  - intros x a c. cbn [ndarray_rmul rational]. intros [= <-].
    apply length_map.
Qed.

Lemma midpoint_shape : uniform_shape midpoint.
Proof. intros low high n r. apply length_replicate. Qed.

End PlatformFacts.

(** X19 on exact rationals: a constructed environment after [reset] and a
    step to the right. *)
Lemma window_holds_a_hundred_entries_witness :
  exists self,
    doublepole_710_v1.__init__ (H:=PoleScenarios.rational) tt = Gym.Ok self /\
    doublepole_710_v1.between_steps
      (snd (doublepole_710_v1.step 1
              (snd (doublepole_710_v1.reset PoleScenarios.midpoint self)))).
Proof.
  destruct (window_holds_a_hundred_entries PoleScenarios.midpoint
              rational_elementwise midpoint_shape) as (Hreset & Hstep & _).
  eexists. split; [reflexivity|].
  apply Hstep; [apply Hreset | reflexivity].
Defined.

(** X20 on exact rationals: a step to the right and a step to the left
    after [reset]. *)
Lemma steps_beyond_done_counts_done_steps_witness :
  exists self,
    doublepole_710_v1.__init__ (H:=PoleScenarios.rational) tt = Gym.Ok self /\
    let run :=
      Gym.episode doublepole_710_v1.step [1; 0]%Z
        (snd (doublepole_710_v1.reset PoleScenarios.midpoint self)) in
    doublepole_710_v1.steps_beyond_done (snd run)
    = match Gym.dones (fst run) with
      | 0 => None
      | S d => Some d
      end.
Proof.
  eexists. split; [reflexivity|].
  cbv zeta.
  match goal with
  | |- context [Gym.episode _ ?acts ?s] =>
      exact (proj1 (steps_beyond_done_counts_done_steps s acts eq_refl))
  end.
Defined.

Section EulerBranch.

Import Gym doublepole_710_v1.
Context {num rand : Type} `{arith num}.
Variable gen : generator rand num.
Implicit Types self : DoublePole710v1 (num:=num) (rand:=rand).

Lemma reset_frame self :
  action_space (snd (reset gen self)) = action_space self /\
  kinematics_integrator (snd (reset gen self)) = kinematics_integrator self.
Proof.
  unfold reset.
  destruct (uniform gen _ _ 3 (np_random self)) as [a r].
  cbn [np_random set_T set_state set_np_random].
  destruct (uniform gen _ _ 3 r) as [b r'].
  set (P := fun r : answer (list num) * DoublePole710v1 (num:=num) (rand:=rand) =>
              action_space (snd r) = action_space self /\
              kinematics_integrator (snd r) = kinematics_integrator self).
  apply (andthen_spec P); [intros; unfold P; cbn; auto|].
  intros [[cv p1] p2] _.
  apply (andthen_spec P); [intros; unfold P; cbn; auto|].
  intros [s0 s1] _. unfold P. cbn. auto.
Qed.

Lemma step_euler_raises self (action : Z) :
  kinematics_integrator self = "euler"%string ->
  contains (action_space self) action = true ->
  (exists a b c, state self = Some [a; b; c]) ->
  (fst (step action self) = Err (Builtin TypeError) \/
   exists e, fst (step action self) = Err (Numeric e)) /\
  length (past_result (snd (step action self)))
  = S (length (past_result self)).
Proof.
  intros Heuler Hact (a & b & c & Hs). unfold step.
  cbn [action_space set_T]. rewrite Hact. cbn [negb].
  cbn [state set_T]. rewrite Hs.
  cbn [iterable unpack3 mbind answer_bind andthen].
  cbn [kinematics_integrator set_past_result set_T force_mag past_result].
  rewrite Heuler.
  destruct (action =? 1)%Z.
  - cbn. split; [now left|]. rewrite length_app. cbn. lia.
  - unfold uminus, var. cbn [mbind answer_bind].
    destruct (neg (force_mag self)) as [f|e]; cbn.
    + split; [now left|]. rewrite length_app. cbn. lia.
    + split; [right; eauto|]. rewrite length_app. cbn. lia.
Qed.

End EulerBranch.

(** X21. The ['euler'] integrator of [doublepole_710_v1.py] cannot run: with
    [kinematics_integrator == 'euler'] no call of [step] returns, and a call
    with an accepted action on a state of three raises [TypeError] at
    [self._cal_acc()] (or the exception of [-self.force_mag]) after [T] has
    been advanced and an entry appended to [past_result].  The constructor
    chooses ['RK4'], and neither [step] nor [reset] assigns the attribute. *)
Theorem euler_integrator_never_returns {num rand : Type} `{Gym.arith num}
    (gen : Gym.generator rand num) :
  (forall (self : doublepole_710_v1.DoublePole710v1 (num:=num) (rand:=rand))
          action r,
     doublepole_710_v1.kinematics_integrator self = "euler"%string ->
     fst (doublepole_710_v1.step action self) <> Gym.Ok r) /\
  (forall (self : doublepole_710_v1.DoublePole710v1 (num:=num) (rand:=rand))
          action,
     doublepole_710_v1.kinematics_integrator self = "euler"%string ->
     Gym.contains (doublepole_710_v1.action_space self) action = true ->
     (exists a b c, doublepole_710_v1.state self = Some [a; b; c]) ->
     let after := doublepole_710_v1.step action self in
     (fst after = Gym.Err (Gym.Builtin TypeError) \/
      exists e, fst after = Gym.Err (Gym.Numeric e)) /\
     doublepole_710_v1.T (snd after) = S (doublepole_710_v1.T self) /\
     length (doublepole_710_v1.past_result (snd after))
     = S (length (doublepole_710_v1.past_result self))) /\
  (forall seed (self : doublepole_710_v1.DoublePole710v1 (num:=num) (rand:=rand)),
     doublepole_710_v1.__init__ seed = Gym.Ok self ->
     doublepole_710_v1.kinematics_integrator self = "RK4"%string) /\
  (forall (self : doublepole_710_v1.DoublePole710v1 (num:=num) (rand:=rand))
          action,
     doublepole_710_v1.kinematics_integrator
       (snd (doublepole_710_v1.step action self))
     = doublepole_710_v1.kinematics_integrator self /\
     doublepole_710_v1.kinematics_integrator
       (snd (doublepole_710_v1.reset gen self))
     = doublepole_710_v1.kinematics_integrator self).
Proof.
  split; [|split; [|split]].
  - intros self action r Heuler. now apply step_euler.
  - intros self action Heuler Hact Hstate after.
    destruct (step_euler_raises self action Heuler Hact Hstate) as [Hr Hlen].
    split; [exact Hr|]. split; [apply step_frame | exact Hlen].
  - intros seed self. unfold doublepole_710_v1.__init__.
    destruct (Gym.binop _ _ _) as [threshold|e]; [|discriminate].
    cbn. intros [= <-]. reflexivity.
  - intros self action. split; [apply step_frame | apply reset_frame].
Qed.

Section NumericOnly.

Import Gym.
Context {num : Type} `{arith num}.

(** Arithmetic raises no exception of the interpreter's own. *)
Lemma in_builtin_numeric {A} (o : outcome A) e : numeric o <> Err (Builtin e).
Proof. destruct o; discriminate. Qed.

Lemma in_builtin_bind {A B} (a : answer A) (k : A -> answer B) e :
  a <> Err (Builtin e) -> (forall x, k x <> Err (Builtin e)) ->
  (x ← a; k x) <> Err (Builtin e).
Proof.
  intros Ha Hk. destruct a as [x|e0]; cbn; [apply Hk|].
  intros [= ->]. now apply Ha.
Qed.

Lemma in_builtin_binop op (a b : answer num) e :
  a <> Err (Builtin e) -> b <> Err (Builtin e) ->
  binop op a b <> Err (Builtin e).
Proof.
  intros Ha Hb. unfold binop. apply in_builtin_bind; [exact Ha|]. intros x.
  apply in_builtin_bind; [exact Hb|]. intros y. apply in_builtin_numeric.
Qed.

Lemma in_builtin_uminus (a : answer num) e :
  a <> Err (Builtin e) -> uminus a <> Err (Builtin e).
Proof.
  intros Ha. unfold uminus. apply in_builtin_bind; [exact Ha|]. intros x.
  apply in_builtin_numeric.
Qed.

Lemma in_builtin_less (a b : answer num) e :
  a <> Err (Builtin e) -> b <> Err (Builtin e) ->
  less a b <> Err (Builtin e).
Proof.
  intros Ha Hb. unfold less. apply in_builtin_bind; [exact Ha|]. intros x.
  apply in_builtin_bind; [exact Hb|]. intros y. apply in_builtin_numeric.
Qed.

Lemma in_builtin_greater (a b : answer num) e :
  a <> Err (Builtin e) -> b <> Err (Builtin e) ->
  greater a b <> Err (Builtin e).
Proof.
  intros Ha Hb. unfold greater. apply in_builtin_bind; [exact Ha|]. intros x.
  apply in_builtin_bind; [exact Hb|]. intros y. apply in_builtin_numeric.
Qed.

Lemma in_builtin_or_else (p q : answer bool) e :
  p <> Err (Builtin e) -> q <> Err (Builtin e) ->
  or_else p q <> Err (Builtin e).
Proof.
  intros Hp Hq. unfold or_else. apply in_builtin_bind; [exact Hp|].
  intros []; [discriminate | exact Hq].
Qed.

End NumericOnly.

Ltac numeric_only :=
  repeat first
    [ apply in_builtin_numeric
    | apply in_builtin_binop
    | apply in_builtin_uminus
    | apply in_builtin_less
    | apply in_builtin_greater
    | apply in_builtin_or_else
    | apply in_builtin_bind; [|intros ?]
    | discriminate ].

Section FirstEnvironment.

Import QArith.
Local Close Scope Q_scope.
Import Gym doublepole_710.
Context {num rand : Type} `{arith num}.
Variable gen : generator rand num.
Implicit Types self : DoublePole710 (num:=num) (rand:=rand).

Lemma in_builtin_runge_kutta4 (y h : num) fy e :
  (forall v, fy v <> Err (Builtin e)) ->
  runge_kutta4 y fy h <> Err (Builtin e).
Proof.
  intros Hfy. unfold runge_kutta4, var, int.
  repeat first [ apply Hfy | progress numeric_only ].
Qed.

Lemma in_builtin_cart_acc self l vc e : cart_acc self l vc <> Err (Builtin e).
Proof. unfold cart_acc, var, int, lit. numeric_only. Qed.

Lemma in_builtin_pole_acc_1 self l vp e :
  pole_acc_1 self l vp <> Err (Builtin e).
Proof. unfold pole_acc_1, var, int. numeric_only. Qed.

Lemma in_builtin_pole_acc_2 self l vp e :
  pole_acc_2 self l vp <> Err (Builtin e).
Proof. unfold pole_acc_2, var, int. numeric_only. Qed.

Lemma in_builtin_prepare self f a b c d e :
  prepare self f a b c d <> Err (Builtin e).
Proof. unfold prepare, var. numeric_only. Qed.

Lemma in_builtin_advance self l x x_dot theta_1 theta_2 e :
  advance self l x x_dot theta_1 theta_2 <> Err (Builtin e).
Proof.
  unfold advance, var.
  repeat first
    [ apply in_builtin_runge_kutta4; intros ?
    | apply in_builtin_cart_acc
    | apply in_builtin_pole_acc_1
    | apply in_builtin_pole_acc_2
    | progress numeric_only ].
Qed.

Lemma in_builtin_fallen self a b c e : fallen self a b c <> Err (Builtin e).
Proof. unfold fallen, var. numeric_only. Qed.

(** What a call of [step] that returns has done. *)
Lemma pole710_step_returns self (action : Z) obs reward done :
  fst (step action self) = Ok (obs, reward, done) ->
  exists t x x_dot theta_1 theta_1_dot theta_2 theta_2_dot f l
         new_x new_x_dot new_theta_1 new_theta_1_dot new_theta_2
         new_theta_2_dot acc,
    binop add (var (time self)) (var (tau self)) = Ok t /\
    contains (action_space self) action = true /\
    state self = Some [x; x_dot; theta_1; theta_1_dot; theta_2; theta_2_dot] /\
    (if (action =? 1)%Z then var (force_mag self)
     else uminus (var (force_mag self))) = Ok f /\
    prepare (set_time t self) f theta_1 theta_1_dot theta_2 theta_2_dot = Ok l /\
    advance (set_time t self) l x x_dot theta_1 theta_2
    = Ok (new_x, new_x_dot, new_theta_1, new_theta_1_dot, new_theta_2,
          new_theta_2_dot, acc) /\
    fallen self new_x new_theta_1 new_theta_2 = Ok done /\
    obs = np_array [new_x; new_x_dot; new_theta_1; new_theta_1_dot;
                    new_theta_2; new_theta_2_dot] /\
    reward = fst (reward_of self done) /\
    snd (step action self)
    = set_steps_beyond_done (snd (reward_of self done))
        (set_state (Some [new_x; new_x_dot; new_theta_1; new_theta_1_dot;
                          new_theta_2; new_theta_2_dot])
           (set_xacc acc (set_time t self))).
Proof.
  unfold step.
  destruct (binop add (var (time self)) (var (tau self))) as [t|e];
    [|discriminate]. cbn [andthen action_space set_time].
  destruct (contains (action_space self) action); [|discriminate].
  cbn [negb state set_time force_mag].
  destruct (state self) as [s|]; [|discriminate]. cbn [iterable mbind answer_bind].
  destruct s as [|x [|x_dot [|theta_1 [|theta_1_dot [|theta_2 [|theta_2_dot [|? ?]]]]]]];
    try discriminate.
  cbn [unpack6 andthen].
  destruct (if (action =? 1)%Z then _ else _) as [f|e]; [|discriminate].
  cbn [mbind answer_bind].
  destruct (prepare _ f theta_1 theta_1_dot theta_2 theta_2_dot) as [l|e]
    eqn:Hl; [|discriminate].
  cbn [mbind answer_bind].
  destruct (advance _ l x x_dot theta_1 theta_2)
    as [[[[[[[new_x new_x_dot] new_theta_1] new_theta_1_dot] new_theta_2]
           new_theta_2_dot] acc]|e] eqn:Hadv; [|discriminate].
  cbn [andthen].
  match goal with
  | |- context [andthen ?a _ _] => change a with
      (fallen self new_x new_theta_1 new_theta_2)
  end.
  destruct (fallen self new_x new_theta_1 new_theta_2) as [d|e] eqn:Hd;
    [|discriminate].
  cbn [andthen].
  match goal with
  | |- context [reward_of ?s d] => change (reward_of s d) with (reward_of self d)
  end.
  destruct (reward_of self d) as [rw beyond] eqn:Hrw.
  cbn [fst snd]. intros [= <- <- <-].
  do 16 eexists. rewrite Hrw. cbn [fst snd].
  repeat (split; [first [reflexivity | eassumption]|]). reflexivity.
Qed.

Lemma pole710_step_beyond self (action : Z) :
  steps_beyond_done (snd (step action self))
  = if said_done (fst (step action self))
    then Some (match steps_beyond_done self with
               | None => 0
               | Some n => S n
               end)
    else steps_beyond_done self.
Proof.
  set (P := fun r : answer (list num * num * bool)
                     * DoublePole710 (num:=num) (rand:=rand) =>
              steps_beyond_done (snd r)
              = if said_done (fst r)
                then Some (match steps_beyond_done self with
                           | None => 0
                           | Some n => S n
                           end)
                else steps_beyond_done self).
  change (P (step action self)). unfold step.
  apply andthen_spec; [intros; reflexivity|]. intros t _.
  destruct (negb _); [reflexivity|].
  do 3 (apply andthen_spec; [intros; reflexivity|];
        intros; repeat match goal with x : _ * _ |- _ => destruct x end).
  unfold P, reward_of. cbn [steps_beyond_done set_state set_xacc set_time].
  match goal with b : bool |- _ => destruct b end;
    destruct (steps_beyond_done self); reflexivity.
Qed.

(** The state of the object after [step], whatever it did, has six entries
    when the state before had; and [step] raises no exception of the
    interpreter's own. *)
Lemma pole710_step_between self (action : Z) :
  between_steps self ->
  between_steps (snd (step action self)) /\
  (forall e, fst (step action self) <> Err (Builtin e)) /\
  (forall obs reward done,
     fst (step action self) = Ok (obs, reward, done) -> length obs = 6).
Proof.
  intros (s & Hs & Hlen).
  set (P := fun r : answer (list num * num * bool)
                     * DoublePole710 (num:=num) (rand:=rand) =>
              between_steps (snd r) /\
              (forall e, fst r <> Err (Builtin e)) /\
              (forall obs reward done,
                 fst r = Ok (obs, reward, done) -> length obs = 6)).
  assert (Hnum : forall A (a : answer A) e,
            (forall e', a <> Err (Builtin e')) -> a = Err e ->
            forall self', between_steps self' -> P (Err e, self')).
  { intros A a e Ha -> self' Hb. unfold P. cbn [fst snd].
    split; [exact Hb|]. split; [|discriminate].
    intros e' [= ->]. now apply (Ha e'). }
  change (P (step action self)). unfold step.
  apply andthen_spec.
  { intros e He. apply (Hnum _ _ e) with (2 := He); [|now exists s].
    intros e'. apply in_builtin_binop; discriminate. }
  intros t _.
  destruct (negb _).
  { unfold P. cbn [fst snd]. split; [now exists s|]. split; discriminate. }
  cbn [state set_time]. rewrite Hs. cbn [iterable mbind answer_bind].
  destruct s as [|x [|x_dot [|theta_1 [|theta_1_dot [|theta_2 [|theta_2_dot [|? ?]]]]]]];
    try discriminate Hlen.
  cbn [unpack6 andthen].
  apply andthen_spec.
  { intros e He. apply (Hnum _ _ e) with (2 := He);
      [|eexists; split; [exact Hs | reflexivity]].
    intros e'. apply in_builtin_bind.
    - destruct (action =? 1)%Z; [discriminate|]. apply in_builtin_uminus.
      discriminate.
    - intros f. apply in_builtin_bind; [apply in_builtin_prepare|].
      intros l. apply in_builtin_advance. }
  intros [[[[[[new_x new_x_dot] new_theta_1] new_theta_1_dot] new_theta_2]
           new_theta_2_dot] acc] _.
  apply andthen_spec.
  { intros e He. apply (Hnum _ _ e) with (2 := He);
      [|eexists; split; reflexivity].
    intros e'. apply in_builtin_fallen. }
  intros done _. destruct (reward_of _ done) as [reward beyond].
  unfold P. cbn [fst snd].
  split; [eexists; split; reflexivity|]. split; [discriminate|].
  intros obs reward' done' [= <- _ _]. reflexivity.
Qed.

Lemma pole710_reset_between self :
  uniform_shape gen ->
  (exists obs, fst (reset gen self) = Ok obs /\ length obs = 6) /\
  between_steps (snd (reset gen self)) /\
  time (snd (reset gen self)) = py_int 0 /\
  xacc (snd (reset gen self)) = py_int 0 /\
  steps_beyond_done (snd (reset gen self)) = None /\
  action_space (snd (reset gen self)) = action_space self.
Proof.
  intros Hshape. unfold reset.
  match goal with
  | |- context [uniform gen ?lo ?hi 6 (np_random self)] =>
      pose proof (Hshape lo hi 6 (np_random self)) as Ha;
      destruct (uniform gen lo hi 6 (np_random self)) as [a r]
  end.
  cbn [fst snd] in *. split; [|split].
  - eexists. split; [reflexivity|]. unfold np_array. now rewrite length_map.
  - exists a. split; [reflexivity | exact Ha].
  - cbn. auto.
Qed.

Lemma pole710_step_rejected self (action : Z) (t : num) :
  contains (action_space self) action = false ->
  binop add (var (time self)) (var (tau self)) = Ok t ->
  step action self = (Err AssertionError, set_time t self).
Proof.
  intros Hact Ht. unfold step. rewrite Ht. cbn [andthen action_space set_time].
  now rewrite Hact.
Qed.

(** The closures of [step] do not read [self.length_2], but for
    [pole_acc_2]. *)
Lemma advance_with_length_2 self (v : num) l x x_dot theta_1 theta_2
    a b c d e f acc a' b' c' d' e' f' acc' :
  advance self l x x_dot theta_1 theta_2 = Ok (a, b, c, d, e, f, acc) ->
  advance (with_length_2 v self) l x x_dot theta_1 theta_2
  = Ok (a', b', c', d', e', f', acc') ->
  a = a' /\ b = b' /\ c = c' /\ d = d' /\ e = e' /\ acc = acc'.
Proof.
  unfold advance.
  change (cart_acc (with_length_2 v self) l) with (cart_acc self l).
  change (pole_acc_1 (with_length_2 v self) l) with (pole_acc_1 self l).
  cbn [time tau with_length_2].
  destruct (runge_kutta4 x_dot _ _) as [b0|?]; [|discriminate].
  cbn [mbind answer_bind].
  destruct (binop add (var x) _) as [a0|?]; [|discriminate].
  cbn [mbind answer_bind].
  destruct (runge_kutta4 (theta_1_dot l) (pole_acc_1 self l) _) as [d0|?];
    [|discriminate].
  cbn [mbind answer_bind].
  destruct (binop add (var theta_1) _) as [c0|?]; [|discriminate].
  cbn [mbind answer_bind].
  destruct (runge_kutta4 (theta_2_dot l) (pole_acc_2 self l) _) as [f0|?];
    [|discriminate].
  destruct (runge_kutta4 (theta_2_dot l) (pole_acc_2 _ l) _) as [f1|?];
    [|discriminate].
  cbn [mbind answer_bind].
  destruct (binop add (var theta_2) _) as [e0|?]; [|discriminate].
  cbn [mbind answer_bind].
  destruct (cart_acc self l b0) as [acc0|?]; [|discriminate].
  cbn [mbind answer_bind].
  intros [= <- <- <- <- <- <- <-] [= <- <- <- <- <- <- <-]. auto 10.
Qed.

(** X22. The reward of [doublepole_710.py]: after any calls of [step],
    whatever each one did, on an object on which [steps_beyond_done] was
    [None], [steps_beyond_done] is [None] when no call returned
    [done = True] and [d - 1] when [d] calls did; and a next step that
    returns has the reward 0.0 when it returns [done = True] after an earlier
    [done = True], and 1.0 in every other case. *)
Theorem reward_is_one_until_done_again self (actions : list Z) :
  let run := episode step actions self in
  steps_beyond_done self = None ->
  (steps_beyond_done (snd run)
   = match dones (fst run) with
     | 0 => None
     | S d => Some d
     end) /\
  (forall action obs reward done,
     fst (step action (snd run)) = Ok (obs, reward, done) ->
     reward = if done && (0 <? dones (fst run))
              then py_float 0.0%Q else py_float 1.0%Q).
Proof.
  intros run Hnone.
  assert (Hb : steps_beyond_done (snd run)
               = match dones (fst run) with
                 | 0 => None
                 | S d => Some d
                 end).
  { unfold run.
    rewrite (episode_counts step steps_beyond_done
                            (fun a s => pole710_step_beyond s a)), Hnone.
    reflexivity. }
  split; [exact Hb|]. intros action obs reward done Hstep.
  apply pole710_step_returns in Hstep
    as (t & x & x_dot & theta_1 & theta_1_dot & theta_2 & theta_2_dot & f & l
        & new_x & new_x_dot & new_theta_1 & new_theta_1_dot & new_theta_2
        & new_theta_2_dot & acc & _ & _ & _ & _ & _ & _ & _ & _ & -> & _).
  unfold reward_of. rewrite Hb.
  destruct done, (dones (fst run)); reflexivity.
Qed.

(** X24. In [step] of [doublepole_710.py] the second pole's
    [polemass_length_2] is computed from [length_1] and [masspole_1]
    (line 145), and [self.length_2] is read by [pole_acc_2] only: two
    environments that differ in [length_2] alone and both return from a step
    agree on the reward, on [done], on the new [xacc] and on every entry of
    the observation but the last, the second pole's angular velocity. *)
Theorem second_pole_length_moves_one_entry self (v : num) (action : Z)
    obs reward done obs' reward' done' :
  fst (step action self) = Ok (obs, reward, done) ->
  fst (step action (with_length_2 v self)) = Ok (obs', reward', done') ->
  (forall i, i <> 5 -> obs !! i = obs' !! i) /\
  reward = reward' /\ done = done' /\
  xacc (snd (step action self))
  = xacc (snd (step action (with_length_2 v self))).
Proof.
  intros Hs Hs'.
  apply pole710_step_returns in Hs
    as (t & x & x_dot & theta_1 & theta_1_dot & theta_2 & theta_2_dot & f & l
        & a & b & c & d & e & g & acc
        & Ht & _ & Hst & Hf & Hl & Hadv & Hd & -> & -> & ->).
  apply pole710_step_returns in Hs'
    as (t' & x' & x_dot' & theta_1' & theta_1_dot' & theta_2' & theta_2_dot'
        & f' & l' & a' & b' & c' & d' & e' & g' & acc'
        & Ht' & _ & Hst' & Hf' & Hl' & Hadv' & Hd' & -> & -> & ->).
  cbn [time tau state force_mag with_length_2] in Ht', Hst', Hf'.
  rewrite Ht in Ht'. injection Ht' as <-.
  rewrite Hst in Hst'. injection Hst' as <- <- <- <- <- <-.
  rewrite Hf in Hf'. injection Hf' as <-.
  change (prepare (set_time t (with_length_2 v self)))
    with (prepare (set_time t self)) in Hl'.
  rewrite Hl in Hl'. injection Hl' as <-.
  change (set_time t (with_length_2 v self))
    with (with_length_2 v (set_time t self)) in Hadv'.
  destruct (advance_with_length_2 _ _ _ _ _ _ _ _ _ _ _ _ _ _ _ _ _ _ _ _ _
              Hadv Hadv') as (<- & <- & <- & <- & <- & <-).
  change (fallen (with_length_2 v self)) with (fallen self) in Hd'.
  rewrite Hd in Hd'. injection Hd' as <-.
  split; [|split; [|split]]; try reflexivity.
  intros i Hi.
  do 5 (destruct i as [|i]; [reflexivity|]).
  destruct i as [|i]; [congruence|]. reflexivity.
Qed.

End FirstEnvironment.

(** X22 on exact rationals: a step to the right and a step to the left
    after [reset]. *)
Lemma reward_is_one_until_done_again_witness :
  exists self,
    doublepole_710.__init__ (H:=PoleScenarios.rational) tt = Gym.Ok self /\
    let run :=
      Gym.episode doublepole_710.step [1; 0]%Z
        (snd (doublepole_710.reset PoleScenarios.midpoint self)) in
    doublepole_710.steps_beyond_done (snd run)
    = match Gym.dones (fst run) with
      | 0 => None
      | S d => Some d
      end.
Proof.
  eexists. split; [reflexivity|].
  cbv zeta.
  match goal with
  | |- context [Gym.episode _ ?acts ?s] =>
      exact (proj1 (reward_is_one_until_done_again s acts eq_refl))
  end.
Defined.

(** X23. The state of [doublepole_710.py], with a generator that answers
    arrays of the shape asked for.  [reset] returns an observation of six
    entries and sets [time] and [xacc] to 0.  When the state has six
    entries, [step] leaves a state of six entries whatever it does, raises no
    exception of the interpreter's own (an [AssertionError] or an exception
    of the arithmetic only), and an observation it returns has six entries.
    A rejected action raises [AssertionError] after [self.time += self.tau],
    and changes nothing else. *)
Theorem state_keeps_six_entries {num rand : Type} `{Gym.arith num}
    (gen : Gym.generator rand num) :
  Gym.uniform_shape gen ->
  (forall self, let after := doublepole_710.reset gen self in
     (exists obs, fst after = Gym.Ok obs /\ length obs = 6) /\
     doublepole_710.between_steps (snd after) /\
     doublepole_710.time (snd after) = Gym.py_int 0 /\
     doublepole_710.xacc (snd after) = Gym.py_int 0) /\
  (forall (self : doublepole_710.DoublePole710 (num:=num) (rand:=rand))
          action,
     let after := doublepole_710.step action self in
     doublepole_710.between_steps self ->
     doublepole_710.between_steps (snd after) /\
     (forall e, fst after <> Gym.Err (Gym.Builtin e)) /\
     (forall obs reward done,
        fst after = Gym.Ok (obs, reward, done) -> length obs = 6)) /\
  (forall (self : doublepole_710.DoublePole710 (num:=num) (rand:=rand))
          action t,
     Gym.contains (doublepole_710.action_space self) action = false ->
     Gym.binop Gym.add (Gym.var (doublepole_710.time self))
       (Gym.var (doublepole_710.tau self)) = Gym.Ok t ->
     doublepole_710.step action self
     = (Gym.Err Gym.AssertionError, doublepole_710.set_time t self)).
Proof.
  intros Hshape. split; [|split].
  - intros self after.
    destruct (pole710_reset_between gen self Hshape) as (Hobs & Hb & Ht & Hx & _).
    auto.
  - intros self action after. apply pole710_step_between.
  - intros self action t. apply pole710_step_rejected.
Qed.

(** X23 on exact rationals: a constructed environment after [reset] and a
    step to the left. *)
Lemma state_keeps_six_entries_witness :
  exists self,
    doublepole_710.__init__ tt = Gym.Ok self /\
    doublepole_710.between_steps
      (snd (doublepole_710.step 0
              (snd (doublepole_710.reset PoleScenarios.midpoint self)))).
Proof.
  destruct (state_keeps_six_entries PoleScenarios.midpoint midpoint_shape)
    as (Hreset & Hstep & _).
  eexists. split; [reflexivity|]. apply Hstep, Hreset.
Defined.

(** X24 on exact rationals: the step to the right after [reset], with
    the half-length 0.5 and with 2. *)
Lemma second_pole_length_moves_one_entry_witness :
  exists self,
    doublepole_710.__init__ tt = Gym.Ok self /\
    let s := snd (doublepole_710.reset PoleScenarios.midpoint self) in
    doublepole_710.xacc (snd (doublepole_710.step 1 s))
    = doublepole_710.xacc
        (snd (doublepole_710.step 1
                (doublepole_710.with_length_2 (QArith_base.inject_Z 2) s))).
Proof.
  eexists. split; [reflexivity|]. intros s.
  edestruct (second_pole_length_moves_one_entry s (QArith_base.inject_Z 2) 1%Z)
    as (_ & _ & _ & Hx);
    [vm_compute; reflexivity | vm_compute; reflexivity | exact Hx].
Defined.

(** X25. What the setup of [mfeaii_mgp] reads of the repository's two
    environments: a constructed [DoublePole710] has two actions and a
    [reset()] of shape 6, a constructed [DoublePole710v1] two actions and a
    [reset()] of shape 3, so that the setup on the pair asks for 2 main
    programs, 4 ADFs and 6 terminals. *)
Theorem environments_as_setup_reads_them {num rand : Type} `{Gym.arith num}
    (gen : Gym.generator rand num) (cfg : Mfeaii.config) (seed0 seed1 : rand)
    (self0 : doublepole_710.DoublePole710 (num:=num) (rand:=rand))
    (self1 : doublepole_710_v1.DoublePole710v1 (num:=num) (rand:=rand)) :
  Gym.uniform_shape gen ->
  doublepole_710.__init__ seed0 = Gym.Ok self0 ->
  doublepole_710_v1.__init__ seed1 = Gym.Ok self1 ->
  exists e0 e1,
    doublepole_710.observed gen self0 = Gym.Ok e0 /\
    doublepole_710_v1.observed gen self1 = Gym.Ok e1 /\
    e0 = Examples.doublepole_710 /\
    e1 = Examples.doublepole_710_v1 /\
    Mfeaii.setup_args [e0; e1] cfg
    = Return {| Mfeaii.no_adf := 4; Mfeaii.no_terminal := 6;
                Mfeaii.no_main := 2;
                Mfeaii.arg_h_main := Mfeaii.h_main cfg;
                Mfeaii.arg_max_arity := Mfeaii.max_arity cfg;
                Mfeaii.arg_h_adf := Mfeaii.h_adf cfg;
                Mfeaii.no_pop := 2 * (Mfeaii.pop_size cfg * 2);
                Mfeaii.no_task := 2 |}.
Proof.
  intros Hshape H0 H1.
  assert (A0 : doublepole_710.action_space self0 = 2).
  { revert H0. unfold doublepole_710.__init__.
    destruct (Gym.binop _ _ _); [|discriminate]. cbn. now intros [= <-]. }
  assert (A1 : doublepole_710_v1.action_space self1 = 2).
  { revert H1. unfold doublepole_710_v1.__init__.
    destruct (Gym.binop _ _ _); [|discriminate]. cbn. now intros [= <-]. }
  destruct (pole710_reset_between gen self0 Hshape) as ((obs0 & Hr0 & Hl0) & _).
  destruct (reset_spec gen self1 Hshape) as (obs1 & Hr1 & Hl1 & _).
  exists Examples.doublepole_710, Examples.doublepole_710_v1.
  unfold doublepole_710.observed, doublepole_710_v1.observed.
  rewrite Hr0, Hr1. cbn [mbind Gym.answer_bind]. rewrite Hl0, Hl1, A0, A1.
  repeat (split; [reflexivity|]). reflexivity.
Qed.

(** X25 on exact rationals and a population of 10 per task. *)
Lemma environments_as_setup_reads_them_witness :
  exists e0 e1,
    Mfeaii.setup_args [e0; e1] (Examples.cfg 10 5 2 2 (1 / 2))
    = Return {| Mfeaii.no_adf := 4; Mfeaii.no_terminal := 6;
                Mfeaii.no_main := 2; Mfeaii.arg_h_main := 4;
                Mfeaii.arg_max_arity := 2; Mfeaii.arg_h_adf := 3;
                Mfeaii.no_pop := 40; Mfeaii.no_task := 2 |}.
Proof.
  edestruct (environments_as_setup_reads_them PoleScenarios.midpoint
               (Examples.cfg 10 5 2 2 (1 / 2)) tt tt)
    as (e0 & e1 & _ & _ & _ & _ & Hsetup);
    [exact midpoint_shape | reflexivity | reflexivity |].
  exists e0, e1. exact Hsetup.
Defined.
